(** * zero-rabbit: a shallow embedding of [index.js]

    The module wraps amqplib's callback API.  A [ZeroRabbit] object keeps the
    broker connection, a [Map] from channel names to confirm channels and a
    [Map] from channel names to consumer tags.  Its methods are written here
    as trees of the effects they perform ([Async]); an interpreter ([exec],
    [deliver], [run]) plays the part of the JavaScript event loop, the broker
    library answering the outstanding requests in any order and with any
    result. *)

From Stdlib Require Import ZArith Lia.
From stdpp Require Import gmap strings pretty list fin_maps.

Open Scope string_scope.
Open Scope list_scope.

(** ** The run time's text functions

    [JSON.stringify], [JSON.parse], [Buffer.from(string)] and
    [Buffer.prototype.toString()] belong to the platform, not to the module.
    They are written out here for the values the module is meant to carry:
    [null], booleans, integers, strings, arrays and objects.  A JavaScript
    string is the list of its code points. *)

Module JSON.

Definition text := list N.

(** The fields of an object are listed in property order. *)
#[local] Unset Elimination Schemes.
Inductive value :=
| Null
| Bool (b : bool)
| Number (n : Z)
| Str (s : text)
| Array (items : list value)
| Object (fields : list (text * value)).
#[local] Set Elimination Schemes.

Open Scope N_scope.

(** *** Writing *)

Fixpoint digits (fuel : nat) (n : N) (acc : text) : text :=
  let acc' := (48 + n mod 10) :: acc in
  match fuel with
  | O => acc'
  | S fuel' => if n <? 10 then acc' else digits fuel' (n / 10) acc'
  end.

Definition decimal (n : N) : text := digits (N.size_nat n) n [].

Definition number_text (n : Z) : text :=
  match n with
  | Zneg p => 45 :: decimal (Npos p)
  | _ => decimal (Z.to_N n)
  end.

Definition hex_digit (d : N) : N := if d <? 10 then 48 + d else 87 + d.

Definition hex4 (c : N) : text :=
  [hex_digit ((c / 4096) mod 16); hex_digit ((c / 256) mod 16);
   hex_digit ((c / 16) mod 16); hex_digit (c mod 16)].

Definition is_surrogate (c : N) : bool := (0xD800 <=? c) && (c <=? 0xDFFF).

(** One character inside a string literal.  A surrogate code point stands
    for a lone surrogate, which is written as an escape. *)
Definition escape (c : N) : text :=
  if c =? 8 then [92; 98]
  else if c =? 9 then [92; 116]
  else if c =? 10 then [92; 110]
  else if c =? 12 then [92; 102]
  else if c =? 13 then [92; 114]
  else if c =? 34 then [92; 34]
  else if c =? 92 then [92; 92]
  else if (c <? 32) || is_surrogate c then 92 :: 117 :: hex4 c
  else [c].

Definition quote (s : text) : text := 34 :: concat (map escape s) ++ [34].

(** [sep]-separated concatenation. *)
Fixpoint join (sep : N) (parts : list text) : text :=
  match parts with
  | [] => []
  | [p] => p
  | p :: rest => p ++ sep :: join sep rest
  end.

Fixpoint stringify (v : value) : text :=
  match v with
  | Null => [110; 117; 108; 108]
  | Bool true => [116; 114; 117; 101]
  | Bool false => [102; 97; 108; 115; 101]
  | Number n => number_text n
  | Str s => quote s
  | Array items => 91 :: join 44 (map stringify items) ++ [93]
  | Object fields =>
      123 :: join 44 (map (fun kv => quote (fst kv) ++ 58 :: stringify (snd kv)) fields)
          ++ [125]
  end.

(** *** Reading

    [None] stands for the [SyntaxError] of [JSON.parse].  White space
    between tokens is accepted; numbers with a fraction or an exponent,
    [-0] and escapes of surrogate pairs are outside what is written out
    here and are refused too. *)

Definition is_digit (c : N) : bool := (48 <=? c) && (c <=? 57).

Definition is_space (c : N) : bool :=
  (c =? 32) || (c =? 9) || (c =? 10) || (c =? 13).

Fixpoint skip_space (t : text) : text :=
  match t with
  | c :: rest => if is_space c then skip_space rest else t
  | [] => []
  end.

Fixpoint read_digits (t : text) (acc : N) : N * text :=
  match t with
  | c :: rest => if is_digit c then read_digits rest (acc * 10 + (c - 48)) else (acc, t)
  | [] => (acc, [])
  end.

(** The end of an integer: not the start of a fraction or an exponent. *)
Definition ends_number (t : text) : bool :=
  match t with
  | c :: _ => negb ((c =? 46) || (c =? 101) || (c =? 69))
  | [] => true
  end.

(** An unsigned integer without leading zeros. *)
Definition read_natural (t : text) : option (N * text) :=
  match t with
  | c :: rest =>
      if c =? 48 then
        match rest with
        | d :: _ => if is_digit d then None
                    else if ends_number rest then Some (0, rest) else None
        | [] => Some (0, [])
        end
      else if is_digit c then
        let '(n, rest') := read_digits t 0 in
        if ends_number rest' then Some (n, rest') else None
      else None
  | [] => None
  end.

Definition read_number (t : text) : option (Z * text) :=
  match t with
  | c :: rest =>
      if c =? 45 then
        match read_natural rest with
        | Some (0, _) => None
        | Some (n, rest') => Some (Z.opp (Z.of_N n), rest')
        | None => None
        end
      else
        match read_natural t with
        | Some (n, rest') => Some (Z.of_N n, rest')
        | None => None
        end
  | [] => None
  end.

Definition unhex (h : N) : option N :=
  if (48 <=? h) && (h <=? 57) then Some (h - 48)
  else if (97 <=? h) && (h <=? 102) then Some (h - 87)
  else if (65 <=? h) && (h <=? 70) then Some (h - 55)
  else None.

Definition unhex4 (h1 h2 h3 h4 : N) : option N :=
  match unhex h1, unhex h2, unhex h3, unhex h4 with
  | Some a, Some b, Some c, Some d => Some (a * 4096 + b * 256 + c * 16 + d)
  | _, _, _, _ => None
  end.

Definition unescape (e : N) : option N :=
  if e =? 34 then Some 34
  else if e =? 92 then Some 92
  else if e =? 47 then Some 47
  else if e =? 98 then Some 8
  else if e =? 102 then Some 12
  else if e =? 110 then Some 10
  else if e =? 114 then Some 13
  else if e =? 116 then Some 9
  else None.

(** The rest of a string literal, after the opening quote. *)
Fixpoint read_string (t : text) : option (text * text) :=
  match t with
  | [] => None
  | c :: rest =>
      if c =? 34 then Some ([], rest)
      else if c =? 92 then
        match rest with
        | [] => None
        | e :: rest1 =>
            if e =? 117 then
              match rest1 with
              | h1 :: h2 :: h3 :: h4 :: rest2 =>
                  match unhex4 h1 h2 h3 h4 with
                  | Some u =>
                      match read_string rest2 with
                      | Some (s, rest3) => Some (u :: s, rest3)
                      | None => None
                      end
                  | None => None
                  end
              | _ => None
              end
            else
              match unescape e with
              | Some u =>
                  match read_string rest1 with
                  | Some (s, rest3) => Some (u :: s, rest3)
                  | None => None
                  end
              | None => None
              end
        end
      else if c <? 32 then None
      else
        match read_string rest with
        | Some (s, rest') => Some (c :: s, rest')
        | None => None
        end
  end.

Fixpoint starts_with (prefix t : text) : option text :=
  match prefix, t with
  | [], _ => Some t
  | p :: prefix', c :: rest => if p =? c then starts_with prefix' rest else None
  | _ :: _, [] => None
  end.

(** A later member with the same key replaces the earlier one. *)
Fixpoint set_field (k : text) (v : value) (fields : list (text * value))
  : list (text * value) :=
  match fields with
  | [] => [(k, v)]
  | (k', v') :: rest =>
      if decide (k' = k) then (k', v) :: rest else (k', v') :: set_field k v rest
  end.

Definition make_object (members : list (text * value)) : value :=
  Object (fold_left (fun acc kv => set_field (fst kv) (snd kv) acc) members []).

Fixpoint read_value (fuel : nat) (t : text) : option (value * text) :=
  match fuel with
  | O => None
  | S fuel' =>
      match skip_space t with
      | [] => None
      | c :: rest =>
          if c =? 34 then
            match read_string rest with
            | Some (s, rest') => Some (Str s, rest')
            | None => None
            end
          else if c =? 91 then
            match skip_space rest with
            | c' :: rest' =>
                if c' =? 93 then Some (Array [], rest')
                else match read_elements fuel' rest with
                     | Some (items, rest'') => Some (Array items, rest'')
                     | None => None
                     end
            | [] => None
            end
          else if c =? 123 then
            match skip_space rest with
            | c' :: rest' =>
                if c' =? 125 then Some (Object [], rest')
                else match read_members fuel' rest with
                     | Some (members, rest'') => Some (make_object members, rest'')
                     | None => None
                     end
            | [] => None
            end
          else if c =? 110 then
            match starts_with [117; 108; 108] rest with
            | Some rest' => Some (Null, rest')
            | None => None
            end
          else if c =? 116 then
            match starts_with [114; 117; 101] rest with
            | Some rest' => Some (Bool true, rest')
            | None => None
            end
          else if c =? 102 then
            match starts_with [97; 108; 115; 101] rest with
            | Some rest' => Some (Bool false, rest')
            | None => None
            end
          else
            match read_number (c :: rest) with
            | Some (n, rest') => Some (Number n, rest')
            | None => None
            end
      end
  end
with read_elements (fuel : nat) (t : text) : option (list value * text) :=
  match fuel with
  | O => None
  | S fuel' =>
      match read_value fuel' t with
      | Some (v, rest) =>
          match skip_space rest with
          | c :: rest' =>
              if c =? 44 then
                match read_elements fuel' rest' with
                | Some (items, rest'') => Some (v :: items, rest'')
                | None => None
                end
              else if c =? 93 then Some ([v], rest')
              else None
          | [] => None
          end
      | None => None
      end
  end
with read_members (fuel : nat) (t : text) : option (list (text * value) * text) :=
  match fuel with
  | O => None
  | S fuel' =>
      match skip_space t with
      | q :: rest0 =>
          if q =? 34 then
            match read_string rest0 with
            | Some (k, rest1) =>
                match skip_space rest1 with
                | colon :: rest2 =>
                    if colon =? 58 then
                      match read_value fuel' rest2 with
                      | Some (v, rest3) =>
                          match skip_space rest3 with
                          | c :: rest4 =>
                              if c =? 44 then
                                match read_members fuel' rest4 with
                                | Some (members, rest5) => Some ((k, v) :: members, rest5)
                                | None => None
                                end
                              else if c =? 125 then Some ([(k, v)], rest4)
                              else None
                          | [] => None
                          end
                      | None => None
                      end
                    else None
                | [] => None
                end
            | None => None
            end
          else None
      | [] => None
      end
  end.

Definition parse (t : text) : option value :=
  match read_value (S (length t)) t with
  | Some (v, rest) =>
      match skip_space rest with
      | [] => Some v
      | _ :: _ => None
      end
  | None => None
  end.

(** What may follow a value inside a text: nothing, a comma or a closing
    bracket. *)
Definition is_delimited (t : text) : bool :=
  match t with
  | [] => true
  | c :: _ => (c =? 44) || (c =? 93) || (c =? 125)
  end.

(** The fuel that reading a value takes. *)
Fixpoint weight (v : value) : nat :=
  match v with
  | Array items => S (list_sum (map (fun x => S (weight x)) items))
  | Object fields => S (list_sum (map (fun kv => S (weight (snd kv))) fields))
  | _ => 1%nat
  end.

(** *** The values the round trip is stated for *)

(** A code point that is a character: not a surrogate, at most U+10FFFF. *)
Definition is_scalar (c : N) : bool := (c <? 0x110000) && negb (is_surrogate c).

Definition is_safe_integer (n : Z) : bool :=
  ((- 9007199254740991 <=? n) && (n <=? 9007199254740991))%Z.

(** Safe integers, strings of characters, and objects without a repeated
    key. *)
Fixpoint serializable (v : value) : bool :=
  match v with
  | Null | Bool _ => true
  | Number n => is_safe_integer n
  | Str s => forallb is_scalar s
  | Array items => forallb serializable items
  | Object fields =>
      forallb (fun kv => forallb is_scalar (fst kv) && serializable (snd kv)) fields
      && bool_decide (NoDup (map fst fields))
  end.

Close Scope N_scope.

End JSON.

(** [Buffer.from(string)] writes the string in UTF-8 and
    [buffer.toString()] reads UTF-8, one U+FFFD for each ill-formed part. *)
Module Buffer.

Open Scope N_scope.

Definition byte_of_N (n : N) : Byte.byte := default Byte.x00 (Byte.of_N n).

Definition encode (c : N) : list N :=
  if c <? 0x80 then [c]
  else if c <? 0x800 then [0xC0 + c / 64; 0x80 + c mod 64]
  else if JSON.is_surrogate c || (0x110000 <=? c) then [0xEF; 0xBF; 0xBD]
  else if c <? 0x10000 then
    [0xE0 + c / 4096; 0x80 + (c / 64) mod 64; 0x80 + c mod 64]
  else
    [0xF0 + c / 262144; 0x80 + (c / 4096) mod 64; 0x80 + (c / 64) mod 64;
     0x80 + c mod 64].

Definition from (s : JSON.text) : list Byte.byte :=
  map byte_of_N (concat (map encode s)).

(** The decoder is between characters or inside one: the bits read so far,
    the number of bytes still to come and the range allowed for the next
    byte. *)
Inductive state :=
| Idle
| Need (bits : N) (more : nat) (lower upper : N).

Definition start (b : N) : list N * state :=
  if b <? 0x80 then ([b], Idle)
  else if (0xC2 <=? b) && (b <=? 0xDF) then ([], Need (b - 0xC0) 0 0x80 0xBF)
  else if (0xE0 <=? b) && (b <=? 0xEF) then
    ([], Need (b - 0xE0) 1 (if b =? 0xE0 then 0xA0 else 0x80)
                          (if b =? 0xED then 0x9F else 0xBF))
  else if (0xF0 <=? b) && (b <=? 0xF4) then
    ([], Need (b - 0xF0) 2 (if b =? 0xF0 then 0x90 else 0x80)
                          (if b =? 0xF4 then 0x8F else 0xBF))
  else ([0xFFFD], Idle).

Definition step (st : state) (b : N) : list N * state :=
  match st with
  | Idle => start b
  | Need bits more lower upper =>
      if (lower <=? b) && (b <=? upper) then
        let bits' := bits * 64 + (b - 0x80) in
        match more with
        | O => ([bits'], Idle)
        | S more' => ([], Need bits' more' 0x80 0xBF)
        end
      else
        let '(out, st') := start b in (0xFFFD :: out, st')
  end.

Fixpoint decode (st : state) (bytes : list N) : JSON.text :=
  match bytes with
  | [] => match st with Idle => [] | Need _ _ _ _ => [0xFFFD] end
  | b :: rest => let '(out, st') := step st b in out ++ decode st' rest
  end.

Definition toString (buffer : list Byte.byte) : JSON.text :=
  decode Idle (map Byte.to_N buffer).

Close Scope N_scope.

End Buffer.

(** ** Values that cross the module boundary *)

(** The broker library's error objects, by the text that ['' + err] gives. *)
Definition BrokerError := string.

(** A channel variable of the code holds a channel object or [undefined].
    Two channel objects are the same object when their numbers agree. *)
Inductive Value :=
| VUndefined
| VChannel (ch : nat).

Global Instance Value_eq_dec : EqDecision Value.
Proof. solve_decision. Defined.

(** The options argument of the library calls: [undefined] or an object. *)
Inductive OptionsArg :=
| NoOptions
| OptionsObject (fields : list (string * string)).

(** [opts.connection] of the configuration. *)
Record ConnectionDescriptor := {
  protocol : string;
  hostname : string;
  port : string
}.

(** The first argument of [amqp.connect]. *)
Inductive ConnectTarget :=
| ByDescriptor (d : ConnectionDescriptor)
| ByUrl (url : string).

(** A raw delivery as the library hands it to a consumer: the payload bytes
    and the delivery tag used to acknowledge it. *)
Module Delivery.
Record t := { content : list Byte.byte; deliveryTag : nat }.
End Delivery.

(** A double quote, for the messages that contain one. *)
Definition dquote : string := String (Ascii.ascii_of_nat 34) EmptyString.

(** Exceptions of the code: [new Error(message)], the built-in errors the
    run time raises, and a broker error object passed on as it is. *)
Inductive Exn :=
| Error (message : string)
| ReferenceError (message : string)
| TypeError (message : string)
| SyntaxError (message : string)
| Raised (err : BrokerError).

(** ['' + err] for a caught value. *)
Definition to_string (e : Exn) : string :=
  match e with
  | Error m => "Error: " +:+ m
  | ReferenceError m => "ReferenceError: " +:+ m
  | TypeError m => "TypeError: " +:+ m
  | SyntaxError m => "SyntaxError: " +:+ m
  | Raised err => err
  end.

(** ** Answers of the broker library *)

(** What the library passes to a node-style callback [(err, result)]. *)
Inductive Reply :=
| Failure (err : BrokerError)
| Connected (conn : nat)
| Opened (ch : nat)
| Ok (info : string).

(** The [err] parameter of a callback: [None] is a falsy [err]. *)
Definition reply_err (r : Reply) : option BrokerError :=
  match r with Failure err => Some err | _ => None end.

(** The [ch] parameter of the callback of [createConfirmChannel]. *)
Definition reply_channel (r : Reply) : Value :=
  match r with Opened ch => VChannel ch | _ => VUndefined end.

(** The [conn] parameter of the callback of [amqp.connect]. *)
Definition reply_connection (r : Reply) : option nat :=
  match r with Connected conn => Some conn | _ => None end.

(** [util.inspect] of the result parameter. *)
Definition inspect (r : Reply) : string :=
  match r with
  | Ok info => info
  | Connected conn => "Connection#" +:+ pretty conn
  | Opened ch => "Channel#" +:+ pretty ch
  | Failure _ => "undefined"
  end.

(** Arguments seen by a caller-supplied callback. *)
Inductive Arg :=
| AUndefined
| ANull
| AError (e : Exn)
| AChannel (ch : nat)
| AConnection (conn : nat)
| AInfo (info : string).

Definition err_arg (r : Reply) : Arg :=
  match r with Failure err => AError (Raised err) | _ => ANull end.

Definition result_arg (r : Reply) : Arg :=
  match r with
  | Failure _ => AUndefined
  | Connected conn => AConnection conn
  | Opened ch => AChannel ch
  | Ok info => AInfo info
  end.

Definition value_arg (v : Value) : Arg :=
  match v with VUndefined => AUndefined | VChannel ch => AChannel ch end.

(** A caller-supplied callback, by name; what it does is the caller's. *)
Definition Callback := string.

(** ** [class ZeroRabbitMsg] *)

Module ZeroRabbitMsg.

Record t := { content : JSON.value; msg : Delivery.t }.

(** [new ZeroRabbitMsg(msg)]; [None] is a call without argument. *)
Definition new (msg : option Delivery.t) : Exn + t :=
  match msg with
  | None => inl (TypeError "Cannot read properties of undefined (reading 'content')")
  | Some m =>
      match JSON.parse (Buffer.toString (Delivery.content m)) with
      | Some v => inr {| content := v; msg := m |}
      | None => inl (SyntaxError "Unexpected token in JSON")
      end
  end.

Definition getJsonMsg (message : t) : JSON.value := content message.

Definition getMsg (message : t) : Delivery.t := msg message.

End ZeroRabbitMsg.

(** ** The object state *)

Record ZeroRabbit := {
  rabbitConn : option nat;
  channels : gmap string Value;
  consumerTags : gmap string (option string)
}.

(** [new ZeroRabbit()]. *)
Definition new_ZeroRabbit : ZeroRabbit :=
  {| rabbitConn := None; channels := ∅; consumerTags := ∅ |}.

(** [Map.prototype.get]: [undefined] for a missing key, else the stored
    value, which may itself be [undefined]. *)
Definition Map_get (m : gmap string Value) (key : string) : Value :=
  default VUndefined (m !! key).

(** ** Effect trees *)

(** How a promise ends. *)
Inductive Settlement :=
| Fulfilled (v : Value)
| Rejected (e : Exn).

(** The calls into the broker library, the synchronous calls that leave
    the module, and the body of a function as the tree of what it does.
    [Consume] carries the function that the library is to call with every
    delivery, which is such a body itself.

    An [Effect] is a line for [debug], a caller-supplied callback called
    with [(err, result)] or with a message, or a library call that takes no
    callback.

    In a body,
    - [Request c cb k] is a library call that takes a node-style callback;
      the call returns at once and [k] goes on, [cb] runs when the broker
      answers.
    - [Await c cb k] is [await new Promise(executor)] where the executor
      makes the library call [c] with callback [cb]; [cb] settles the
      promise with [Resolve] and [Reject] (the first one wins), and the
      function is suspended until then.
    - [Fork m k] is a call of the async function [m] whose promise is not
      awaited (a [.then] callback, when there is one, is sequenced into
      [m]): [m] runs up to its first suspension, then [k] goes on. *)
Inductive BrokerCall :=
| Connect (target : ConnectTarget)
| CreateConfirmChannel (conn : nat)
| AssertExchange (ch : nat) (exName type : string) (options : OptionsArg)
| AssertQueue (ch : nat) (qName : string) (options : OptionsArg)
| BindQueue (ch : nat) (qName exName key : string) (options : OptionsArg)
| DeleteQueue (ch : nat) (qName : string) (options : OptionsArg)
| Consume (ch : nat) (qName : string) (onMessage : Delivery.t -> Async)
          (options : OptionsArg)
| Prefetch (ch : nat) (count : nat)
| Publish (ch : nat) (exName routingKey : string) (payload : list Byte.byte)
          (options : OptionsArg)
| Ack (ch : nat) (msg : Delivery.t) (allUpTo : bool)
| AckAll (ch : nat)
| Nack (ch : nat) (msg : Delivery.t) (allUpTo requeue : bool)
| NackAll (ch : nat) (requeue : bool)
| Close (ch : nat)
| Cancel (ch : nat) (consumerTag : option string)
with Effect :=
| Debug (line : string)
| Invoke (callback : Callback) (err result : Arg)
| Hand (callback : Callback) (message : ZeroRabbitMsg.t)
| Call (c : BrokerCall)
with Async :=
| Ret (v : Value)
| Throw (e : Exn)
| Read (k : ZeroRabbit -> Async)
| Write (s : ZeroRabbit) (k : Async)
| Emit (ev : Effect) (k : Async)
| Request (c : BrokerCall) (cb : Reply -> Async) (k : Async)
| Await (c : BrokerCall) (cb : Reply -> Async) (k : Settlement -> Async)
| Resolve (v : Value) (k : Async)
| Reject (e : Exn) (k : Async)
| Fork (m : Async) (k : Async).

(** Sequencing: [await m] inside an async function, or a plain call. *)
Fixpoint bind (m : Async) (f : Value -> Async) : Async :=
  match m with
  | Ret v => f v
  | Throw e => Throw e
  | Read k => Read (fun s => bind (k s) f)
  | Write s k => Write s (bind k f)
  | Emit ev k => Emit ev (bind k f)
  | Request c cb k => Request c cb (bind k f)
  | Await c cb k => Await c cb (fun s => bind (k s) f)
  | Resolve v k => Resolve v (bind k f)
  | Reject e k => Reject e (bind k f)
  | Fork m' k => Fork m' (bind k f)
  end.

(** [promise.catch(h)] under an [await], and [try { m } catch (e) { h e }]. *)
Fixpoint try_catch (m : Async) (h : Exn -> Async) : Async :=
  match m with
  | Ret v => Ret v
  | Throw e => h e
  | Read k => Read (fun s => try_catch (k s) h)
  | Write s k => Write s (try_catch k h)
  | Emit ev k => Emit ev (try_catch k h)
  | Request c cb k => Request c cb (try_catch k h)
  | Await c cb k => Await c cb (fun s => try_catch (k s) h)
  | Resolve v k => Resolve v (try_catch k h)
  | Reject e k => Reject e (try_catch k h)
  | Fork m' k => Fork m' (try_catch k h)
  end.

Declare Scope async_scope.
Delimit Scope async_scope with async.
Notation "'let!' x ':=' m 'in' k" := (bind m (fun x => k))
  (at level 10, x name, m at level 100, k at level 200) : async_scope.
Notation "m >> k" := (bind m (fun _ => k))
  (at level 100, k at level 200, right associativity) : async_scope.
Open Scope async_scope.

Definition skip : Async := Ret VUndefined.
Definition debug (line : string) : Async := Emit (Debug line) skip.
Definition invoke (callback : Callback) (err result : Arg) : Async :=
  Emit (Invoke callback err result) skip.
Definition call (c : BrokerCall) : Async := Emit (Call c) skip.

(** [await p] for the promise made by [Await]. *)
Definition settled (s : Settlement) : Async :=
  match s with Fulfilled v => Ret v | Rejected e => Throw e end.

(** The statement [m(...);] for an async function. *)
Definition spawn (m : Async) : Async := Fork m skip.

(** ** The event loop *)

(** Node runs one piece of code at a time, to its end or to its next wait.
    The model keeps the turns in which something arrives from the broker:
    [exec] runs a tree until it returns, throws, or waits for the broker,
    and [deliver] is the turn in which the library calls back for one
    request.  It is coarser than JavaScript in three places:
    - the promises of [createConfirmChannelPromise] settle in the library's
      callback, and the function that awaits one goes on in the turn of that
      callback rather than in a microtask after it;
    - an [await] on a promise that is settled already goes on at once, where
      JavaScript lets the code that is running finish first.  This changes
      the order of effects only between two async functions started without
      waiting for each other, from the point where one of them awaits
      something settled; the statements below about two calls at once are
      about calls that both wait for the broker first;
    - an exception that leaves a library callback is logged as [Uncaught]
      and the run goes on; what the process does then (Node ends it unless
      a handler is installed) is outside this module. *)

Inductive Handler :=
| OnReply (cb : Reply -> Async)
| OnSettle (cb : Reply -> Async) (k : Settlement -> Async).

(** What can be seen from outside, in the order it happens: an effect, a
    request handed to the library, the library calling back, an exception
    that leaves a library callback, and the end of the promise of an async
    function that nobody awaits (a rejection is an unhandled one). *)
Inductive Event :=
| Did (ev : Effect)
| Issued (id : nat) (c : BrokerCall)
| Replied (id : nat) (r : Reply)
| Uncaught (e : Exn)
| Settled (s : Settlement).

(** A configuration: the object, the requests the broker has not answered
    yet with the code waiting for each, the number of the next request, what
    has happened so far (oldest first), and the state of the promise whose
    executor callback is running. *)
Record Config := {
  this : ZeroRabbit;
  inflight : list (nat * BrokerCall * Handler);
  next_id : nat;
  trace : list Event;
  promise : option Settlement
}.

Definition boot (s : ZeroRabbit) : Config :=
  {| this := s; inflight := []; next_id := 0; trace := []; promise := None |}.

Definition set_this (s : ZeroRabbit) (c : Config) : Config :=
  {| this := s; inflight := inflight c; next_id := next_id c;
     trace := trace c; promise := promise c |}.

Definition log (e : Event) (c : Config) : Config :=
  {| this := this c; inflight := inflight c; next_id := next_id c;
     trace := trace c ++ [e]; promise := promise c |}.

Definition issue (call : BrokerCall) (h : Handler) (c : Config) : Config :=
  {| this := this c; inflight := inflight c ++ [(next_id c, call, h)];
     next_id := S (next_id c);
     trace := trace c ++ [Issued (next_id c) call]; promise := promise c |}.

(** [resolve] and [reject] do nothing on a promise that is settled. *)
Definition settle (s : Settlement) (c : Config) : Config :=
  {| this := this c; inflight := inflight c; next_id := next_id c;
     trace := trace c;
     promise := match promise c with Some s0 => Some s0 | None => Some s end |}.

Definition set_promise (p : option Settlement) (c : Config) : Config :=
  {| this := this c; inflight := inflight c; next_id := next_id c;
     trace := trace c; promise := p |}.

Definition set_inflight (l : list (nat * BrokerCall * Handler)) (c : Config) : Config :=
  {| this := this c; inflight := l; next_id := next_id c;
     trace := trace c; promise := promise c |}.

(** How a piece of code hands control back. *)
Inductive Outcome :=
| Returned (v : Value)
| Thrown (e : Exn)
| Suspended.

(** The end of a library callback: an exception leaves it uncaught. *)
Definition escape (r : Config * Outcome) : Config :=
  match r with
  | (c, Thrown e) => log (Uncaught e) c
  | (c, _) => c
  end.

(** The end of an async function that nobody awaits: its promise settles,
    unless the function is suspended. *)
Definition conclude (r : Config * Outcome) : Config :=
  match r with
  | (c, Returned v) => log (Settled (Fulfilled v)) c
  | (c, Thrown e) => log (Settled (Rejected e)) c
  | (c, Suspended) => c
  end.

(** Runs a tree until it returns, throws or suspends. *)
Fixpoint exec (m : Async) (c : Config) : Config * Outcome :=
  match m with
  | Ret v => (c, Returned v)
  | Throw e => (c, Thrown e)
  | Read k => exec (k (this c)) c
  | Write s k => exec k (set_this s c)
  | Emit ev k => exec k (log (Did ev) c)
  | Request b cb k => exec k (issue b (OnReply cb) c)
  | Await b cb k => (issue b (OnSettle cb k) c, Suspended)
  | Resolve v k => exec k (settle (Fulfilled v) c)
  | Reject e k => exec k (settle (Rejected e) c)
  | Fork m' k => exec k (conclude (exec m' c))
  end.

(** What the broker decides for a request. *)
Inductive BrokerOutcome :=
| Fails (err : BrokerError)
| Succeeds (info : string).

(** The callback arguments for a decision.  A connection or channel made by
    request [id] is the object number [id], so each request that succeeds
    makes a new object. *)
Definition reply_of (b : BrokerCall) (id : nat) (o : BrokerOutcome) : Reply :=
  match o with
  | Fails err => Failure err
  | Succeeds info =>
      match b with
      | Connect _ => Connected id
      | CreateConfirmChannel _ => Opened id
      | _ => Ok info
      end
  end.

Fixpoint take (id : nat) (l : list (nat * BrokerCall * Handler))
  : option (BrokerCall * Handler * list (nat * BrokerCall * Handler)) :=
  match l with
  | [] => None
  | (i, b, h) :: rest =>
      if Nat.eqb i id then Some (b, h, rest)
      else match take id rest with
           | Some (b', h', rest') => Some (b', h', (i, b, h) :: rest')
           | None => None
           end
  end.

(** One turn of the event loop: the broker answers request [id].  The
    callback runs to its end; when it has settled the promise of an [Await],
    the suspended function goes on in the same turn. *)
Definition deliver (id : nat) (o : BrokerOutcome) (c : Config) : option Config :=
  match take id (inflight c) with
  | None => None
  | Some (b, h, rest) =>
      let r := reply_of b id o in
      let c0 := log (Replied id r) (set_inflight rest c) in
      match h with
      | OnReply cb => Some (escape (exec (cb r) c0))
      | OnSettle cb k =>
          let c1 := escape (exec (cb r) (set_promise None c0)) in
          match promise c1 with
          | Some s => Some (conclude (exec (k s) (set_promise None c1)))
          | None => Some c1
          end
      end
  end.

(** A schedule lists the broker's answers in the order they arrive; an
    answer to a request that is not outstanding is ignored. *)
Fixpoint run (schedule : list (nat * BrokerOutcome)) (c : Config) : Config :=
  match schedule with
  | [] => c
  | (id, o) :: rest =>
      run rest (match deliver id o c with Some c' => c' | None => c end)
  end.

(** The library calls made so far, oldest first. *)
Definition broker_calls (t : list Event) : list BrokerCall :=
  omap (fun e => match e with
                 | Issued _ b => Some b
                 | Did (Call b) => Some b
                 | _ => None
                 end) t.

(** The requests still waiting for the broker's answer. *)
Definition outstanding (c : Config) : list BrokerCall :=
  map (fun x => snd (fst x)) (inflight c).

(** *** Deliveries

    A consumer is the function given to [ch.consume]; the library calls it
    with every message of the queue once the broker has confirmed the
    consumer.  An exception leaves that function uncaught. *)

(** The call made by request [id]. *)
Fixpoint issued (t : list Event) (id : nat) : option BrokerCall :=
  match t with
  | [] => None
  | Issued i b :: t' => if Nat.eqb i id then Some b else issued t' id
  | _ :: t' => issued t' id
  end.

(** Request [id] has been answered without an error. *)
Definition confirmed (t : list Event) (id : nat) : bool :=
  existsb (fun e => match e with
                    | Replied i (Ok _) => Nat.eqb i id
                    | _ => false
                    end) t.

(** The broker delivers [msg] to the consumer made by request [id]. *)
Definition hand_over (id : nat) (msg : Delivery.t) (c : Config) : option Config :=
  match issued (trace c) id with
  | Some (Consume _ _ onMessage _) =>
      if confirmed (trace c) id then Some (escape (exec (onMessage msg) c)) else None
  | _ => None
  end.

(** ** The configuration object *)

Module Exchange.
Record t := { channel : string; name : string; type : string; options : OptionsArg }.
End Exchange.

Module Queue.
Record t := { channel : string; name : string; options : OptionsArg }.
End Queue.

Module Binding.
Record t := { channel : string; queue : string; exchange : string; key : string;
              options : OptionsArg }.
End Binding.

(** [opts]: a field that is [None] is missing. *)
Module Opts.
Record t := {
  connection : option ConnectionDescriptor;
  url : option string;
  exchanges : option (list Exchange.t);
  queues : option (list Queue.t);
  bindings : option (list Binding.t)
}.
End Opts.

(** The empty string is falsy, an object is truthy. *)
Definition truthy_string (s : option string) : bool :=
  match s with
  | Some s => negb (bool_decide (s = EmptyString))
  | None => false
  end.

Definition options_text (options : OptionsArg) : string :=
  match options with
  | NoOptions => "undefined"
  | OptionsObject _ => "[object Object]"
  end.

(** [util.inspect(options)]. *)
Definition inspect_options (options : OptionsArg) : string :=
  match options with
  | NoOptions => "undefined"
  | OptionsObject [] => "{}"
  | OptionsObject fields =>
      "{ " +:+ String.concat ", " (map (fun kv => fst kv +:+ ": " +:+ snd kv) fields) +:+ " }"
  end.

(** ** [index.js] *)

Section AsyncForEach.
Context {A : Type}.
Variable array : list A.
Variable callback : A -> nat -> list A -> Async.

(** The loop from [index] on, [rest] being the entries from there. *)
Fixpoint asyncForEach_from (index : nat) (rest : list A) : Async :=
  match rest with
  | [] => skip
  | x :: rest' => callback x index array >> asyncForEach_from (S index) rest'
  end.
End AsyncForEach.

Definition asyncForEach {A : Type} (array : list A)
    (callback : A -> nat -> list A -> Async) : Async :=
  asyncForEach_from array callback 0 array.

(** A method call [ch.method(...)]. *)
Definition on_channel (ch : Value) (method : string) (k : nat -> Async) : Async :=
  match ch with
  | VChannel c => k c
  | VUndefined =>
      Throw (TypeError ("Cannot read properties of undefined (reading '" +:+ method +:+ "')"))
  end.

Definition setChannel (channelName : string) (ch : Value) : Async :=
  Read (fun s =>
    Write {| rabbitConn := rabbitConn s;
             channels := <[channelName := ch]> (channels s);
             consumerTags := consumerTags s |} skip).

(** The callback [(err, ch) => ...] given to [createConfirmChannel]. *)
Definition createConfirmChannel_callback (channelName : string) (r : Reply) : Async :=
  (match reply_err r with
   | Some err => Reject (Raised err) skip
   | None => skip
   end) >>
  setChannel channelName (reply_channel r) >>
  Resolve (reply_channel r) skip.

Definition createConfirmChannelPromise (channelName : string) : Async :=
  Read (fun s =>
    match rabbitConn s with
    | None =>
        Throw (TypeError
          "Cannot read properties of undefined (reading 'createConfirmChannel')")
    | Some conn =>
        Await (CreateConfirmChannel conn) (createConfirmChannel_callback channelName)
              settled
    end).

Definition getChannel (channelName : string) (callback : option Callback) : Async :=
  Read (fun s =>
    let ch := Map_get (channels s) channelName in
    if decide (ch = VUndefined) then
      let! ch := try_catch (createConfirmChannelPromise channelName)
                   (fun err =>
                      match callback with
                      | Some cb => invoke cb (AError err) AUndefined
                      | None => Throw (Error ("Error creating channel: " +:+ to_string err))
                      end) in
      match callback with
      | Some cb => invoke cb AUndefined (value_arg ch)
      | None => debug ("Created confirm channel: " +:+ channelName) >> Ret ch
      end
    else
      match callback with
      | Some cb => invoke cb AUndefined (value_arg ch)
      | None => debug "Retrieved confirm channel from this.channels" >> Ret ch
      end).

(** The callback [(err, ex) => ...] given to [ch.assertExchange]. *)
Definition assertExchange_callback (channelName : string) (callback : option Callback)
    (r : Reply) : Async :=
  match callback with
  | Some cb => invoke cb (err_arg r) (result_arg r)
  | None =>
      match reply_err r with
      | Some err => Throw (Error ("Error in assertExchange(): " +:+ err))
      | None =>
          let exInfo := inspect r in
          debug ("assertExchange on channel " +:+ channelName +:+ ": " +:+ exInfo)
      end
  end.

Definition assertExchange (channelName exName type : string) (options : OptionsArg)
    (callback : option Callback) : Async :=
  let! ch := getChannel channelName None in
  on_channel ch "assertExchange" (fun c =>
    Request (AssertExchange c exName type options)
            (assertExchange_callback channelName callback) skip).

(** The callback [(err, q) => ...] given to [ch.assertQueue]. *)
Definition assertQueue_callback (channelName : string) (callback : option Callback)
    (r : Reply) : Async :=
  match callback with
  | Some cb => invoke cb (err_arg r) (result_arg r)
  | None =>
      match reply_err r with
      | Some err => Throw (Error ("Error in ZeroRabbit.assertQueue(): " +:+ err))
      | None =>
          let qInfo := inspect r in
          debug ("assertQueue on channel " +:+ channelName +:+ ": " +:+ qInfo)
      end
  end.

Definition assertQueue (channelName qName : string) (options : OptionsArg)
    (callback : option Callback) : Async :=
  let! ch := getChannel channelName None in
  on_channel ch "assertQueue" (fun c =>
    Request (AssertQueue c qName options)
            (assertQueue_callback channelName callback) skip).

(** The callback [(err, ok) => ...] given to [ch.bindQueue]. *)
Definition bindQueue_callback (channelName qName exName key : string)
    (options : OptionsArg) (callback : option Callback) (r : Reply) : Async :=
  match callback with
  | Some cb => invoke cb (err_arg r) (result_arg r)
  | None =>
      match reply_err r with
      | Some err => Throw (Error ("Error in RabbitMQ.bindQueue(): " +:+ err))
      | None =>
          debug ("Bind queue: " +:+ qName +:+ " to " +:+ exName +:+ " on channel "
                 +:+ channelName) >>
          debug ("Bound " +:+ qName +:+ " with key: " +:+ key) >>
          debug ("Bound " +:+ qName +:+ " with options: " +:+ options_text options)
      end
  end.

Definition bindQueue (channelName qName exName key : string) (options : OptionsArg)
    (callback : option Callback) : Async :=
  let! ch := getChannel channelName None in
  on_channel ch "bindQueue" (fun c =>
    Request (BindQueue c qName exName key options)
            (bindQueue_callback channelName qName exName key options callback) skip).

Definition deleteQueue (channelName qName : string) (options : OptionsArg)
    (callback : option Callback) : Async :=
  let! ch := getChannel channelName None in
  on_channel ch "deleteQueue" (fun c =>
    Request (DeleteQueue c qName options)
      (fun r =>
         match callback with
         | Some cb => invoke cb (err_arg r) (result_arg r)
         | None =>
             match reply_err r with
             | Some err => Throw (Error ("Error deleting queue: " +:+ err))
             | None =>
                 debug ("Deleted queue " +:+ qName +:+ " on channel " +:+ channelName) >>
                 debug ("Deleted queue with options " +:+ options_text options)
             end
         end)
      skip).

Definition setupTopology (opts : Opts.t) : Async :=
  (match Opts.exchanges opts with
   | Some l =>
       asyncForEach l (fun exchange _ _ =>
         assertExchange (Exchange.channel exchange) (Exchange.name exchange)
                        (Exchange.type exchange) (Exchange.options exchange) None)
   | None => skip
   end) >>
  (match Opts.queues opts with
   | Some l =>
       asyncForEach l (fun queue _ _ =>
         assertQueue (Queue.channel queue) (Queue.name queue) (Queue.options queue) None)
   | None => skip
   end) >>
  (match Opts.bindings opts with
   | Some l =>
       asyncForEach l (fun binding _ _ =>
         bindQueue (Binding.channel binding) (Binding.queue binding)
                   (Binding.exchange binding) (Binding.key binding)
                   (Binding.options binding) None)
   | None => skip
   end).

(** An identifier that is read: the bindings in scope that may hold a
    callback are listed in [env]; a name that is bound nowhere raises. *)
Definition identifier (env : list (string * option Callback)) (x : string)
    (k : option Callback -> Async) : Async :=
  match list_find (fun b => fst b = x) env with
  | Some (_, (_, v)) => k v
  | None => Throw (ReferenceError (x +:+ " is not defined"))
  end.

(** [opts.connection] and [opts.url] as conditions. *)
Definition supplies_connection (opts : Opts.t) : bool :=
  bool_decide (is_Some (Opts.connection opts)).

Definition supplies_url (opts : Opts.t) : bool := truthy_string (Opts.url opts).

Definition both_supplied : Exn :=
  Error ("Config must include one of " +:+ dquote +:+ "connection" +:+ dquote
         +:+ " or " +:+ dquote +:+ "url" +:+ dquote +:+ ", but not both!").

Definition none_supplied : Exn :=
  Error (dquote +:+ "connection" +:+ dquote +:+ " or " +:+ dquote +:+ "url"
         +:+ dquote +:+ " not found in configuration: please include one!").

Definition connect (opts : Opts.t) (callback : option Callback) : Async :=
  if supplies_connection opts && supplies_url opts then Throw both_supplied
  else
    let target :=
      match Opts.connection opts with
      | Some d => Some (ByDescriptor d)
      | None => if supplies_url opts then ByUrl <$> Opts.url opts else None
      end in
    match target with
    | None => Throw none_supplied
    | Some connection =>
        Request (Connect connection)
          (fun r =>
             match reply_err r with
             | Some err =>
                 identifier [("callback", callback)] "cb" (fun cb =>
                   match cb with
                   | Some cb => invoke cb (AError (Raised err)) AUndefined
                   | None => Throw (Error ("Error creating connection: " +:+ err))
                   end)
             | None =>
                 (match Opts.connection opts with
                  | Some d =>
                      debug ("Connected to RabbitMQ: " +:+ protocol d +:+ "://"
                             +:+ hostname d +:+ ":" +:+ port d)
                  | None =>
                      debug ("Connected to RabbitMQ: " +:+ default "undefined" (Opts.url opts))
                  end) >>
                 Read (fun s =>
                   Write {| rabbitConn := reply_connection r;
                            channels := channels s;
                            consumerTags := consumerTags s |}
                     (spawn
                        (setupTopology opts >>
                         Read (fun s' =>
                           debug ("Channels opened: " +:+ pretty (size (channels s'))) >>
                           match callback with
                           | Some cb => invoke cb (err_arg r) (result_arg r)
                           | None => skip
                           end))))
             end)
          skip
    end.

Definition setChannelPrefetch (channelName : string) (prefetch : nat) : Async :=
  let! ch := getChannel channelName None in
  on_channel ch "prefetch" (fun c => call (Prefetch c prefetch)).

(** [routingKey || ''] and [options || {}]. *)
Definition or_empty (routingKey : option string) : string :=
  if truthy_string routingKey then default EmptyString routingKey else EmptyString.

Definition or_object (options : OptionsArg) : OptionsArg :=
  match options with
  | NoOptions => OptionsObject []
  | OptionsObject fields => OptionsObject fields
  end.

Definition publish (channelName exName : string) (JsonMessage : JSON.value)
    (routingKey : option string) (options : OptionsArg) : Async :=
  let msg := JSON.stringify JsonMessage in
  let! ch := getChannel channelName None in
  on_channel ch "publish" (fun c =>
    call (Publish c exName (or_empty routingKey) (Buffer.from msg) (or_object options))).

(** The function that [consume] gives to the library for the deliveries. *)
Definition consume_onMessage (callback : Callback) (msg : Delivery.t) : Async :=
  match ZeroRabbitMsg.new (Some msg) with
  | inl e => Throw e
  | inr message => Emit (Hand callback message) skip
  end.

Definition consume (channelName qName : string) (options : OptionsArg)
    (callback : Callback) : Async :=
  let! ch := getChannel channelName None in
  let optionsMsg := inspect_options options in
  debug ("Listenting on channel " +:+ channelName +:+ " to: " +:+ qName
         +:+ " with options: " +:+ optionsMsg) >>
  on_channel ch "consume" (fun c =>
    Request (Consume c qName (consume_onMessage callback) options)
      (fun r =>
         match reply_err r with
         | Some err => Throw (Error err)
         | None =>
             let consumerTag := match r with Ok tag => Some tag | _ => None end in
             Read (fun s =>
               Write {| rabbitConn := rabbitConn s;
                        channels := channels s;
                        consumerTags := <[channelName := consumerTag]> (consumerTags s) |}
                     skip)
         end)
      skip).

Definition channel_not_found : Exn :=
  Error "Channel was not found!, check your spelling, was the channel created?".

Definition checkChannelExists (ch : Value) : Async :=
  if decide (ch = VUndefined) then Throw channel_not_found else skip.

Definition ack (channelName : string) (message : ZeroRabbitMsg.t) (allUpTo : option bool)
    : Async :=
  let allUpTo := default false allUpTo in
  let msg := ZeroRabbitMsg.getMsg message in
  Read (fun s =>
    let ch := Map_get (channels s) channelName in
    checkChannelExists ch >>
    on_channel ch "ack" (fun c => call (Ack c msg allUpTo))).

Definition ackAll (channelName : string) : Async :=
  Read (fun s =>
    let ch := Map_get (channels s) channelName in
    checkChannelExists ch >>
    on_channel ch "ackAll" (fun c => call (AckAll c))).

Definition nack (channelName : string) (message : ZeroRabbitMsg.t)
    (allUpTo requeue : option bool) : Async :=
  let allUpTo := default false allUpTo in
  let requeue := default true requeue in
  let msg := ZeroRabbitMsg.getMsg message in
  Read (fun s =>
    let ch := Map_get (channels s) channelName in
    checkChannelExists ch >>
    on_channel ch "nack" (fun c => call (Nack c msg allUpTo requeue))).

Definition nackAll (channelName : string) (requeue : option bool) : Async :=
  let requeue := default true requeue in
  Read (fun s =>
    let ch := Map_get (channels s) channelName in
    checkChannelExists ch >>
    on_channel ch "nackAll" (fun c => call (NackAll c requeue))).

Definition closeChannel (channelName : string) : Async :=
  Read (fun s =>
    let ch := Map_get (channels s) channelName in
    checkChannelExists ch >>
    on_channel ch "close" (fun c =>
      call (Close c) >>
      Read (fun s' =>
        Write {| rabbitConn := rabbitConn s';
                 channels := delete channelName (channels s');
                 consumerTags := consumerTags s' |} skip))).

Definition cancelChannel (channelName : string) : Async :=
  Read (fun s =>
    let consumerTag := mjoin (consumerTags s !! channelName) in
    let ch := Map_get (channels s) channelName in
    checkChannelExists ch >>
    on_channel ch "cancel" (fun c => call (Cancel c consumerTag))).

(** ** The functions the module exports

    They act on the one object [zeroRabbit]; an argument that is [None] is
    left out and takes its default.  The promise of an async method is
    dropped. *)

Module exports.

Definition connect (opts : Opts.t) (callback : option Callback) : Async :=
  connect opts callback.

Definition consume (channelName qName : option string) (options : OptionsArg)
    (callback : Callback) : Async :=
  spawn (consume (default "default" channelName) (default "default.q" qName)
                 (or_object options) callback).

Definition publish (channelName exName : option string) (JsonMessage : option JSON.value)
    (routingKey : option string) (options : OptionsArg) : Async :=
  spawn (publish (default "default" channelName) (default "default.ex" exName)
                 (default (JSON.Object []) JsonMessage)
                 (Some (default EmptyString routingKey)) (or_object options)).

(** The default of [message] is [new ZeroRabbitMsg()], which raises. *)
Definition ack (channelName : option string) (message : option ZeroRabbitMsg.t)
    (allUpTo : option bool) : Async :=
  match message with
  | Some m => ack (default "default" channelName) m (Some (default false allUpTo))
  | None =>
      match ZeroRabbitMsg.new None with
      | inl e => Throw e
      | inr m => ack (default "default" channelName) m (Some (default false allUpTo))
      end
  end.

Definition ackAll (channelName : option string) : Async :=
  ackAll (default "default" channelName).

Definition nack (channelName : option string) (message : option ZeroRabbitMsg.t)
    (allUpTo requeue : option bool) : Async :=
  match message with
  | Some m =>
      nack (default "default" channelName) m (Some (default false allUpTo))
           (Some (default true requeue))
  | None =>
      match ZeroRabbitMsg.new None with
      | inl e => Throw e
      | inr m =>
          nack (default "default" channelName) m (Some (default false allUpTo))
               (Some (default true requeue))
      end
  end.

Definition nackAll (channelName : option string) (requeue : option bool) : Async :=
  nackAll (default "default" channelName) (Some (default true requeue)).

Definition setChannelPrefetch (channelName : option string) (prefetch : option nat)
    : Async :=
  spawn (setChannelPrefetch (default "default" channelName) (default 1 prefetch)).

Definition assertQueue (channelName qName : option string) (options : OptionsArg)
    (callback : option Callback) : Async :=
  spawn (assertQueue (default "default" channelName) (default "default.q" qName)
                     (or_object options) callback).

Definition deleteQueue (channelName qName : option string) (options : OptionsArg)
    (callback : option Callback) : Async :=
  spawn (deleteQueue (default "default" channelName) (default "default.q" qName)
                     (or_object options) callback).

Definition assertExchange (channelName exName type : option string)
    (options : OptionsArg) (callback : option Callback) : Async :=
  spawn (assertExchange (default "default" channelName) (default "default.ex" exName)
                        (default "fanout" type) (or_object options) callback).

Definition bindQueue (channelName qName exName key : option string)
    (options : OptionsArg) (callback : option Callback) : Async :=
  spawn (bindQueue (default "default" channelName) (default "default.q" qName)
                   (default "default.ex" exName) (default EmptyString key)
                   (or_object options) callback).

Definition closeChannel (channelName : option string) : Async :=
  closeChannel (default "default" channelName).

Definition cancelChannel (channelName : option string) : Async :=
  cancelChannel (default "default" channelName).

Definition getChannel (channelName : option string) (callback : option Callback)
    : Async :=
  spawn (getChannel (default "default" channelName) callback).

End exports.

(** ** Topology set-up, seen from the broker *)

(** What an entry of the configuration asks the broker to declare. *)
Inductive Declaration :=
| DeclareExchange (name type : string) (options : OptionsArg)
| DeclareQueue (name : string) (options : OptionsArg)
| DeclareBinding (queue exchange key : string) (options : OptionsArg).

Definition exchange_declaration (e : Exchange.t) : Declaration :=
  DeclareExchange (Exchange.name e) (Exchange.type e) (Exchange.options e).

Definition queue_declaration (q : Queue.t) : Declaration :=
  DeclareQueue (Queue.name q) (Queue.options q).

Definition binding_declaration (b : Binding.t) : Declaration :=
  DeclareBinding (Binding.queue b) (Binding.exchange b) (Binding.key b)
                 (Binding.options b).

(** The entries of [opts]: the exchanges, then the queues, then the
    bindings, each list in the order it is given. *)
Definition declared (opts : Opts.t) : list Declaration :=
  map exchange_declaration (default [] (Opts.exchanges opts))
  ++ map queue_declaration (default [] (Opts.queues opts))
  ++ map binding_declaration (default [] (Opts.bindings opts)).

(** The declaration that a library call asserts, when it is an assertion. *)
Definition assertion (b : BrokerCall) : option Declaration :=
  match b with
  | AssertExchange _ exName type options => Some (DeclareExchange exName type options)
  | AssertQueue _ qName options => Some (DeclareQueue qName options)
  | BindQueue _ qName exName key options => Some (DeclareBinding qName exName key options)
  | _ => None
  end.

(** The assertions made so far, as a mock broker would record them. *)
Definition asserted (t : list Event) : list Declaration :=
  omap assertion (broker_calls t).

Definition is_assertion (b : BrokerCall) : bool := bool_decide (is_Some (assertion b)).

Definition is_creation (b : BrokerCall) : bool :=
  match b with CreateConfirmChannel _ => true | _ => false end.

(** The outstanding request with number [id]. *)
Definition awaited (c : Config) (id : nat) : option BrokerCall :=
  match take id (inflight c) with
  | Some (b, _, _) => Some b
  | None => None
  end.

(** The requests that stay outstanding when request [id] is answered. *)
Definition others (c : Config) (id : nat) : list BrokerCall :=
  match take id (inflight c) with
  | Some (_, _, rest) => map (fun x => snd (fst x)) rest
  | None => outstanding c
  end.

(** The call [this.setupTopology(opts)] on the object [s], up to its first
    suspension. *)
Definition start_topology (s : ZeroRabbit) (opts : Opts.t) : Config :=
  fst (exec (spawn (setupTopology opts)) (boot s)).

(** The error that [getChannel] throws when the channel cannot be made. *)
Definition creation_error (reason : string) : Exn :=
  Error ("Error creating channel: " +:+ reason).

(** The error that the callback of a failed assertion throws. *)
Definition assertion_error (b : BrokerCall) (err : BrokerError) : Exn :=
  match b with
  | AssertExchange _ _ _ _ => Error ("Error in assertExchange(): " +:+ err)
  | AssertQueue _ _ _ => Error ("Error in ZeroRabbit.assertQueue(): " +:+ err)
  | BindQueue _ _ _ _ _ => Error ("Error in RabbitMQ.bindQueue(): " +:+ err)
  | _ => Error err
  end.

(** *** Shapes of the trees that set-up runs *)

(** Code that only logs before it returns or throws. *)
Inductive quiet : Async -> Prop :=
| quiet_ret v : quiet (Ret v)
| quiet_throw e : quiet (Throw e)
| quiet_debug line k : quiet k -> quiet (Emit (Debug line) k).

(** The callback of the assertion [b]. *)
Definition assertion_callback (b : BrokerCall) (cb : Reply -> Async) : Prop :=
  (forall r, quiet (cb r)) /\
  (forall err, cb (Failure err) = Throw (assertion_error b err)).

(** [chain Q rem m]: the code [m] makes the assertions [rem] in this order
    and returns a value in [Q], unless a channel cannot be made, and then it
    throws; it waits for nothing but channels. *)
Inductive chain (Q : Value -> Prop) : list Declaration -> Async -> Prop :=
| chain_ret v : Q v -> chain Q [] (Ret v)
| chain_fail rem reason : chain Q rem (Throw (creation_error reason))
| chain_read rem k : (forall s, chain Q rem (k s)) -> chain Q rem (Read k)
| chain_debug rem line k : chain Q rem k -> chain Q rem (Emit (Debug line) k)
| chain_assert rem b d cb k :
    assertion b = Some d -> assertion_callback b cb -> chain Q rem k ->
    chain Q (d :: rem) (Request b cb k)
| chain_create rem conn channelName k :
    (forall err, k (Rejected (Raised err)) = Throw (creation_error err)) ->
    (forall ch, chain Q rem (k (Fulfilled (VChannel ch)))) ->
    chain Q rem (Await (CreateConfirmChannel conn)
                       (createConfirmChannel_callback channelName) k).

Definition anything (v : Value) : Prop := True.

Definition a_channel (v : Value) : Prop := v <> VUndefined.

(** An outstanding assertion. *)
Definition idle (x : nat * BrokerCall * Handler) : Prop :=
  match x with
  | (_, b, OnReply cb) => is_Some (assertion b) /\ assertion_callback b cb
  | (_, _, OnSettle _ _) => False
  end.

(** The outstanding channel creation that set-up waits for, [rem] being the
    assertions still to make. *)
Definition waiting (rem : list Declaration) (x : nat * BrokerCall * Handler) : Prop :=
  match x with
  | (_, CreateConfirmChannel _, OnSettle cb k) =>
      (exists channelName, cb = createConfirmChannel_callback channelName) /\
      (forall err, k (Rejected (Raised err)) = Throw (creation_error err)) /\
      (forall ch, chain anything rem (k (Fulfilled (VChannel ch))))
  | _ => False
  end.

(** Outstanding assertions, and last the channel creation waited for. *)
Inductive suspended (rem : list Declaration)
  : list (nat * BrokerCall * Handler) -> Prop :=
| suspended_last x : waiting rem x -> suspended rem [x]
| suspended_cons x l : idle x -> suspended rem l -> suspended rem (x :: l).

(** What holds while [setupTopology] runs on the entries [decls], and
    after: either it is suspended on a channel creation, nothing is settled
    and the assertions made and those to come are [decls]; or it is over. *)
Definition topology_invariant (decls : list Declaration) (c : Config) : Prop :=
  (exists rem,
      suspended rem (inflight c) /\
      asserted (trace c) ++ rem = decls /\
      (forall s, ~ In (Settled s) (trace c)))
  \/ (Forall idle (inflight c) /\
      asserted (trace c) `prefix_of` decls /\
      (forall v, In (Settled (Fulfilled v)) (trace c) -> asserted (trace c) = decls) /\
      (forall e, In (Settled (Rejected e)) (trace c) ->
                 exists reason, e = creation_error reason)).

(** *** Set-up on a connected object, the broker opening every channel *)

(** Every outstanding request has a number below the next one. *)
Definition numbered (c : Config) : Prop :=
  Forall (fun x => fst (fst x) < next_id c) (inflight c).

(** [steady Q n m]: on an object that holds a connection the code [m] waits
    for at most [n] channels, one after the other, and when each of them is
    opened it returns a value in [Q]; besides, it logs and makes assertions. *)
Inductive steady (Q : Value -> Prop) : nat -> Async -> Prop :=
| steady_ret n v : Q v -> steady Q n (Ret v)
| steady_read n k :
    (forall s, is_Some (rabbitConn s) -> steady Q n (k s)) -> steady Q n (Read k)
| steady_debug n line k : steady Q n k -> steady Q n (Emit (Debug line) k)
| steady_assert n b cb k :
    is_Some (assertion b) -> assertion_callback b cb -> steady Q n k ->
    steady Q n (Request b cb k)
| steady_create n conn channelName k :
    (forall ch, steady Q n (k (Fulfilled (VChannel ch)))) ->
    steady Q (S n) (Await (CreateConfirmChannel conn)
                          (createConfirmChannel_callback channelName) k).

(** The outstanding channel creation number [i] that set-up waits for, with
    at most [n] more to come. *)
Definition awaited_channel (n i : nat) (x : nat * BrokerCall * Handler) : Prop :=
  match x with
  | (j, CreateConfirmChannel _, OnSettle cb k) =>
      j = i /\
      (exists channelName, cb = createConfirmChannel_callback channelName) /\
      (forall ch, steady anything n (k (Fulfilled (VChannel ch))))
  | _ => False
  end.

(** Outstanding assertions with smaller numbers, and last the channel
    creation waited for. *)
Inductive parked (n i : nat) : list (nat * BrokerCall * Handler) -> Prop :=
| parked_last x : awaited_channel n i x -> parked n i [x]
| parked_cons x l : idle x -> fst (fst x) < i -> parked n i l -> parked n i (x :: l).

(** The number of the first outstanding channel creation. *)
Definition next_creation (c : Config) : option nat :=
  match filter (fun x => is_creation (snd (fst x)) = true) (inflight c) with
  | x :: _ => Some (fst (fst x))
  | [] => None
  end.

(** A broker that opens the channel asked for, [n] times over. *)
Fixpoint open_channels (n : nat) (c : Config) : Config :=
  match n with
  | O => c
  | S n' =>
      match next_creation c with
      | Some id => open_channels n' (run [(id, Succeeds EmptyString)] c)
      | None => c
      end
  end.

(** ** Calls from outside the module *)

(** The configuration [c] with the events [es] after what had happened. *)
Definition log_all (es : list Event) (c : Config) : Config :=
  {| this := this c; inflight := inflight c; next_id := next_id c;
     trace := trace c ++ es; promise := promise c |}.

(** What [getChannel] throws for a new name on an object whose [rabbitConn]
    is [undefined]: the executor of the promise raises on
    [this.rabbitConn.createConfirmChannel], and the [catch] wraps it. *)
Definition not_connected : Exn :=
  Error ("Error creating channel: "
         +:+ to_string (TypeError
               "Cannot read properties of undefined (reading 'createConfirmChannel')")).

(** ** Set-up inside [connect] *)

(** The [then] callback that [connect] gives to the promise of
    [setupTopology], [r] being what the library passed to the callback of
    [amqp.connect]. *)
Definition connected_then (callback : option Callback) (r : Reply) (_ : Value) : Async :=
  Read (fun s' =>
    debug ("Channels opened: " +:+ pretty (size (channels s'))) >>
    match callback with
    | Some cb => invoke cb (err_arg r) (result_arg r)
    | None => skip
    end).

(** The caller-supplied callbacks called so far, with their arguments. *)
Definition callbacks (t : list Event) : list (Callback * Arg * Arg) :=
  omap (fun e => match e with
                 | Did (Invoke cb err result) => Some (cb, err, result)
                 | _ => None
                 end) t.

(** A suspended function whose caller goes on with [f] when it returns. *)
Definition lift_entry (f : Value -> Async) (x : nat * BrokerCall * Handler)
  : nat * BrokerCall * Handler :=
  match x with
  | (id, b, OnSettle cb k) => (id, b, OnSettle cb (fun s => bind (k s) f))
  | (id, b, OnReply cb) => (id, b, OnReply cb)
  end.

Fixpoint lift_last (f : Value -> Async) (l : list (nat * BrokerCall * Handler))
  : list (nat * BrokerCall * Handler) :=
  match l with
  | [] => []
  | x :: l' =>
      match l' with
      | [] => [lift_entry f x]
      | _ :: _ => x :: lift_last f l'
      end
  end.

Definition lift (f : Value -> Async) (c : Config) : Config :=
  set_inflight (lift_last f (inflight c)) c.

(** What holds while the set-up started by [connect] runs on the entries
    [decls], and after: either it is suspended on a channel creation, with
    [f] to follow, and the callback has not been called; or it is over, and
    the callback has been called, once and with [final], only if every entry
    has been asserted. *)
Definition connect_invariant (f : Value -> Async) (decls : list Declaration)
    (final : Callback * Arg * Arg) (conn : nat) (c : Config) : Prop :=
  rabbitConn (this c) = Some conn /\
  ((exists rem l,
       suspended rem l /\ inflight c = lift_last f l /\
       asserted (trace c) ++ rem = decls /\
       callbacks (trace c) = [])
   \/ (Forall idle (inflight c) /\
       asserted (trace c) `prefix_of` decls /\
       (callbacks (trace c) = []
        \/ callbacks (trace c) = [final] /\ asserted (trace c) = decls))).

(** ** Set-up with a broker that opens every channel *)

(** Request [b] handed to the library and answered with [r], nothing else
    having happened in between. *)
Definition answered (b : BrokerCall) (r : Reply) (c : Config) : Config :=
  log (Replied (next_id c) r)
      {| this := this c; inflight := inflight c; next_id := S (next_id c);
         trace := trace c ++ [Issued (next_id c) b]; promise := promise c |}.

(** [exec] with the turns of [open_channels] folded in: at an [Await] the
    broker answers the request with success before any other request, the
    callback runs, and the function goes on when its promise is settled. *)
Fixpoint exec_opening (m : Async) (c : Config) : Config * Outcome :=
  match m with
  | Ret v => (c, Returned v)
  | Throw e => (c, Thrown e)
  | Read k => exec_opening (k (this c)) c
  | Write s k => exec_opening k (set_this s c)
  | Emit ev k => exec_opening k (log (Did ev) c)
  | Request b cb k => exec_opening k (issue b (OnReply cb) c)
  | Await b cb k =>
      let r := reply_of b (next_id c) (Succeeds EmptyString) in
      let c1 := escape (exec (cb r) (set_promise None (answered b r c))) in
      match promise c1 with
      | Some s => exec_opening (k s) (set_promise None c1)
      | None => (c1, Suspended)
      end
  | Resolve v k => exec_opening k (settle (Fulfilled v) c)
  | Reject e k => exec_opening k (settle (Rejected e) c)
  | Fork m' k => exec_opening k (conclude (exec m' c))
  end.

(** The channel names of the entries of [opts], in the order of the entries. *)
Definition channel_names (opts : Opts.t) : list string :=
  map Exchange.channel (default [] (Opts.exchanges opts))
  ++ map Queue.channel (default [] (Opts.queues opts))
  ++ map Binding.channel (default [] (Opts.bindings opts)).

(** The names under which the map holds a channel. *)
Definition registered_names (m : gmap string Value) : gset string :=
  dom (filter (fun kv => snd kv <> VUndefined) m).

Definition channel_number (v : Value) : nat :=
  match v with VChannel ch => ch | VUndefined => 0 end.

(** The assertions of the entries of [opts], each on the channel that the
    map holds under the channel name of its entry. *)
Definition assertions_on (m : gmap string Value) (opts : Opts.t) : list BrokerCall :=
  map (fun x => AssertExchange (channel_number (Map_get m (Exchange.channel x)))
                  (Exchange.name x) (Exchange.type x) (Exchange.options x))
      (default [] (Opts.exchanges opts))
  ++ map (fun x => AssertQueue (channel_number (Map_get m (Queue.channel x)))
                     (Queue.name x) (Queue.options x))
         (default [] (Opts.queues opts))
  ++ map (fun x => BindQueue (channel_number (Map_get m (Binding.channel x)))
                     (Binding.queue x) (Binding.exchange x) (Binding.key x)
                     (Binding.options x))
         (default [] (Opts.bindings opts)).

(** The channel creations and the assertions among the library calls. *)
Definition creations (t : list Event) : list BrokerCall :=
  filter (fun b => is_creation b = true) (broker_calls t).

Definition assertions (t : list Event) : list BrokerCall :=
  filter (fun b => is_assertion b = true) (broker_calls t).

(** The common shape of [assertExchange], [assertQueue] and [bindQueue]:
    resolve the channel, then hand the assertion to the library. *)
Definition entry (channelName method : string) (b : nat -> BrokerCall)
    (cb : Reply -> Async) : Async :=
  let! ch := getChannel channelName None in
  on_channel ch method (fun c => Request (b c) cb skip).

(** From [c] to [c'] the channels of [names] have been resolved on the
    connection [conn] and the assertions [asserts] made: one channel was
    opened for every name that held none, every name of [names] now holds
    a channel, the channels held before are kept, and each assertion went
    to the channel now held under its name. *)
Definition opened (conn : nat) (names : list string)
    (asserts : gmap string Value -> list BrokerCall) (c c' : Config) : Prop :=
  rabbitConn (this c') = Some conn /\
  (exists calls,
      broker_calls (trace c') = broker_calls (trace c) ++ calls /\
      filter (fun b => is_assertion b = true) calls = asserts (channels (this c')) /\
      filter (fun b => is_creation b = true) calls
      = replicate (size (list_to_set names ∖ registered_names (channels (this c))))
                  (CreateConfirmChannel conn)) /\
  (forall name ch, Map_get (channels (this c)) name = VChannel ch ->
                   Map_get (channels (this c')) name = VChannel ch) /\
  registered_names (channels (this c'))
  = list_to_set names ∪ registered_names (channels (this c)) /\
  (forall name, name ∈ names -> exists ch, Map_get (channels (this c')) name = VChannel ch).

(** ** Why set-up is rejected *)

(** The broker has refused a channel creation, and [e] is what
    [getChannel] throws for it. *)
Definition refused_channel (t : list Event) (e : Exn) : Prop :=
  exists id conn err,
    In (Issued id (CreateConfirmChannel conn)) t /\
    In (Replied id (Failure err)) t /\
    e = creation_error err.

(** [offline Q m]: on an object that holds no connection the code [m]
    waits for nothing: it logs and makes assertions, and it returns a value
    in [Q] or throws [not_connected]. *)
Inductive offline (Q : Value -> Prop) : Async -> Prop :=
| offline_ret v : Q v -> offline Q (Ret v)
| offline_fail : offline Q (Throw not_connected)
| offline_read k : (forall s, rabbitConn s = None -> offline Q (k s)) -> offline Q (Read k)
| offline_debug line k : offline Q k -> offline Q (Emit (Debug line) k)
| offline_assert b cb k :
    is_Some (assertion b) -> assertion_callback b cb -> offline Q k ->
    offline Q (Request b cb k).

(** Every outstanding request is in the log. *)
Definition accounted (c : Config) : Prop :=
  Forall (fun x => In (Issued (fst (fst x)) (snd (fst x))) (trace c)) (inflight c).

(** What holds while set-up runs on an object that holds the connection
    [conn], and after: the connection stays, set-up is over or waits for
    one channel, and it has been rejected only for a channel that the
    broker refused. *)
Definition online_invariant (conn : nat) (c : Config) : Prop :=
  rabbitConn (this c) = Some conn /\
  numbered c /\
  accounted c /\
  (Forall idle (inflight c)
   \/ exists rem n i, suspended rem (inflight c) /\ parked n i (inflight c)) /\
  (forall e, In (Settled (Rejected e)) (trace c) -> refused_channel (trace c) e).

(** ** Inputs used in the examples *)

(** An object that holds connection number 7 and no channel. *)
Definition connected : ZeroRabbit :=
  {| rabbitConn := Some 7; channels := ∅; consumerTags := ∅ |}.

Definition queue_on (channelName qName : string) : Queue.t :=
  {| Queue.channel := channelName; Queue.name := qName; Queue.options := NoOptions |}.

(** An object whose channel [events] is open. *)
Definition registered : ZeroRabbit :=
  {| rabbitConn := Some 7; channels := {["events" := VChannel 0]}; consumerTags := ∅ |}.

(** The value [{"a":1}]. *)
Definition a_is_1 : JSON.value := JSON.Object [([97%N], JSON.Number 1)].

(** A configuration with a connection and a URL, and one with neither. *)
Definition both_config : Opts.t :=
  {| Opts.connection := Some {| protocol := "amqp"; hostname := "localhost";
                                port := "5672" |};
     Opts.url := Some "amqp://localhost";
     Opts.exchanges := None; Opts.queues := None; Opts.bindings := None |}.

Definition empty_config : Opts.t :=
  {| Opts.connection := None; Opts.url := None;
     Opts.exchanges := None; Opts.queues := None; Opts.bindings := None |}.

(** Three queues that share the channel [c]. *)
Definition three_queues : Opts.t :=
  {| Opts.connection := None; Opts.url := Some "amqp://localhost";
     Opts.exchanges := None;
     Opts.queues := Some [queue_on "c" "q1"; queue_on "c" "q2"; queue_on "c" "q3"];
     Opts.bindings := None |}.

(** An exchange, a queue and their binding, on two channels. *)
Definition small_topology : Opts.t :=
  {| Opts.connection := None; Opts.url := Some "amqp://localhost";
     Opts.exchanges := Some [{| Exchange.channel := "pub"; Exchange.name := "events";
                                Exchange.type := "topic"; Exchange.options := NoOptions |}];
     Opts.queues := Some [queue_on "sub" "inbox"];
     Opts.bindings := Some [{| Binding.channel := "sub"; Binding.queue := "inbox";
                               Binding.exchange := "events"; Binding.key := "#";
                               Binding.options := NoOptions |}] |}.

(** * Proofs *)

(** ** The log *)

Lemma broker_calls_app t1 t2 :
  broker_calls (t1 ++ t2) = broker_calls t1 ++ broker_calls t2.
Proof. unfold broker_calls. apply omap_app. Qed.

Lemma asserted_app t1 t2 : asserted (t1 ++ t2) = asserted t1 ++ asserted t2.
Proof. unfold asserted. rewrite broker_calls_app. apply omap_app. Qed.

Lemma asserted_issued t id b :
  asserted (t ++ [Issued id b]) = asserted t ++ option_list (assertion b).
Proof.
  rewrite asserted_app. reflexivity.
Qed.

Lemma In_snoc {A} (x y : A) l : In x (l ++ [y]) <-> In x l \/ x = y.
Proof.
  rewrite in_app_iff. simpl. intuition.
Qed.

(** ** Shapes are kept by sequencing *)

Lemma chain_weaken (Q Q' : Value -> Prop) rem m :
  (forall v, Q v -> Q' v) -> chain Q rem m -> chain Q' rem m.
Proof.
  intros HQ H. induction H; econstructor; eauto.
Qed.

Lemma chain_bind (Q Q' : Value -> Prop) rem1 rem2 m f :
  chain Q rem1 m ->
  (forall v, Q v -> chain Q' rem2 (f v)) ->
  chain Q' (rem1 ++ rem2) (bind m f).
Proof.
  intros H Hf. induction H; simpl.
  - auto.
  - constructor.
  - constructor. auto.
  - constructor. auto.
  - econstructor; eauto.
  - constructor.
    + intros err. rewrite H. reflexivity.
    + auto.
Qed.

Lemma chain_getChannel channelName :
  chain a_channel [] (getChannel channelName None).
Proof.
  unfold getChannel. constructor. intros s.
  destruct (decide (Map_get (channels s) channelName = VUndefined)) as [Hu | Hu].
  - simpl. constructor. intros s'.
    destruct (rabbitConn s') as [conn |]; simpl.
    + constructor.
      * intros err. reflexivity.
      * intros ch. simpl. constructor. constructor. unfold a_channel. discriminate.
    + apply chain_fail.
  - simpl. constructor. constructor. exact Hu.
Qed.

Lemma chain_on_channel (Q : Value -> Prop) rem ch method k :
  a_channel ch -> (forall c, chain Q rem (k c)) -> chain Q rem (on_channel ch method k).
Proof.
  intros Hch Hk. destruct ch as [| c]; [destruct Hch; reflexivity | apply Hk].
Qed.

Lemma quiet_debug_skip line : quiet (debug line).
Proof. repeat constructor. Qed.

Lemma chain_assertExchange channelName exName type options :
  chain anything [DeclareExchange exName type options]
        (assertExchange channelName exName type options None).
Proof.
  unfold assertExchange.
  apply (chain_bind a_channel anything [] _ _ _ (chain_getChannel channelName)).
  intros ch Hch. apply chain_on_channel; [exact Hch |]. intros c.
  econstructor; [reflexivity | | constructor; exact I].
  split; [| reflexivity].
  intros r. unfold assertExchange_callback. destruct (reply_err r); repeat constructor.
Qed.

Lemma chain_assertQueue channelName qName options :
  chain anything [DeclareQueue qName options]
        (assertQueue channelName qName options None).
Proof.
  unfold assertQueue.
  apply (chain_bind a_channel anything [] _ _ _ (chain_getChannel channelName)).
  intros ch Hch. apply chain_on_channel; [exact Hch |]. intros c.
  econstructor; [reflexivity | | constructor; exact I].
  split; [| reflexivity].
  intros r. unfold assertQueue_callback. destruct (reply_err r); repeat constructor.
Qed.

Lemma chain_bindQueue channelName qName exName key options :
  chain anything [DeclareBinding qName exName key options]
        (bindQueue channelName qName exName key options None).
Proof.
  unfold bindQueue.
  apply (chain_bind a_channel anything [] _ _ _ (chain_getChannel channelName)).
  intros ch Hch. apply chain_on_channel; [exact Hch |]. intros c.
  econstructor; [reflexivity | | constructor; exact I].
  split; [| reflexivity].
  intros r. unfold bindQueue_callback. destruct (reply_err r); repeat constructor.
Qed.

Lemma chain_asyncForEach_from {A} (array : list A) callback (f : A -> Declaration) rest :
  (forall x index, chain anything [f x] (callback x index array)) ->
  forall index, chain anything (map f rest) (asyncForEach_from array callback index rest).
Proof.
  intros Hcb. induction rest as [| x rest IH]; intros index; simpl.
  - constructor. exact I.
  - apply (chain_bind anything anything [f x] (map f rest)); [apply Hcb |].
    intros _ _. apply IH.
Qed.

Lemma chain_asyncForEach {A} (array : list A) callback (f : A -> Declaration) :
  (forall x index, chain anything [f x] (callback x index array)) ->
  chain anything (map f array) (asyncForEach array callback).
Proof. intros Hcb. apply chain_asyncForEach_from. exact Hcb. Qed.

Lemma chain_skip : chain anything [] skip.
Proof. constructor. exact I. Qed.

Lemma chain_setupTopology opts : chain anything (declared opts) (setupTopology opts).
Proof.
  unfold setupTopology, declared.
  apply (chain_bind anything anything).
  { destruct (Opts.exchanges opts) as [l |]; simpl; [| apply chain_skip].
    apply chain_asyncForEach. intros x index. apply chain_assertExchange. }
  intros _ _. apply (chain_bind anything anything).
  { destruct (Opts.queues opts) as [l |]; simpl; [| apply chain_skip].
    apply chain_asyncForEach. intros x index. apply chain_assertQueue. }
  intros _ _.
  destruct (Opts.bindings opts) as [l |]; simpl; [| apply chain_skip].
  apply chain_asyncForEach. intros x index. apply chain_bindQueue.
Qed.

(** ** Running the shapes *)

(** [c'] differs from [c] by log lines that are neither library calls nor
    settlements. *)
Lemma exec_quiet m :
  quiet m ->
  forall c,
    this (exec m c).1 = this c /\
    inflight (exec m c).1 = inflight c /\
    next_id (exec m c).1 = next_id c /\
    broker_calls (trace (exec m c).1) = broker_calls (trace c) /\
    (forall s, In (Settled s) (trace (exec m c).1) <-> In (Settled s) (trace c)) /\
    (exec m c).2 <> Suspended.
Proof.
  induction 1 as [v | e | line k Hk IH]; intros c; simpl.
  - repeat split; auto; discriminate.
  - repeat split; auto; discriminate.
  - destruct (IH (log (Did (Debug line)) c)) as (H1 & H2 & H3 & H4 & H5 & H6).
    repeat split; auto.
    + rewrite H4. simpl. rewrite broker_calls_app. simpl. apply app_nil_r.
    + intros Hin. apply H5 in Hin. simpl in Hin. apply In_snoc in Hin.
      destruct Hin as [Hin | Hin]; [exact Hin | discriminate].
    + intros Hin. apply H5. simpl. apply In_snoc. left. exact Hin.
Qed.

Lemma escape_quiet m c :
  quiet m ->
  this (escape (exec m c)) = this c /\
  inflight (escape (exec m c)) = inflight c /\
  next_id (escape (exec m c)) = next_id c /\
  broker_calls (trace (escape (exec m c))) = broker_calls (trace c) /\
  (forall s, In (Settled s) (trace (escape (exec m c))) <-> In (Settled s) (trace c)).
Proof.
  intros Hq. destruct (exec_quiet m Hq c) as (H1 & H2 & H3 & H4 & H5 & H6).
  destruct (exec m c) as [c1 o]. simpl in *.
  destruct o; simpl; auto.
  repeat split; auto.
  - rewrite broker_calls_app. simpl. rewrite app_nil_r. exact H4.
  - intros Hin. apply In_snoc in Hin. destruct Hin as [Hin | Hin]; [| discriminate].
    apply H5. exact Hin.
  - intros Hin. apply In_snoc. left. apply H5. exact Hin.
Qed.

Lemma suspended_snoc rem l x :
  Forall idle l -> waiting rem x -> suspended rem (l ++ [x]).
Proof.
  induction 1; intros Hx; simpl.
  - constructor. exact Hx.
  - apply suspended_cons; auto.
Qed.

Lemma exec_chain rem m :
  chain anything rem m ->
  forall c, Forall idle (inflight c) ->
  exists p,
    asserted (trace (exec m c).1) = asserted (trace c) ++ p /\
    (forall s, In (Settled s) (trace (exec m c).1) -> In (Settled s) (trace c)) /\
    match (exec m c).2 with
    | Returned _ => p = rem /\ Forall idle (inflight (exec m c).1)
    | Thrown e =>
        (exists reason, e = creation_error reason) /\ p `prefix_of` rem /\
        Forall idle (inflight (exec m c).1)
    | Suspended => exists rem', p ++ rem' = rem /\ suspended rem' (inflight (exec m c).1)
    end.
Proof.
  induction 1 as [v Hv | rem reason | rem k Hk IH | rem line k Hk IH
                  | rem b d cb k Hb Hcb Hk IH | rem conn channelName k Hrej Hk IH];
    intros c Hidle; simpl.
  - exists []. rewrite app_nil_r. auto.
  - exists []. rewrite app_nil_r. repeat split; eauto. apply prefix_nil.
  - apply IH. exact Hidle.
  - destruct (IH (log (Did (Debug line)) c) Hidle) as (p & Hp & Hs & Ho).
    exists p. split; [| split].
    + rewrite Hp. simpl. rewrite asserted_app. simpl. rewrite app_nil_r. reflexivity.
    + intros s Hin. apply Hs in Hin. simpl in Hin. apply In_snoc in Hin.
      destruct Hin as [Hin | Hin]; [exact Hin | discriminate].
    + exact Ho.
  - assert (Hidle' : Forall idle (inflight (issue b (OnReply cb) c))).
    { simpl. apply Forall_app. split; [exact Hidle |].
      constructor; [| constructor]. simpl. split; [rewrite Hb; eauto | exact Hcb]. }
    destruct (IH (issue b (OnReply cb) c) Hidle') as (p & Hp & Hs & Ho).
    exists (d :: p). split; [| split].
    + rewrite Hp. simpl. rewrite asserted_issued, Hb. simpl.
      rewrite <- app_assoc. reflexivity.
    + intros s Hin. apply Hs in Hin. simpl in Hin. apply In_snoc in Hin.
      destruct Hin as [Hin | Hin]; [exact Hin | discriminate].
    + destruct ((exec k (issue b (OnReply cb) c)).2).
      * destruct Ho as [-> Ho]. auto.
      * destruct Ho as (He & Hpre & Ho). repeat split; auto.
        apply prefix_cons. exact Hpre.
      * destruct Ho as (rem' & <- & Ho). exists rem'. auto.
  - exists []. split; [| split].
    + rewrite asserted_issued. simpl. reflexivity.
    + intros s Hin. apply In_snoc in Hin.
      destruct Hin as [Hin | Hin]; [exact Hin | discriminate].
    + exists rem. split; [reflexivity |].
      apply suspended_snoc; [exact Hidle |]. simpl. eauto.
Qed.

(** ** The outstanding requests *)

Lemma take_idle l : 
  Forall idle l ->
  forall id b h rest, take id l = Some (b, h, rest) ->
  idle (id, b, h) /\ Forall idle rest.
Proof.
  induction 1 as [| [[i b0] h0] l Hx Hl IH]; intros id b h rest Ht; simpl in Ht.
  - discriminate.
  - destruct (Nat.eqb i id).
    + inversion Ht; subst. auto.
    + destruct (take id l) as [[[b' h'] rest'] |] eqn:E; [| discriminate].
      inversion Ht; subst. destruct (IH _ _ _ _ E) as [H1 H2]. auto.
Qed.

Lemma take_suspended rem l :
  suspended rem l ->
  forall id b h rest, take id l = Some (b, h, rest) ->
  (idle (id, b, h) /\ suspended rem rest) \/
  (waiting rem (id, b, h) /\ Forall idle rest).
Proof.
  induction 1 as [[[i b0] h0] Hx | [[i b0] h0] l Hx Hl IH];
    intros id b h rest Ht; simpl in Ht.
  - destruct (Nat.eqb i id); [| discriminate].
    inversion Ht; subst. right. auto.
  - destruct (Nat.eqb i id).
    + inversion Ht; subst. left. auto.
    + destruct (take id l) as [[[b' h'] rest'] |] eqn:E; [| discriminate].
      inversion Ht; subst.
      destruct (IH _ _ _ _ E) as [[H1 H2] | [H1 H2]].
      * left. split; [exact H1 | apply suspended_cons; auto].
      * right. split; [exact H1 | constructor; auto].
Qed.

(** An answer to an outstanding assertion changes nothing but the log. *)
Lemma deliver_idle c id o b h rest :
  take id (inflight c) = Some (b, h, rest) ->
  idle (id, b, h) ->
  exists c', deliver id o c = Some c' /\
    this c' = this c /\ inflight c' = rest /\
    broker_calls (trace c') = broker_calls (trace c) /\
    (forall s, In (Settled s) (trace c') <-> In (Settled s) (trace c)).
Proof.
  intros Ht Hidle. unfold deliver. rewrite Ht.
  destruct h as [cb | cb k]; [| destruct Hidle].
  destruct Hidle as [_ [Hq _]].
  eexists. split; [reflexivity |].
  destruct (escape_quiet (cb (reply_of b id o))
              (log (Replied id (reply_of b id o)) (set_inflight rest c)) (Hq _))
    as (H1 & H2 & H3 & H4 & H5).
  repeat split; auto.
  - rewrite H4. simpl. rewrite broker_calls_app. simpl. apply app_nil_r.
  - intros Hin. apply H5 in Hin. simpl in Hin. apply In_snoc in Hin.
    destruct Hin as [Hin | Hin]; [exact Hin | discriminate].
  - intros Hin. apply H5. simpl. apply In_snoc. left. exact Hin.
Qed.

(** The broker refuses the channel that set-up waits for: the entry is
    stored as [undefined], the promise of [setupTopology] is rejected and
    nothing else happens. *)
Lemma deliver_waiting_fails c id err b h rest rem :
  take id (inflight c) = Some (b, h, rest) ->
  waiting rem (id, b, h) ->
  exists c', deliver id (Fails err) c = Some c' /\
    inflight c' = rest /\
    trace c' = trace c ++ [Replied id (Failure err);
                           Settled (Rejected (creation_error err))].
Proof.
  intros Ht Hw. unfold deliver. rewrite Ht.
  destruct b; try (destruct Hw; fail).
  destruct h as [cb | cb k]; [destruct Hw |].
  destruct Hw as ([channelName ->] & Hrej & _).
  simpl. rewrite Hrej. simpl.
  eexists. split; [reflexivity |]. split; [reflexivity |].
  cbn. rewrite <- app_assoc. reflexivity.
Qed.

(** The broker opens the channel: set-up goes on from the suspension. *)
Lemma deliver_waiting_succeeds c id info b h rest rem :
  take id (inflight c) = Some (b, h, rest) ->
  waiting rem (id, b, h) ->
  exists c0 m,
    deliver id (Succeeds info) c = Some (conclude (exec m c0)) /\
    chain anything rem m /\
    inflight c0 = rest /\
    trace c0 = trace c ++ [Replied id (Opened id)].
Proof.
  intros Ht Hw. unfold deliver. rewrite Ht.
  destruct b; try (destruct Hw; fail).
  destruct h as [cb | cb k]; [destruct Hw |].
  destruct Hw as ([channelName ->] & _ & Hk).
  simpl.
  eexists _, (k (Fulfilled (VChannel id))). split; [reflexivity |].
  split; [apply Hk |]. split; reflexivity.
Qed.

(** ** The invariant of set-up *)

Lemma conclude_chain decls rem m c :
  chain anything rem m ->
  Forall idle (inflight c) ->
  asserted (trace c) ++ rem = decls ->
  (forall s, ~ In (Settled s) (trace c)) ->
  topology_invariant decls (conclude (exec m c)).
Proof.
  intros Hm Hidle Hdecls Hnone.
  destruct (exec_chain rem m Hm c Hidle) as (p & Hp & Hs & Ho).
  destruct (exec m c) as [c1 o]. simpl in *.
  destruct o as [v | e |]; simpl.
  - destruct Ho as [-> Ho]. right. simpl. repeat split.
    + exact Ho.
    + rewrite asserted_app, Hp. simpl. rewrite app_nil_r, Hdecls. reflexivity.
    + intros _ _. rewrite asserted_app, Hp. simpl. rewrite app_nil_r. exact Hdecls.
    + intros e Hin. apply In_snoc in Hin. destruct Hin as [Hin | Hin]; [| discriminate].
      apply Hs in Hin. destruct (Hnone _ Hin).
  - destruct Ho as ([reason ->] & Hpre & Ho). right. simpl. repeat split.
    + exact Ho.
    + rewrite asserted_app, Hp. simpl. rewrite app_nil_r. rewrite <- Hdecls.
      apply prefix_app. exact Hpre.
    + intros v Hin. apply In_snoc in Hin. destruct Hin as [Hin | Hin]; [| discriminate].
      apply Hs in Hin. destruct (Hnone _ Hin).
    + intros e Hin. apply In_snoc in Hin. destruct Hin as [Hin | Hin].
      * apply Hs in Hin. destruct (Hnone _ Hin).
      * inversion Hin. eauto.
  - destruct Ho as (rem' & <- & Ho). left. exists rem'. repeat split.
    + exact Ho.
    + rewrite Hp, <- app_assoc. exact Hdecls.
    + intros s Hin. apply Hs in Hin. destruct (Hnone _ Hin).
Qed.

Lemma topology_invariant_start s opts :
  topology_invariant (declared opts) (start_topology s opts).
Proof.
  unfold start_topology, spawn. simpl.
  apply (conclude_chain _ (declared opts)).
  - apply chain_setupTopology.
  - constructor.
  - reflexivity.
  - intros x [].
Qed.

Lemma suspended_not_idle rem l : suspended rem l -> ~ Forall idle l.
Proof.
  induction 1 as [[[i b] h] Hx | x l Hx Hl IH]; intros HF.
  - inversion HF as [| ? ? Hi _]; subst. simpl in Hi, Hx.
    destruct h; [| exact Hi]. destruct b; exact Hx.
  - inversion HF; subst. auto.
Qed.

Lemma topology_invariant_deliver decls c id o c' :
  topology_invariant decls c ->
  deliver id o c = Some c' ->
  topology_invariant decls c'.
Proof.
  intros Hinv Hd.
  destruct (take id (inflight c)) as [[[b h] rest] |] eqn:Ht;
    [| unfold deliver in Hd; rewrite Ht in Hd; discriminate].
  destruct Hinv as [(rem & Hsus & Hdecls & Hnone) | (Hidle & Hpre & Hful & Hrej)].
  - destruct (take_suspended rem _ Hsus _ _ _ _ Ht) as [[Hi Hrest] | [Hw Hrest]].
    + destruct (deliver_idle c id o b h rest Ht Hi) as (c2 & Hd2 & _ & Hin & Hcalls & Hset).
      rewrite Hd in Hd2. inversion Hd2; subst c2.
      left. exists rem. repeat split.
      * rewrite Hin. exact Hrest.
      * unfold asserted. rewrite Hcalls. exact Hdecls.
      * intros s Hs. apply Hset in Hs. destruct (Hnone _ Hs).
    + destruct o as [err | info].
      * destruct (deliver_waiting_fails c id err b h rest rem Ht Hw) as (c2 & Hd2 & Hin & Htr).
        rewrite Hd in Hd2. inversion Hd2; subst c2.
        right. repeat split.
        -- rewrite Hin. exact Hrest.
        -- rewrite Htr, asserted_app. simpl. rewrite app_nil_r. rewrite <- Hdecls.
           apply prefix_app_r. reflexivity.
        -- intros v Hv. rewrite Htr in Hv. apply in_app_iff in Hv.
           destruct Hv as [Hv | [Hv | [Hv | []]]]; try discriminate.
           destruct (Hnone _ Hv).
        -- intros e He. rewrite Htr in He. apply in_app_iff in He.
           destruct He as [He | [He | [He | []]]]; try discriminate.
           ++ destruct (Hnone _ He).
           ++ inversion He. eauto.
      * destruct (deliver_waiting_succeeds c id info b h rest rem Ht Hw)
          as (c0 & m & Hd2 & Hm & Hin & Htr).
        rewrite Hd in Hd2. inversion Hd2; subst c'.
        apply (conclude_chain decls rem); auto.
        -- rewrite Hin. exact Hrest.
        -- rewrite Htr, asserted_app. simpl. rewrite app_nil_r. exact Hdecls.
        -- intros s Hs. rewrite Htr in Hs. apply In_snoc in Hs.
           destruct Hs as [Hs | Hs]; [destruct (Hnone _ Hs) | discriminate].
  - destruct (take_idle _ Hidle _ _ _ _ Ht) as [Hi Hrest].
    destruct (deliver_idle c id o b h rest Ht Hi) as (c2 & Hd2 & _ & Hin & Hcalls & Hset).
    rewrite Hd in Hd2. inversion Hd2; subst c2.
    right. unfold asserted in *. rewrite Hcalls. repeat split.
    + rewrite Hin. exact Hrest.
    + exact Hpre.
    + intros v Hv. apply Hset in Hv. eauto.
    + intros e He. apply Hset in He. eauto.
Qed.

Lemma topology_invariant_run decls schedule :
  forall c, topology_invariant decls c -> topology_invariant decls (run schedule c).
Proof.
  induction schedule as [| [id o] schedule IH]; intros c Hinv; simpl.
  - exact Hinv.
  - apply IH. destruct (deliver id o c) as [c' |] eqn:Hd.
    + eapply topology_invariant_deliver; eauto.
    + exact Hinv.
Qed.

(** Set-up on any object, with any entries, whatever the broker answers
    and in whatever order. *)
Lemma topology_reachable s opts schedule :
  topology_invariant (declared opts) (run schedule (start_topology s opts)).
Proof. apply topology_invariant_run, topology_invariant_start. Qed.

(** Once set-up is over, the answers still to come only add log lines. *)
Lemma idle_run schedule :
  forall c, Forall idle (inflight c) ->
  Forall idle (inflight (run schedule c)) /\
  broker_calls (trace (run schedule c)) = broker_calls (trace c) /\
  (forall s, In (Settled s) (trace (run schedule c)) <-> In (Settled s) (trace c)).
Proof.
  induction schedule as [| [id o] schedule IH]; intros c Hidle; simpl.
  - repeat split; auto.
  - destruct (take id (inflight c)) as [[[b h] rest] |] eqn:Ht.
    + destruct (take_idle _ Hidle _ _ _ _ Ht) as [Hi Hrest].
      destruct (deliver_idle c id o b h rest Ht Hi) as (c' & -> & _ & Hin & Hcalls & Hset).
      rewrite <- Hin in Hrest. destruct (IH c' Hrest) as (H1 & H2 & H3).
      split; [exact H1 |]. split; [congruence |].
      intros s. rewrite H3. apply Hset.
    + unfold deliver. rewrite Ht. apply IH. exact Hidle.
Qed.

Lemma idle_not_creation x : idle x -> is_creation (snd (fst x)) = false.
Proof.
  destruct x as [[i b] h]. simpl. destruct h; [| intros []].
  intros [[d Hd] _]. destruct b; simpl in *; try reflexivity. discriminate.
Qed.

Lemma waiting_creation rem x : waiting rem x -> is_creation (snd (fst x)) = true.
Proof.
  destruct x as [[i b] h]. simpl. destruct b; try (intros []; fail). reflexivity.
Qed.

Lemma idle_no_creations l :
  Forall idle l -> filter is_creation (map (fun x => snd (fst x)) l) = [].
Proof.
  induction 1 as [| x l Hx Hl IH]; simpl; [reflexivity |].
  rewrite filter_cons. rewrite (idle_not_creation x Hx). simpl. exact IH.
Qed.

Lemma suspended_one_creation rem l :
  suspended rem l ->
  length (filter is_creation (map (fun x => snd (fst x)) l)) = 1.
Proof.
  induction 1 as [x Hx | x l Hx Hl IH]; simpl; rewrite filter_cons.
  - rewrite (waiting_creation rem x Hx). reflexivity.
  - rewrite (idle_not_creation x Hx). simpl. exact IH.
Qed.

(** A complete run: both channels are opened and the three entries are
    asserted in the order of the configuration. *)
Example small_topology_complete :
  let c := run [(0, Succeeds ""); (2, Succeeds "")] (start_topology connected small_topology) in
  asserted (trace c) = declared small_topology /\
  In (Settled (Fulfilled VUndefined)) (trace c).
Proof. vm_compute. split; [reflexivity | tauto]. Qed.

Lemma setupTopology_order_prefix s opts schedule :
  asserted (trace (run schedule (start_topology s opts))) `prefix_of` declared opts.
Proof.
  destruct (topology_reachable s opts schedule)
    as [(rem & Hsus & Hdecls & Hnone) | (Hidle & Hpre & Hful & Hrej)].
  - rewrite <- Hdecls. apply prefix_app_r. reflexivity.
  - exact Hpre.
Qed.

(** ** Set-up comes to its end *)

Lemma exec_spawn m c : exec (spawn m) c = (conclude (exec m c), Returned VUndefined).
Proof. reflexivity. Qed.

Lemma steady_bind (Q Q' : Value -> Prop) n1 n2 m f :
  steady Q n1 m ->
  (forall v, Q v -> steady Q' n2 (f v)) ->
  steady Q' (n1 + n2) (bind m f).
Proof.
  intros H Hf. induction H; simpl.
  - clear -Hf H. specialize (Hf v H). revert Hf. generalize (f v). intros m Hm.
    induction Hm; try (econstructor; eauto; fail).
    replace (n + S n0) with (S (n + n0)) by lia. constructor. auto.
  - constructor. auto.
  - constructor. auto.
  - econstructor; eauto.
  - constructor. auto.
Qed.

Lemma steady_getChannel channelName : steady a_channel 1 (getChannel channelName None).
Proof.
  unfold getChannel. constructor. intros s _.
  destruct (decide (Map_get (channels s) channelName = VUndefined)) as [Hu | Hu].
  - simpl. constructor. intros s' [conn Hconn]. rewrite Hconn. simpl.
    constructor. intros ch. simpl. constructor. constructor. unfold a_channel. discriminate.
  - simpl. constructor. constructor. exact Hu.
Qed.

Lemma steady_on_channel (Q : Value -> Prop) n ch method k :
  a_channel ch -> (forall c, steady Q n (k c)) -> steady Q n (on_channel ch method k).
Proof.
  intros Hch Hk. destruct ch as [| c]; [destruct Hch; reflexivity | apply Hk].
Qed.

Lemma steady_assertion (b : nat -> BrokerCall) cb channelName method :
  (forall c, is_Some (assertion (b c))) ->
  (forall c, assertion_callback (b c) cb) ->
  steady anything 1
    (let! ch := getChannel channelName None in
     on_channel ch method (fun c => Request (b c) cb skip)).
Proof.
  intros Hb Hcb.
  apply (steady_bind a_channel anything 1 0 _ _ (steady_getChannel channelName)).
  intros ch Hch. apply steady_on_channel; [exact Hch |]. intros c.
  constructor; [apply Hb | apply Hcb | constructor; exact I].
Qed.

Lemma assertExchange_callback_quiet channelName exName type options c :
  assertion_callback (AssertExchange c exName type options)
                     (assertExchange_callback channelName None).
Proof.
  split; [| reflexivity].
  intros r. unfold assertExchange_callback. destruct (reply_err r); repeat constructor.
Qed.

Lemma assertQueue_callback_quiet channelName qName options c :
  assertion_callback (AssertQueue c qName options) (assertQueue_callback channelName None).
Proof.
  split; [| reflexivity].
  intros r. unfold assertQueue_callback. destruct (reply_err r); repeat constructor.
Qed.

Lemma bindQueue_callback_quiet channelName qName exName key options c :
  assertion_callback (BindQueue c qName exName key options)
                     (bindQueue_callback channelName qName exName key options None).
Proof.
  split; [| reflexivity].
  intros r. unfold bindQueue_callback. destruct (reply_err r); repeat constructor.
Qed.

Lemma steady_asyncForEach_from {A} (array : list A) callback rest :
  (forall x index, steady anything 1 (callback x index array)) ->
  forall index, steady anything (length rest) (asyncForEach_from array callback index rest).
Proof.
  intros Hcb. induction rest as [| x rest IH]; intros index; simpl.
  - constructor. exact I.
  - apply (steady_bind anything anything 1 (length rest)); [apply Hcb |].
    intros _ _. apply IH.
Qed.

Lemma steady_setupTopology opts :
  steady anything (length (declared opts)) (setupTopology opts).
Proof.
  unfold setupTopology, declared. rewrite !length_app, !length_map.
  apply (steady_bind anything anything).
  { destruct (Opts.exchanges opts) as [l |]; simpl; [| constructor; exact I].
    apply steady_asyncForEach_from. intros x index.
    apply (steady_assertion (fun c => AssertExchange c _ _ _)); intros c;
      [simpl; eauto | apply assertExchange_callback_quiet]. }
  intros _ _. apply (steady_bind anything anything).
  { destruct (Opts.queues opts) as [l |]; simpl; [| constructor; exact I].
    apply steady_asyncForEach_from. intros x index.
    apply (steady_assertion (fun c => AssertQueue c _ _)); intros c;
      [simpl; eauto | apply assertQueue_callback_quiet]. }
  intros _ _.
  destruct (Opts.bindings opts) as [l |]; simpl; [| constructor; exact I].
  apply steady_asyncForEach_from. intros x index.
  apply (steady_assertion (fun c => BindQueue c _ _ _ _)); intros c;
    [simpl; eauto | apply bindQueue_callback_quiet].
Qed.

Lemma parked_snoc n i l x :
  Forall idle l -> Forall (fun y => fst (fst y) < i) l -> awaited_channel n i x ->
  parked n i (l ++ [x]).
Proof.
  induction 1 as [| y l Hy Hl IH]; intros Hlt Hx; simpl.
  - constructor. exact Hx.
  - inversion Hlt; subst. apply parked_cons; auto.
Qed.

(** On a connected object such code returns or waits for a channel; it
    throws nothing and leaves the object as it is. *)
Lemma exec_steady n m :
  steady anything n m ->
  forall c, Forall idle (inflight c) -> numbered c -> is_Some (rabbitConn (this c)) ->
  this (exec m c).1 = this c /\
  numbered (exec m c).1 /\
  match (exec m c).2 with
  | Returned _ => Forall idle (inflight (exec m c).1)
  | Thrown _ => False
  | Suspended => exists n' i, n = S n' /\ parked n' i (inflight (exec m c).1)
  end.
Proof.
  induction 1 as [n v Hv | n k Hk IH | n line k Hk IH | n b cb k Hb Hcb Hk IH
                  | n conn channelName k Hk IH];
    intros c Hidle Hnum Hconn; simpl.
  - auto.
  - apply IH; auto.
  - apply (IH (log (Did (Debug line)) c)); auto.
  - apply (IH (issue b (OnReply cb) c)).
    + simpl. apply Forall_app. split; [exact Hidle |].
      constructor; [| constructor]. simpl. auto.
    + unfold numbered in *. simpl. apply Forall_app. split.
      * eapply Forall_impl; [exact Hnum |]. simpl. intros; lia.
      * constructor; [simpl; lia | constructor].
    + exact Hconn.
  - split; [reflexivity |]. split.
    + unfold numbered in *. simpl. apply Forall_app. split.
      * eapply Forall_impl; [exact Hnum |]. simpl. intros; lia.
      * constructor; [simpl; lia | constructor].
    + exists n, (next_id c). split; [reflexivity |].
      apply parked_snoc; [exact Hidle | exact Hnum |]. simpl. eauto.
Qed.

Lemma take_parked n i l :
  parked n i l ->
  exists b h rest,
    take i l = Some (b, h, rest) /\ awaited_channel n i (i, b, h) /\
    Forall idle rest /\ (forall bound, Forall (fun y => fst (fst y) < bound) l ->
                                       Forall (fun y => fst (fst y) < bound) rest).
Proof.
  induction 1 as [[[j b] h] Hx | [[j b] h] l Hx Hlt Hl IH].
  - assert (j = i) as ->.
    { simpl in Hx. destruct b; try (destruct Hx; fail). destruct h; [destruct Hx |].
      apply Hx. }
    exists b, h, []. simpl. rewrite Nat.eqb_refl. repeat split; auto.
  - destruct IH as (b' & h' & rest & Ht & Hw & Hrest & Hbound).
    exists b', h', ((j, b, h) :: rest). simpl in *.
    replace (Nat.eqb j i) with false by (symmetry; apply Nat.eqb_neq; lia).
    rewrite Ht. repeat split; auto.
    intros bound HF. inversion HF; subst. constructor; auto.
Qed.

Lemma next_creation_parked n i c : parked n i (inflight c) -> next_creation c = Some i.
Proof.
  unfold next_creation. induction 1 as [[[j b] h] Hx | x l Hx Hlt Hl IH].
  - simpl in Hx. destruct b; try (destruct Hx; fail). destruct h; [destruct Hx |].
    destruct Hx as [-> _]. reflexivity.
  - rewrite filter_cons. apply idle_not_creation in Hx.
    destruct (decide (is_creation x.1.2 = true)) as [E | _]; [congruence |]. exact IH.
Qed.

(** The log only grows. *)
Lemma exec_trace_grows m : forall c, exists t, trace (exec m c).1 = trace c ++ t.
Proof.
  induction m as [v | e | k IH | s k IH | ev k IH | b cb IHcb k IH | b cb IHcb k IH
                  | v k IH | e k IH | m' IHm k IH]; intros c; simpl.
  - exists []. rewrite app_nil_r. reflexivity.
  - exists []. rewrite app_nil_r. reflexivity.
  - apply IH.
  - apply (IH (set_this s c)).
  - destruct (IH (log (Did ev) c)) as [t Ht]. rewrite Ht. simpl.
    rewrite <- app_assoc. eauto.
  - destruct (IH (issue b (OnReply cb) c)) as [t Ht]. rewrite Ht. simpl.
    rewrite <- app_assoc. eauto.
  - eauto.
  - apply (IH (settle (Fulfilled v) c)).
  - apply (IH (settle (Rejected e) c)).
  - destruct (IHm c) as [t1 Ht1].
    destruct (IH (conclude (exec m' c))) as [t2 Ht2]. rewrite Ht2.
    destruct (exec m' c) as [c1 o]. simpl in *.
    destruct o; simpl; rewrite Ht1, <- ?app_assoc; eauto.
Qed.

Lemma conclude_trace_grows m c : exists t, trace (conclude (exec m c)) = trace c ++ t.
Proof.
  destruct (exec_trace_grows m c) as [t Ht].
  destruct (exec m c) as [c1 o]. simpl in *.
  destruct o; simpl; rewrite Ht, <- ?app_assoc; eauto.
Qed.

Lemma escape_trace_grows m c : exists t, trace (escape (exec m c)) = trace c ++ t.
Proof.
  destruct (exec_trace_grows m c) as [t Ht].
  destruct (exec m c) as [c1 o]. simpl in *.
  destruct o; simpl; rewrite Ht, <- ?app_assoc; eauto.
Qed.

Lemma deliver_trace_grows id o c c' :
  deliver id o c = Some c' -> exists t, trace c' = trace c ++ t.
Proof.
  unfold deliver. destruct (take id (inflight c)) as [[[b h] rest] |]; [| discriminate].
  destruct h as [cb | cb k].
  - intros H. inversion H; subst.
    destruct (escape_trace_grows (cb (reply_of b id o))
                (log (Replied id (reply_of b id o)) (set_inflight rest c))) as [t Ht].
    rewrite Ht. simpl. rewrite <- app_assoc. eauto.
  - set (c0 := set_promise None (log (Replied id (reply_of b id o)) (set_inflight rest c))).
    destruct (escape_trace_grows (cb (reply_of b id o)) c0) as [t1 Ht1].
    destruct (promise (escape (exec (cb (reply_of b id o)) c0))) as [s |].
    + intros H. inversion H; subst.
      destruct (conclude_trace_grows (k s)
                  (set_promise None (escape (exec (cb (reply_of b id o)) c0)))) as [t2 Ht2].
      rewrite Ht2. simpl. rewrite Ht1. simpl. rewrite <- !app_assoc. eauto.
    + intros H. inversion H; subst. rewrite Ht1. simpl. rewrite <- app_assoc. eauto.
Qed.

Lemma open_channels_trace_grows n : forall c x,
  In x (trace c) -> In x (trace (open_channels n c)).
Proof.
  induction n as [| n IH]; intros c x Hx; simpl; [exact Hx |].
  destruct (next_creation c) as [id |]; [| exact Hx].
  apply IH. simpl. destruct (deliver id (Succeeds EmptyString) c) as [c' |] eqn:Hd;
    [| exact Hx].
  destruct (deliver_trace_grows _ _ _ _ Hd) as [t Ht]. rewrite Ht.
  apply in_app_iff. left. exact Hx.
Qed.

(** From a suspension with at most [n] channels to come, [S n] openings
    bring set-up to its end. *)
Lemma open_channels_fulfils n : forall c i,
  parked n i (inflight c) -> numbered c -> is_Some (rabbitConn (this c)) ->
  exists v, In (Settled (Fulfilled v)) (trace (open_channels (S n) c)).
Proof.
  induction n as [n IH] using lt_wf_ind. intros c i Hpark Hnum Hconn.
  simpl. rewrite (next_creation_parked n i c Hpark).
  destruct (take_parked n i _ Hpark) as (b & h & rest & Ht & Hw & Hrest & Hbound).
  simpl in Hw. destruct b; try (destruct Hw; fail). destruct h as [cb | cb k]; [destruct Hw |].
  destruct Hw as (_ & [channelName ->] & Hk).
  simpl. unfold deliver. rewrite Ht. cbn.
  set (c1 := set_promise None _).
  assert (H1 : Forall idle (inflight c1)) by exact Hrest.
  assert (H2 : numbered c1) by (apply (Hbound (next_id c)); exact Hnum).
  assert (H3 : is_Some (rabbitConn (this c1))) by exact Hconn.
  destruct (exec_steady n _ (Hk i) c1 H1 H2 H3) as (Hthis & Hnum' & Ho).
  destruct (exec (k (Fulfilled (VChannel i))) c1) as [c2 o]. simpl in *.
  destruct o as [v | e |]; simpl.
  - exists v. apply open_channels_trace_grows. simpl. apply In_snoc. auto.
  - destruct Ho.
  - destruct Ho as (n' & i' & -> & Hpark').
    apply (IH n' ltac:(lia) c2 i' Hpark' Hnum'). rewrite Hthis. exact Hconn.
Qed.

(** On an object that holds a connection, with a broker that opens every
    channel, set-up is fulfilled after at most as many openings as there are
    entries. *)
Lemma setupTopology_fulfils s opts :
  is_Some (rabbitConn s) ->
  exists v, In (Settled (Fulfilled v))
               (trace (open_channels (length (declared opts)) (start_topology s opts))).
Proof.
  intros Hconn. unfold start_topology. rewrite exec_spawn. cbn [fst].
  destruct (exec_steady _ _ (steady_setupTopology opts) (boot s))
    as (Hthis & Hnum & Ho); [constructor | constructor | exact Hconn |].
  destruct (exec (setupTopology opts) (boot s)) as [c1 o]. simpl in *.
  destruct o as [v | e |]; simpl.
  - exists v. apply open_channels_trace_grows. simpl. apply In_snoc. auto.
  - destruct Ho.
  - destruct Ho as (n' & i' & -> & Hpark').
    apply (open_channels_fulfils n' c1 i' Hpark' Hnum). rewrite Hthis. exact Hconn.
Qed.

Lemma run_app schedule1 schedule2 c :
  run (schedule1 ++ schedule2) c = run schedule2 (run schedule1 c).
Proof.
  revert c. induction schedule1 as [| [id o] rest IH]; intros c; simpl; [reflexivity |].
  apply IH.
Qed.

(** Opening the channels one after the other is one of the broker's
    schedules. *)
Lemma open_channels_schedule n : forall c,
  exists schedule, open_channels n c = run schedule c.
Proof.
  induction n as [| n IH]; intros c; simpl.
  - exists []. reflexivity.
  - destruct (next_creation c) as [id |]; [| exists []; reflexivity].
    destruct (IH (run [(id, Succeeds EmptyString)] c)) as [schedule Hs].
    exists ([(id, Succeeds EmptyString)] ++ schedule). rewrite run_app. exact Hs.
Qed.

(** C1. For every configuration passed to [setupTopology], on any object and
    whatever the broker answers, the assertions that reach the broker are an
    initial part of: the exchanges, then the queues, then the bindings, each
    list in its given order; when [setupTopology] is fulfilled they are all
    of them; and on an object that holds a connection there is a run of the
    broker in which [setupTopology] is fulfilled. *)
Theorem setupTopology_asserts_in_order (s : ZeroRabbit) (opts : Opts.t) :
  (forall schedule : list (nat * BrokerOutcome),
     let c := run schedule (start_topology s opts) in
     asserted (trace c) `prefix_of` declared opts /\
     (forall v, In (Settled (Fulfilled v)) (trace c) -> asserted (trace c) = declared opts)) /\
  (is_Some (rabbitConn s) ->
   exists schedule v,
     In (Settled (Fulfilled v)) (trace (run schedule (start_topology s opts)))).
Proof.
  split.
  - intros schedule. simpl.
    destruct (topology_reachable s opts schedule)
      as [(rem & Hsus & Hdecls & Hnone) | (Hidle & Hpre & Hful & Hrej)].
    + split.
      * rewrite <- Hdecls. apply prefix_app_r. reflexivity.
      * intros v Hv. destruct (Hnone _ Hv).
    + split; [exact Hpre | exact Hful].
  - intros Hconn.
    destruct (setupTopology_fulfils s opts Hconn) as [v Hv].
    destruct (open_channels_schedule (length (declared opts)) (start_topology s opts))
      as [schedule Hs].
    exists schedule, v. rewrite <- Hs. exact Hv.
Qed.

(** ** What set-up waits for *)

(** C3, as stated, fails: with three queues on one channel, once the channel
    is open the three assertions are handed to the broker in one go, and all
    three are in flight together. *)
Lemma three_assertions_in_flight :
  let c := run [(0, Succeeds "")] (start_topology connected three_queues) in
  outstanding c = [AssertQueue 0 "q1" NoOptions; AssertQueue 0 "q2" NoOptions;
                   AssertQueue 0 "q3" NoOptions] /\
  length (filter is_assertion (outstanding c)) = 3 /\
  (forall id r, In (Replied id r) (trace c) -> id = 0).
Proof.
  vm_compute. split; [reflexivity |]. split; [reflexivity |].
  intros id r H.
  repeat (destruct H as [H | H]; [inversion H; subst; reflexivity |]).
  destruct H.
Qed.

(** C3, amended.  Set-up waits for channels, not for assertions: at any
    time at most one channel creation of the set-up is in flight; the answer
    to any other outstanding request makes no new library call, so a request
    is only ever issued at the start or when the awaited channel arrives;
    and the assertions are issued in the order of the entries. *)
Theorem setupTopology_waits_for_channels (s : ZeroRabbit) (opts : Opts.t)
    (schedule : list (nat * BrokerOutcome)) :
  let c := run schedule (start_topology s opts) in
  length (filter is_creation (outstanding c)) <= 1 /\
  (forall id b o c',
      awaited c id = Some b -> is_creation b = false -> deliver id o c = Some c' ->
      broker_calls (trace c') = broker_calls (trace c)) /\
  asserted (trace c) `prefix_of` declared opts.
Proof.
  simpl. set (c := run schedule (start_topology s opts)).
  pose proof (topology_reachable s opts schedule) as Hinv. fold c in Hinv.
  split; [| split].
  - unfold outstanding.
    destruct Hinv as [(rem & Hsus & _) | (Hidle & _)].
    + rewrite (suspended_one_creation rem _ Hsus). reflexivity.
    + rewrite (idle_no_creations _ Hidle). simpl. lia.
  - intros id b o c' Haw Hb Hd. unfold awaited in Haw.
    destruct (take id (inflight c)) as [[[b0 h] rest] |] eqn:Ht; [| discriminate].
    inversion Haw; subst b0.
    assert (Hi : idle (id, b, h)).
    { destruct Hinv as [(rem & Hsus & _) | (Hidle & _)].
      - destruct (take_suspended rem _ Hsus _ _ _ _ Ht) as [[Hi _] | [Hw _]];
          [exact Hi |].
        apply waiting_creation in Hw. simpl in Hw. congruence.
      - apply (take_idle _ Hidle _ _ _ _ Ht). }
    destruct (deliver_idle c id o b h rest Ht Hi) as (c2 & Hd2 & _ & _ & Hcalls & _).
    congruence.
  - apply (setupTopology_order_prefix s opts schedule).
Qed.

(** ** Failures during set-up *)

(** C2, as stated, fails: with three queues on one channel the three
    assertions are issued before any answer is handled; when the broker
    then refuses the second one, the third has been attempted, the promise
    of [setupTopology] is fulfilled and never rejected, and the error leaves
    the library callback with a message that names neither queue nor
    channel. *)
Lemma failed_assertion_does_not_abort :
  let c := run [(0, Succeeds ""); (2, Fails "PRECONDITION_FAILED")]
               (start_topology connected three_queues) in
  In (Issued 2 (AssertQueue 0 "q2" NoOptions)) (trace c) /\
  In (Replied 2 (Failure "PRECONDITION_FAILED")) (trace c) /\
  In (Issued 3 (AssertQueue 0 "q3" NoOptions)) (trace c) /\
  In (Settled (Fulfilled VUndefined)) (trace c) /\
  (forall e, ~ In (Settled (Rejected e)) (trace c)) /\
  In (Uncaught (Error "Error in ZeroRabbit.assertQueue(): PRECONDITION_FAILED")) (trace c).
Proof.
  vm_compute. repeat split; try tauto.
  intros e H.
  repeat (destruct H as [H | H]; [discriminate H |]).
  destruct H.
Qed.

Lemma deliver_idle_fails c id err b h rest :
  take id (inflight c) = Some (b, h, rest) ->
  idle (id, b, h) ->
  exists c', deliver id (Fails err) c = Some c' /\
    trace c' = trace c ++ [Replied id (Failure err); Uncaught (assertion_error b err)] /\
    this c' = this c /\ inflight c' = rest.
Proof.
  intros Ht Hidle. unfold deliver. rewrite Ht.
  destruct h as [cb | cb k]; [| destruct Hidle].
  destruct Hidle as [_ [_ Hfail]].
  simpl. rewrite Hfail. simpl.
  eexists. split; [reflexivity |]. cbn. rewrite <- app_assoc. auto.
Qed.

(** *** An object without a connection *)

Lemma offline_bind (Q Q' : Value -> Prop) m f :
  offline Q m -> (forall v, Q v -> offline Q' (f v)) -> offline Q' (bind m f).
Proof.
  intros H Hf. induction H; simpl; try (constructor; auto; fail); auto.
Qed.

Lemma offline_getChannel channelName : offline a_channel (getChannel channelName None).
Proof.
  unfold getChannel. constructor. intros s Hs.
  destruct (decide (Map_get (channels s) channelName = VUndefined)) as [Hu | Hu].
  - simpl. constructor. intros s' Hs'. rewrite Hs'. simpl. apply offline_fail.
  - simpl. constructor. constructor. exact Hu.
Qed.

Lemma offline_assertion (b : nat -> BrokerCall) cb channelName method :
  (forall c, is_Some (assertion (b c))) ->
  (forall c, assertion_callback (b c) cb) ->
  offline anything
    (let! ch := getChannel channelName None in
     on_channel ch method (fun c => Request (b c) cb skip)).
Proof.
  intros Hb Hcb.
  apply (offline_bind a_channel anything _ _ (offline_getChannel channelName)).
  intros ch Hch. destruct ch as [| c]; [destruct Hch; reflexivity |].
  simpl. constructor; [apply Hb | apply Hcb | constructor; exact I].
Qed.

Lemma offline_asyncForEach_from {A} (array : list A) callback rest :
  (forall x index, offline anything (callback x index array)) ->
  forall index, offline anything (asyncForEach_from array callback index rest).
Proof.
  intros Hcb. induction rest as [| x rest IH]; intros index; simpl.
  - constructor. exact I.
  - apply (offline_bind anything anything); [apply Hcb |]. intros _ _. apply IH.
Qed.

Lemma offline_setupTopology opts : offline anything (setupTopology opts).
Proof.
  unfold setupTopology.
  apply (offline_bind anything anything).
  { destruct (Opts.exchanges opts) as [l |]; simpl; [| constructor; exact I].
    apply offline_asyncForEach_from. intros x index.
    apply (offline_assertion (fun c => AssertExchange c _ _ _)); intros c;
      [simpl; eauto | apply assertExchange_callback_quiet]. }
  intros _ _. apply (offline_bind anything anything).
  { destruct (Opts.queues opts) as [l |]; simpl; [| constructor; exact I].
    apply offline_asyncForEach_from. intros x index.
    apply (offline_assertion (fun c => AssertQueue c _ _)); intros c;
      [simpl; eauto | apply assertQueue_callback_quiet]. }
  intros _ _.
  destruct (Opts.bindings opts) as [l |]; simpl; [| constructor; exact I].
  apply offline_asyncForEach_from. intros x index.
  apply (offline_assertion (fun c => BindQueue c _ _ _ _)); intros c;
    [simpl; eauto | apply bindQueue_callback_quiet].
Qed.

(** Without a connection such code never waits; what it throws is
    [not_connected]. *)
Lemma exec_offline (Q : Value -> Prop) m :
  offline Q m ->
  forall c, rabbitConn (this c) = None -> Forall idle (inflight c) ->
  Forall idle (inflight (exec m c).1) /\
  (forall s, In (Settled s) (trace (exec m c).1) -> In (Settled s) (trace c)) /\
  match (exec m c).2 with
  | Returned _ => True
  | Thrown e => e = not_connected
  | Suspended => False
  end.
Proof.
  induction 1 as [v Hv | | k Hk IH | line k Hk IH | b cb k Hb Hcb Hk IH];
    intros c Hconn Hidle; simpl.
  - auto.
  - auto.
  - apply IH; auto.
  - destruct (IH (log (Did (Debug line)) c) Hconn Hidle) as (H1 & H2 & H3).
    split; [exact H1 |]. split; [| exact H3].
    intros s Hs. apply H2 in Hs. simpl in Hs. apply In_snoc in Hs.
    destruct Hs as [Hs | Hs]; [exact Hs | discriminate].
  - destruct (IH (issue b (OnReply cb) c) Hconn) as (H1 & H2 & H3).
    { simpl. apply Forall_app. split; [exact Hidle |].
      constructor; [| constructor]. simpl. auto. }
    split; [exact H1 |]. split; [| exact H3].
    intros s Hs. apply H2 in Hs. simpl in Hs. apply In_snoc in Hs.
    destruct Hs as [Hs | Hs]; [exact Hs | discriminate].
Qed.

(** On an object without a connection set-up is over at once, and it is
    rejected only with [not_connected]. *)
Lemma offline_rejections (s : ZeroRabbit) (opts : Opts.t)
    (schedule : list (nat * BrokerOutcome)) (e : Exn) :
  rabbitConn s = None ->
  In (Settled (Rejected e)) (trace (run schedule (start_topology s opts))) ->
  e = not_connected.
Proof.
  intros Hconn He. unfold start_topology in He. rewrite exec_spawn in He. cbn [fst] in He.
  destruct (exec_offline anything _ (offline_setupTopology opts) (boot s) Hconn)
    as (Hidle & Hset & Ho); [constructor |].
  destruct (exec (setupTopology opts) (boot s)) as [c1 o]. cbn [fst snd] in *.
  assert (Hidle' : Forall idle (inflight (conclude (c1, o)))) by (destruct o; exact Hidle).
  apply (proj2 (proj2 (idle_run schedule _ Hidle'))) in He.
  destruct o as [v | e' |]; cbn [conclude log trace] in He.
  - apply In_snoc in He. destruct He as [He | He]; [| discriminate].
    apply Hset in He. destruct He.
  - apply In_snoc in He. destruct He as [He | He].
    + apply Hset in He. destruct He.
    + inversion He. congruence.
  - destruct Ho.
Qed.

(** *** An object with a connection *)

Lemma refused_channel_app t1 t2 e : refused_channel t1 e -> refused_channel (t1 ++ t2) e.
Proof.
  intros (id & conn & err & H1 & H2 & H3). exists id, conn, err.
  repeat split; auto; apply in_app_iff; auto.
Qed.

Lemma accounted_app c c' t :
  trace c' = trace c ++ t -> inflight c' = inflight c -> accounted c -> accounted c'.
Proof.
  unfold accounted. intros Ht Hin H. rewrite Hin, Ht.
  eapply Forall_impl; [exact H |]. intros x Hx. apply in_app_iff. auto.
Qed.

Lemma accounted_issue b h c : accounted c -> accounted (issue b h c).
Proof.
  unfold accounted. intros H. cbn [issue inflight trace]. apply Forall_app. split.
  - eapply Forall_impl; [exact H |]. intros x Hx. apply in_app_iff. auto.
  - constructor; [| constructor]. cbn. apply in_app_iff. right. left. reflexivity.
Qed.

(** Running code keeps every outstanding request in the log. *)
Lemma exec_accounted m : forall c, accounted c -> accounted (exec m c).1.
Proof.
  induction m as [v | e | k IH | s k IH | ev k IH | b cb IHcb k IH | b cb IHcb k IH
                  | v k IH | e k IH | m' IHm k IH]; intros c Hc; cbn [exec fst].
  - exact Hc.
  - exact Hc.
  - apply IH. exact Hc.
  - apply IH. exact Hc.
  - apply IH. apply (accounted_app c _ [Did ev]); auto.
  - apply IH. apply accounted_issue. exact Hc.
  - apply accounted_issue. exact Hc.
  - apply IH. exact Hc.
  - apply IH. exact Hc.
  - apply IH. specialize (IHm c Hc).
    destruct (exec m' c) as [c1 o]. cbn [fst] in IHm.
    destruct o; cbn [conclude]; try exact IHm;
      eapply (accounted_app c1 _ [_]); eauto.
Qed.

Lemma take_In id l b h rest :
  take id l = Some (b, h, rest) -> In (id, b, h) l.
Proof.
  revert rest. induction l as [| [[i b0] h0] l IH]; intros rest Ht; cbn [take] in Ht.
  - discriminate.
  - destruct (Nat.eqb i id) eqn:E.
    + apply Nat.eqb_eq in E. inversion Ht; subst. left. reflexivity.
    + destruct (take id l) as [[[b' h'] rest'] |]; [| discriminate].
      inversion Ht; subst. right. eapply IH. reflexivity.
Qed.

Lemma take_Forall (P : nat * BrokerCall * Handler -> Prop) id l b h rest :
  take id l = Some (b, h, rest) -> Forall P l -> Forall P rest.
Proof.
  revert rest. induction l as [| [[i b0] h0] l IH]; intros rest Ht HP; cbn [take] in Ht.
  - discriminate.
  - inversion HP as [| ? ? Hx Hl]; subst.
    destruct (Nat.eqb i id).
    + inversion Ht; subst. exact Hl.
    + destruct (take id l) as [[[b' h'] rest'] |]; [| discriminate].
      inversion Ht; subst. constructor; [exact Hx |]. eapply IH; eauto.
Qed.

Lemma take_suspended_parked rem n i l :
  suspended rem l -> parked n i l ->
  forall id b h rest, take id l = Some (b, h, rest) ->
  (idle (id, b, h) /\ suspended rem rest /\ parked n i rest)
  \/ (waiting rem (id, b, h) /\ awaited_channel n i (id, b, h) /\ Forall idle rest).
Proof.
  induction 1 as [[[j b0] h0] Hx | [[j b0] h0] l Hx Hl IH];
    intros Hp id b h rest Ht; cbn [take] in Ht.
  - destruct (Nat.eqb j id) eqn:E; [| discriminate].
    apply Nat.eqb_eq in E. inversion Ht; subst. right.
    inversion Hp as [x Ha | x l' Hi Hlt Hp']; subst; [auto | inversion Hp'].
  - inversion Hp as [x Ha | x l' Hi Hlt Hp']; subst; [inversion Hl |].
    destruct (Nat.eqb j id) eqn:E.
    + apply Nat.eqb_eq in E. inversion Ht; subst. left. auto.
    + destruct (take id l) as [[[b' h'] rest'] |] eqn:E'; [| discriminate].
      inversion Ht; subst.
      destruct (IH Hp' _ _ _ _ E') as [(H1 & H2 & H3) | (H1 & H2 & H3)].
      * left. split; [exact H1 |]. split; [apply suspended_cons; auto |].
        apply parked_cons; auto.
      * right. split; [exact H1 |]. split; [exact H2 |]. constructor; auto.
Qed.

(** Set-up starts, or goes on after a channel has arrived. *)
Lemma conclude_online conn rem n m c :
  chain anything rem m -> steady anything n m ->
  rabbitConn (this c) = Some conn -> numbered c -> accounted c ->
  Forall idle (inflight c) ->
  (forall e, In (Settled (Rejected e)) (trace c) -> refused_channel (trace c) e) ->
  online_invariant conn (conclude (exec m c)).
Proof.
  intros Hchain Hsteady Hconn Hnum Hacc Hidle Hrej.
  assert (Hsome : is_Some (rabbitConn (this c))) by (rewrite Hconn; eauto).
  destruct (exec_chain rem m Hchain c Hidle) as (p & _ & Hset & Hc).
  destruct (exec_steady n m Hsteady c Hidle Hnum Hsome) as (Hthis & Hnum' & Hs).
  pose proof (exec_accounted m c Hacc) as Hacc'.
  destruct (exec_trace_grows m c) as [t Ht].
  destruct (exec m c) as [c1 o]. cbn [fst snd] in *.
  assert (Hrej1 : forall e, In (Settled (Rejected e)) (trace c1) ->
                            refused_channel (trace c1) e).
  { intros e He. rewrite Ht. apply refused_channel_app, Hrej, Hset. exact He. }
  destruct o as [v | e |]; cbn [conclude].
  - split; [cbn; rewrite Hthis; exact Hconn |]. split; [exact Hnum' |].
    split; [apply (accounted_app c1 _ [Settled (Fulfilled v)]); auto |].
    split; [left; exact Hs |].
    intros e He. cbn [log trace] in *. apply In_snoc in He.
    destruct He as [He | He]; [| discriminate].
    apply refused_channel_app, Hrej1. exact He.
  - destruct Hs.
  - destruct Hc as (rem' & _ & Hsus). destruct Hs as (n' & i & _ & Hpark).
    split; [rewrite Hthis; exact Hconn |]. split; [exact Hnum' |].
    split; [exact Hacc' |]. split; [right; eauto |]. exact Hrej1.
Qed.

(** An answer to an outstanding assertion, in full. *)
Lemma deliver_idle_keeps c id o b h rest :
  take id (inflight c) = Some (b, h, rest) ->
  idle (id, b, h) ->
  exists c' t, deliver id o c = Some c' /\
    this c' = this c /\ inflight c' = rest /\ next_id c' = next_id c /\
    trace c' = trace c ++ t /\
    (forall s, In (Settled s) (trace c') -> In (Settled s) (trace c)).
Proof.
  intros Ht Hidle.
  destruct (deliver_idle c id o b h rest Ht Hidle) as (c' & Hd & Hthis & Hin & _ & Hset).
  destruct (deliver_trace_grows _ _ _ _ Hd) as [t Htr].
  exists c', t. repeat split; auto.
  - unfold deliver in Hd. rewrite Ht in Hd.
    destruct h as [cb | cb k]; [| destruct Hidle].
    destruct Hidle as [_ [Hq _]]. inversion Hd; subst c'.
    destruct (escape_quiet (cb (reply_of b id o))
                (log (Replied id (reply_of b id o)) (set_inflight rest c)) (Hq _))
      as (_ & _ & H3 & _). exact H3.
  - intros s Hs. apply Hset. exact Hs.
Qed.

Lemma online_invariant_deliver conn c id o c' :
  online_invariant conn c -> deliver id o c = Some c' -> online_invariant conn c'.
Proof.
  intros (Hconn & Hnum & Hacc & Hshape & Hrej) Hd.
  destruct (take id (inflight c)) as [[[b h] rest] |] eqn:Ht;
    [| unfold deliver in Hd; rewrite Ht in Hd; discriminate].
  assert (Hidle_case : idle (id, b, h) ->
            (Forall idle rest \/ exists rem n i, suspended rem rest /\ parked n i rest) ->
            online_invariant conn c').
  { intros Hi Hrest.
    destruct (deliver_idle_keeps c id o b h rest Ht Hi)
      as (c2 & t & Hd2 & Hthis & Hin & Hid & Htr & Hset).
    rewrite Hd in Hd2. inversion Hd2; subst c2.
    split; [rewrite Hthis; exact Hconn |].
    split; [unfold numbered in *; rewrite Hin, Hid; eapply take_Forall; eauto |].
    split; [unfold accounted in *; rewrite Hin, Htr;
            eapply Forall_impl; [eapply take_Forall; eauto |];
            intros x Hx; apply in_app_iff; auto |].
    split; [rewrite Hin; exact Hrest |].
    intros e He. rewrite Htr. apply refused_channel_app, Hrej, Hset. exact He. }
  destruct Hshape as [Hidle | (rem & n & i & Hsus & Hpark)].
  - destruct (take_idle _ Hidle _ _ _ _ Ht) as [Hi Hrest]. auto.
  - destruct (take_suspended_parked rem n i _ Hsus Hpark _ _ _ _ Ht)
      as [(Hi & H1 & H2) | (Hw & Ha & Hrest)]; [apply Hidle_case; eauto 6 |].
    pose proof (take_In _ _ _ _ _ Ht) as Hentry.
    assert (Hissued : In (Issued id b) (trace c)).
    { unfold accounted in Hacc. rewrite List.Forall_forall in Hacc.
      apply (Hacc _ Hentry). }
    unfold deliver in Hd. rewrite Ht in Hd.
    destruct b; try (destruct Hw; fail).
    destruct h as [cb | cb k]; [destruct Hw |].
    destruct Hw as ([channelName ->] & Hfail & Hk).
    destruct Ha as (_ & _ & Hsteady).
    destruct o as [err | info].
    + cbn in Hd. rewrite Hfail in Hd. cbn in Hd. inversion Hd; subst c'.
      unfold online_invariant, numbered, accounted.
      cbn [log set_promise settle set_this set_inflight trace inflight this rabbitConn
           next_id].
      split; [exact Hconn |].
      split; [eapply take_Forall; eauto |].
      split; [eapply Forall_impl; [eapply take_Forall; eauto |];
              intros x Hx; cbn in Hx |- *; rewrite <- app_assoc; apply in_app_iff; auto |].
      split; [left; exact Hrest |].
      intros e He. apply In_snoc in He. destruct He as [He | He].
      * apply In_snoc in He. destruct He as [He | He]; [| discriminate].
        rewrite <- app_assoc. apply refused_channel_app, Hrej. exact He.
      * inversion He. subst e. exists id, conn0, err. repeat split.
        -- rewrite <- app_assoc. apply in_app_iff. left. exact Hissued.
        -- rewrite <- app_assoc. apply in_app_iff. right. left. reflexivity.
    + cbn in Hd. inversion Hd; subst c'.
      apply (conclude_online conn rem n (k (Fulfilled (VChannel id))) _ (Hk id) (Hsteady id)).
      * exact Hconn.
      * unfold numbered in *. cbn. eapply take_Forall; eauto.
      * unfold accounted in *. cbn.
        eapply Forall_impl; [eapply take_Forall; eauto |].
        intros x Hx. cbn in Hx |- *. apply in_app_iff. auto.
      * exact Hrest.
      * intros e He. cbn in He |- *. apply In_snoc in He.
        destruct He as [He | He]; [| discriminate].
        apply refused_channel_app, Hrej. exact He.
Qed.

Lemma online_invariant_run conn schedule :
  forall c, online_invariant conn c -> online_invariant conn (run schedule c).
Proof.
  induction schedule as [| [id o] schedule IH]; intros c Hinv; simpl.
  - exact Hinv.
  - apply IH. destruct (deliver id o c) as [c' |] eqn:Hd.
    + eapply online_invariant_deliver; eauto.
    + exact Hinv.
Qed.

(** On an object with a connection set-up is rejected only for a channel
    that the broker refused. *)
Lemma online_rejections (s : ZeroRabbit) (opts : Opts.t) (conn : nat)
    (schedule : list (nat * BrokerOutcome)) (e : Exn) :
  rabbitConn s = Some conn ->
  In (Settled (Rejected e)) (trace (run schedule (start_topology s opts))) ->
  refused_channel (trace (run schedule (start_topology s opts))) e.
Proof.
  intros Hconn.
  assert (Hinv : online_invariant conn (run schedule (start_topology s opts))).
  { apply online_invariant_run. unfold start_topology. rewrite exec_spawn. cbn [fst].
    apply (conclude_online conn (declared opts) (length (declared opts)));
      [apply chain_setupTopology | apply steady_setupTopology | exact Hconn
      | constructor | constructor | constructor | intros e' []]. }
  apply Hinv.
Qed.
(** C2, amended.  What stops set-up is a channel that cannot be made.  When
    the broker refuses the channel creation that set-up waits for, no
    further assertion is ever issued and [setupTopology] is rejected with an
    [Error] whose message is [Error creating channel: ] followed by the
    broker's error.  A refused assertion stops nothing: its callback throws
    an [Error] made of the method's prefix and the broker's error out of the
    library callback, and the other requests stay outstanding.  And in every
    run, whatever is outstanding, [setupTopology] has been rejected only for
    a channel creation that the broker refused, with that error, or, on an
    object that holds no connection, with the error made from the
    [TypeError] of reading [createConfirmChannel] of [undefined]. *)
Theorem setupTopology_failures (s : ZeroRabbit) (opts : Opts.t)
    (schedule : list (nat * BrokerOutcome)) :
  let c := run schedule (start_topology s opts) in
  (forall id b err later,
     awaited c id = Some b -> is_creation b = true ->
     let c' := run ((id, Fails err) :: later) c in
     asserted (trace c') = asserted (trace c) /\
     In (Settled (Rejected (creation_error err))) (trace c')) /\
  (forall id b err,
     awaited c id = Some b -> is_creation b = false ->
     exists c', deliver id (Fails err) c = Some c' /\
       trace c' = trace c ++ [Replied id (Failure err); Uncaught (assertion_error b err)] /\
       this c' = this c /\
       outstanding c' = others c id) /\
  (forall e,
     In (Settled (Rejected e)) (trace c) ->
     refused_channel (trace c) e \/ (rabbitConn s = None /\ e = not_connected)).
Proof.
  simpl. set (c := run schedule (start_topology s opts)).
  pose proof (topology_reachable s opts schedule) as Hinv. fold c in Hinv.
  split; [| split].
  - intros id b err later Haw Hb. unfold awaited in Haw.
    destruct (take id (inflight c)) as [[[b0 h] rest] |] eqn:Ht; [| discriminate].
    inversion Haw; subst b0. clear Haw.
    destruct Hinv as [(rem & Hsus & _) | (Hidle & _)].
    + destruct (take_suspended rem _ Hsus _ _ _ _ Ht) as [[Hi _] | [Hw Hrest]].
      { apply idle_not_creation in Hi. simpl in Hi. congruence. }
      destruct (deliver_waiting_fails c id err b h rest rem Ht Hw) as (c1 & Hd & Hin & Htr).
      rewrite Hd. rewrite <- Hin in Hrest.
      destruct (idle_run later c1 Hrest) as (_ & Hcalls & Hset).
      split.
      * unfold asserted. rewrite Hcalls, Htr, broker_calls_app. simpl.
        rewrite app_nil_r. reflexivity.
      * apply Hset. rewrite Htr. apply in_app_iff. right. simpl. auto.
    + destruct (take_idle _ Hidle _ _ _ _ Ht) as [Hi _].
      apply idle_not_creation in Hi. simpl in Hi. congruence.
  - intros id b err Haw Hb. unfold awaited in Haw.
    destruct (take id (inflight c)) as [[[b0 h] rest] |] eqn:Ht; [| discriminate].
    inversion Haw; subst b0. clear Haw.
    assert (Hi : idle (id, b, h)).
    { destruct Hinv as [(rem & Hsus & _) | (Hidle & _)].
      - destruct (take_suspended rem _ Hsus _ _ _ _ Ht) as [[Hi _] | [Hw _]];
          [exact Hi |].
        apply waiting_creation in Hw. simpl in Hw. congruence.
      - apply (take_idle _ Hidle _ _ _ _ Ht). }
    destruct (deliver_idle_fails c id err b h rest Ht Hi) as (c1 & Hd & Htr & Hthis & Hin).
    exists c1. repeat split; auto.
    unfold others, outstanding. rewrite Ht, Hin. reflexivity.
  - intros e He. destruct (rabbitConn s) as [conn |] eqn:Hconn.
    + left. apply (online_rejections s opts conn schedule e Hconn He).
    + right. split; [reflexivity |].
      apply (offline_rejections s opts schedule e Hconn He).
Qed.

(** The theorem at work: the refused channel of [three_queues], the refused
    second queue, and the two ways in which set-up is rejected. *)
Lemma setupTopology_failures_witness :
  (awaited (run [] (start_topology connected three_queues)) 0
     = Some (CreateConfirmChannel 7) /\
   asserted (trace (run [(0, Fails "CHANNEL_MAX")] (start_topology connected three_queues)))
     = [] /\
   In (Settled (Rejected (Error "Error creating channel: CHANNEL_MAX")))
      (trace (run [(0, Fails "CHANNEL_MAX")] (start_topology connected three_queues)))) /\
  (awaited (run [(0, Succeeds "")] (start_topology connected three_queues)) 2
     = Some (AssertQueue 0 "q2" NoOptions) /\
   exists c', deliver 2 (Fails "PRECONDITION_FAILED")
                (run [(0, Succeeds "")] (start_topology connected three_queues)) = Some c' /\
     outstanding c' = [AssertQueue 0 "q1" NoOptions; AssertQueue 0 "q3" NoOptions]) /\
  refused_channel
    (trace (run [(0, Fails "CHANNEL_MAX")] (start_topology connected three_queues)))
    (Error "Error creating channel: CHANNEL_MAX") /\
  In (Settled (Rejected not_connected))
     (trace (run [] (start_topology new_ZeroRabbit three_queues))).
Proof.
  split; [| split; [| split]].
  - split; [reflexivity |].
    exact (proj1 (setupTopology_failures connected three_queues []) 0
             (CreateConfirmChannel 7) "CHANNEL_MAX" [] eq_refl eq_refl).
  - split; [reflexivity |].
    destruct (proj1 (proj2 (setupTopology_failures connected three_queues [(0, Succeeds "")]))
                2 (AssertQueue 0 "q2" NoOptions) "PRECONDITION_FAILED" eq_refl eq_refl)
      as (c' & Hd & _ & _ & Hout).
    exists c'. split; [exact Hd | exact Hout].
  - destruct (proj2 (proj2 (setupTopology_failures connected three_queues
                              [(0, Fails "CHANNEL_MAX")]))
                (Error "Error creating channel: CHANNEL_MAX"))
      as [H | [H _]]; [| exact H | discriminate H].
    vm_compute. right. right. left. reflexivity.
  - vm_compute. left. reflexivity.
Defined.

(** ** The registry *)

Lemma getChannel_found c channelName ch :
  Map_get (channels (this c)) channelName = VChannel ch ->
  exec (getChannel channelName None) c
  = (log (Did (Debug "Retrieved confirm channel from this.channels")) c,
     Returned (VChannel ch)).
Proof.
  intros Hget. unfold getChannel. simpl. rewrite Hget.
  destruct (decide (VChannel ch = VUndefined)) as [H | _]; [discriminate H |].
  reflexivity.
Qed.

(** The first call for a name that is not registered: one request to the
    broker, and the caller is suspended. *)
Lemma getChannel_missing c channelName conn :
  Map_get (channels (this c)) channelName = VUndefined ->
  rabbitConn (this c) = Some conn ->
  exists k,
    exec (getChannel channelName None) c
    = (issue (CreateConfirmChannel conn)
             (OnSettle (createConfirmChannel_callback channelName) k) c, Suspended) /\
    (forall ch, k (Fulfilled (VChannel ch))
                = Emit (Debug ("Created confirm channel: " +:+ channelName))
                       (Ret (VChannel ch))) /\
    (forall err, k (Rejected (Raised err)) = Throw (creation_error err)).
Proof.
  intros Hget Hconn. unfold getChannel. simpl. rewrite Hget.
  destruct (decide (VUndefined = VUndefined)) as [_ | H]; [| destruct H; reflexivity].
  simpl. rewrite Hconn. simpl.
  eexists. split; [reflexivity |]. split; intros; reflexivity.
Qed.

(** C4. [getChannel(name)] returns the channel stored under the name when
    there is one, without a library call.  For a name that is not
    registered, on an object that holds a connection, it asks the broker for
    one confirm channel on that connection; when the broker opens it, the
    channel is stored under the name and the call returns it; a second call
    then returns the same channel, and the broker has seen exactly one
    request. *)
Theorem getChannel_get_or_create (s : ZeroRabbit) (channelName : string)
    (conn : nat) (info : string) :
  rabbitConn s = Some conn ->
  Map_get (channels s) channelName = VUndefined ->
  let c1 := fst (exec (spawn (getChannel channelName None)) (boot s)) in
  let c2 := run [(0, Succeeds info)] c1 in
  let second := exec (getChannel channelName None) c2 in
  (forall c ch, Map_get (channels (this c)) channelName = VChannel ch ->
     exec (getChannel channelName None) c
     = (log (Did (Debug "Retrieved confirm channel from this.channels")) c,
        Returned (VChannel ch))) /\
  broker_calls (trace c1) = [CreateConfirmChannel conn] /\
  outstanding c1 = [CreateConfirmChannel conn] /\
  In (Settled (Fulfilled (VChannel 0))) (trace c2) /\
  channels (this c2) = <[channelName := VChannel 0]> (channels s) /\
  snd second = Returned (VChannel 0) /\
  this (fst second) = this c2 /\
  broker_calls (trace (fst second)) = [CreateConfirmChannel conn] /\
  outstanding (fst second) = [].
Proof.
  intros Hconn Hget c1 c2 second.
  split; [intros c ch; apply getChannel_found |].
  destruct (getChannel_missing (boot s) channelName conn Hget Hconn) as (k & Hex & Hk & _).
  assert (Hc1 : c1 = issue (CreateConfirmChannel conn)
                           (OnSettle (createConfirmChannel_callback channelName) k) (boot s)).
  { unfold c1. rewrite exec_spawn, Hex. reflexivity. }
  assert (Hc2 : trace c2 = [Issued 0 (CreateConfirmChannel conn); Replied 0 (Opened 0);
                            Did (Debug ("Created confirm channel: " +:+ channelName));
                            Settled (Fulfilled (VChannel 0))] /\
                this c2 = {| rabbitConn := rabbitConn s;
                             channels := <[channelName := VChannel 0]> (channels s);
                             consumerTags := consumerTags s |} /\
                inflight c2 = []).
  { unfold c2. rewrite Hc1. cbn. rewrite Hk. cbn. auto. }
  destruct Hc2 as (Htr & Hthis & Hin).
  assert (Hsecond : second = (log (Did (Debug "Retrieved confirm channel from this.channels")) c2,
                              Returned (VChannel 0))).
  { unfold second. apply getChannel_found. rewrite Hthis. cbn.
    unfold Map_get. rewrite lookup_insert_eq. reflexivity. }
  clearbody second c2 c1. subst second c1. unfold outstanding. cbn.
  rewrite Htr, Hin, Hthis. cbn. repeat split; auto 10.
Qed.

Lemma getChannel_get_or_create_witness :
  rabbitConn connected = Some 7 /\
  Map_get (channels connected) "events" = VUndefined /\
  channels (this (run [(0, Succeeds "")]
                      (fst (exec (spawn (getChannel "events" None)) (boot connected)))))
  = <["events" := VChannel 0]> (channels connected).
Proof.
  split; [reflexivity |]. split; [reflexivity |].
  exact (proj1 (proj2 (proj2 (proj2 (proj2
           (getChannel_get_or_create connected "events" 7 "" eq_refl eq_refl)))))).
Defined.

(** Two calls for the same unregistered name, the second made before the
    broker has answered the first: each finds the name missing and each
    asks the broker for a channel. *)
Lemma getChannel_twice_at_once (s : ZeroRabbit) (channelName : string) (conn : nat) :
  rabbitConn s = Some conn ->
  Map_get (channels s) channelName = VUndefined ->
  outstanding (fst (exec (spawn (getChannel channelName None) >>
                          spawn (getChannel channelName None)) (boot s)))
  = [CreateConfirmChannel conn; CreateConfirmChannel conn].
Proof.
  intros Hconn Hget.
  destruct (getChannel_missing (boot s) channelName conn Hget Hconn) as (k & Hex & _).
  change (exec (spawn (getChannel channelName None) >> spawn (getChannel channelName None))
               (boot s))
    with (exec (spawn (getChannel channelName None))
               (conclude (exec (getChannel channelName None) (boot s)))).
  rewrite Hex. cbn [conclude].
  rewrite exec_spawn.
  destruct (getChannel_missing
              (issue (CreateConfirmChannel conn)
                     (OnSettle (createConfirmChannel_callback channelName) k) (boot s))
              channelName conn Hget Hconn) as (k' & Hex' & _).
  rewrite Hex'. reflexivity.
Qed.

(** C5, on the code as it stands.  Two exported [getChannel] calls for the
    unregistered name [events], made one after the other without waiting:
    two channel creations reach the broker, the callers get two different
    channels, and the second channel replaces the first in the map. *)
Theorem concurrent_getChannel_creates_two_channels :
  let c1 := fst (exec (exports.getChannel (Some "events") None >>
                       exports.getChannel (Some "events") None) (boot connected)) in
  let c2 := run [(0, Succeeds ""); (1, Succeeds "")] c1 in
  outstanding c1 = [CreateConfirmChannel 7; CreateConfirmChannel 7] /\
  broker_calls (trace c2) = [CreateConfirmChannel 7; CreateConfirmChannel 7] /\
  In (Settled (Fulfilled (VChannel 0))) (trace c2) /\
  In (Settled (Fulfilled (VChannel 1))) (trace c2) /\
  channels (this c2) !! "events" = Some (VChannel 1).
Proof.
  vm_compute. repeat split; tauto.
Qed.

(** C10. When the broker refuses the confirm channel, the promise of
    [createConfirmChannelPromise] is rejected with the broker's error and
    the name is all the same stored in the channel map, with [undefined] as
    its channel; so is it when the promise is the one [getChannel] waits
    for, and [getChannel] then fails.  A name that was not in the map is in
    it afterwards. *)
Theorem failed_creation_is_stored (s : ZeroRabbit) (channelName : string)
    (conn : nat) (err : BrokerError) :
  rabbitConn s = Some conn ->
  let c := run [(0, Fails err)]
               (fst (exec (spawn (createConfirmChannelPromise channelName)) (boot s))) in
  let d := run [(0, Fails err)]
               (fst (exec (spawn (getChannel channelName None)) (boot s))) in
  trace c = [Issued 0 (CreateConfirmChannel conn); Replied 0 (Failure err);
             Settled (Rejected (Raised err))] /\
  channels (this c) = <[channelName := VUndefined]> (channels s) /\
  (Map_get (channels s) channelName = VUndefined ->
     trace d = [Issued 0 (CreateConfirmChannel conn); Replied 0 (Failure err);
                Settled (Rejected (creation_error err))] /\
     channels (this d) = <[channelName := VUndefined]> (channels s)) /\
  (channels s !! channelName = None ->
     channels (this c) !! channelName = Some VUndefined /\
     size (channels (this c)) = S (size (channels s))).
Proof.
  intros Hconn c d.
  assert (Hc : trace c = [Issued 0 (CreateConfirmChannel conn); Replied 0 (Failure err);
                          Settled (Rejected (Raised err))] /\
               channels (this c) = <[channelName := VUndefined]> (channels s)).
  { unfold c, createConfirmChannelPromise. cbn. rewrite Hconn. cbn. auto. }
  destruct Hc as [Htr Hch].
  split; [exact Htr |]. split; [exact Hch |]. split.
  - intros Hget. unfold d.
    destruct (getChannel_missing (boot s) channelName conn Hget Hconn) as (k & Hex & _ & Hk).
    rewrite exec_spawn, Hex. cbn. rewrite Hk. cbn. auto.
  - intros Hnone. rewrite Hch. split.
    + apply lookup_insert_eq.
    + apply map_size_insert_None. exact Hnone.
Qed.

Lemma failed_creation_is_stored_witness :
  rabbitConn connected = Some 7 /\
  channels (this (run [(0, Fails "CHANNEL_MAX")]
                      (fst (exec (spawn (createConfirmChannelPromise "events"))
                                 (boot connected)))))
  = <["events" := VUndefined]> (channels connected).
Proof.
  split; [reflexivity |].
  exact (proj1 (proj2 (failed_creation_is_stored connected "events" 7 "CHANNEL_MAX" eq_refl))).
Defined.

(** ** [connect] *)

(** C7, on the code as it stands.  [connect] with a callback, the broker
    refusing the connection: the callback of [amqp.connect] reads [cb], a
    name that is bound nowhere, so a [ReferenceError] leaves the library
    callback and the caller's callback is never called. *)
Theorem connect_failure_misses_callback :
  let c := run [(0, Fails "ECONNREFUSED")]
               (fst (exec (exports.connect three_queues (Some "onConnected"))
                          (boot new_ZeroRabbit))) in
  trace c = [Issued 0 (Connect (ByUrl "amqp://localhost"));
             Replied 0 (Failure "ECONNREFUSED");
             Uncaught (ReferenceError "cb is not defined")] /\
  (forall err result, ~ In (Did (Invoke "onConnected" err result)) (trace c)).
Proof.
  vm_compute. split; [reflexivity |].
  intros err result H.
  repeat (destruct H as [H | H]; [discriminate H |]).
  destruct H.
Qed.

(** The same for every configuration that passes the check, every callback
    and every broker error. *)
Lemma connect_failure_raises (opts : Opts.t) (callback : option Callback)
    (err : BrokerError) :
  supplies_connection opts <> supplies_url opts ->
  exists target,
    trace (run [(0, Fails err)] (fst (exec (connect opts callback) (boot new_ZeroRabbit))))
    = [Issued 0 (Connect target); Replied 0 (Failure err);
       Uncaught (ReferenceError "cb is not defined")].
Proof.
  intros Hne. unfold connect, supplies_connection, supplies_url in *.
  destruct (Opts.connection opts) as [d |]; cbn in *.
  - destruct (truthy_string (Opts.url opts)); [destruct Hne; reflexivity |].
    cbn. eexists. reflexivity.
  - destruct (Opts.url opts) as [u |]; cbn in *; [| destruct Hne; reflexivity].
    destruct (bool_decide (u = EmptyString)); cbn in *; [destruct Hne; reflexivity |].
    eexists. reflexivity.
Qed.

(** C8. A configuration with both a connection and a URL, or with neither,
    makes [connect] throw before anything else happens: nothing is handed to
    the broker library and nothing is changed. *)
Theorem connect_rejects_configuration (opts : Opts.t) (callback : option Callback)
    (c : Config) :
  (supplies_connection opts = true /\ supplies_url opts = true) \/
  (supplies_connection opts = false /\ supplies_url opts = false) ->
  exec (connect opts callback) c
  = (c, Thrown (if supplies_connection opts then both_supplied else none_supplied)).
Proof.
  unfold connect.
  intros [[-> ->] | [Hc ->]]; [reflexivity |].
  rewrite Hc. unfold supplies_connection in Hc.
  destruct (Opts.connection opts) as [d |]; [| reflexivity].
  cbn in Hc. discriminate Hc.
Qed.

Lemma connect_rejects_configuration_witness :
  (supplies_connection both_config = true /\ supplies_url both_config = true /\
   exec (connect both_config None) (boot new_ZeroRabbit)
   = (boot new_ZeroRabbit, Thrown both_supplied)) /\
  (supplies_connection empty_config = false /\ supplies_url empty_config = false /\
   exec (connect empty_config (Some "onConnected")) (boot new_ZeroRabbit)
   = (boot new_ZeroRabbit, Thrown none_supplied)).
Proof.
  split; (split; [reflexivity |]; split; [reflexivity |]).
  - exact (connect_rejects_configuration both_config None (boot new_ZeroRabbit)
             (or_introl (conj eq_refl eq_refl))).
  - exact (connect_rejects_configuration empty_config (Some "onConnected")
             (boot new_ZeroRabbit) (or_intror (conj eq_refl eq_refl))).
Defined.

(** ** Operations on a channel that must exist *)

(** C6. On a name that is not in the channel map, [ack], [nack], [ackAll],
    [nackAll], [cancelChannel] and [closeChannel] throw the
    channel-not-found error and leave everything as it was: no library
    call, no new channel, the same map. *)
Theorem unregistered_channel_not_found (c : Config) (channelName : string)
    (message : ZeroRabbitMsg.t) (allUpTo requeue : option bool) :
  channels (this c) !! channelName = None ->
  exec (ack channelName message allUpTo) c = (c, Thrown channel_not_found) /\
  exec (nack channelName message allUpTo requeue) c = (c, Thrown channel_not_found) /\
  exec (ackAll channelName) c = (c, Thrown channel_not_found) /\
  exec (nackAll channelName requeue) c = (c, Thrown channel_not_found) /\
  exec (cancelChannel channelName) c = (c, Thrown channel_not_found) /\
  exec (closeChannel channelName) c = (c, Thrown channel_not_found).
Proof.
  intros Hnone.
  unfold ack, nack, ackAll, nackAll, cancelChannel, closeChannel, Map_get.
  cbn. rewrite Hnone. cbn. repeat split; reflexivity.
Qed.

Lemma unregistered_channel_not_found_witness :
  let message := {| ZeroRabbitMsg.content := JSON.Null;
                    ZeroRabbitMsg.msg := {| Delivery.content := []; Delivery.deliveryTag := 1 |} |} in
  channels (this (boot connected)) !! "orders" = None /\
  exec (ack "orders" message None) (boot connected)
  = (boot connected, Thrown channel_not_found) /\
  exec (closeChannel "orders") (boot connected)
  = (boot connected, Thrown channel_not_found).
Proof.
  split; [reflexivity |].
  pose proof (unregistered_channel_not_found (boot connected) "orders"
    {| ZeroRabbitMsg.content := JSON.Null;
       ZeroRabbitMsg.msg := {| Delivery.content := []; Delivery.deliveryTag := 1 |} |}
    None None eq_refl) as H.
  split; [exact (proj1 H) | exact (proj2 (proj2 (proj2 (proj2 (proj2 H)))))].
Defined.

(** ** The run time's text functions: round trips *)

Ltac Zify.zify_post_hook ::= Z.to_euclidean_division_equations.

(** Settles the comparisons of the goal that linear arithmetic decides. *)
Ltac decide_tests :=
  repeat match goal with
         | |- context [N.ltb ?a ?b] =>
             first [ replace (N.ltb a b) with true by (symmetry; apply N.ltb_lt; lia)
                   | replace (N.ltb a b) with false by (symmetry; apply N.ltb_ge; lia) ]
         | |- context [N.leb ?a ?b] =>
             first [ replace (N.leb a b) with true by (symmetry; apply N.leb_le; lia)
                   | replace (N.leb a b) with false by (symmetry; apply N.leb_gt; lia) ]
         | |- context [N.eqb ?a ?b] =>
             first [ replace (N.eqb a b) with true by (symmetry; apply N.eqb_eq; lia)
                   | replace (N.eqb a b) with false by (symmetry; apply N.eqb_neq; lia) ]
         end.

Section TextFacts.

Local Open Scope N_scope.

(** *** UTF-8 *)

Lemma to_N_byte_of_N n : n < 256 -> Byte.to_N (Buffer.byte_of_N n) = n.
Proof.
  intros Hn. unfold Buffer.byte_of_N.
  destruct (Byte.of_N n) as [b |] eqn:E.
  - simpl. apply Byte.to_of_N. exact E.
  - apply Byte.of_N_None_iff in E. lia.
Qed.

Lemma map_to_N_byte_of_N l :
  Forall (fun n => n < 256) l -> map Byte.to_N (map Buffer.byte_of_N l) = l.
Proof.
  induction 1 as [| n l Hn Hl IH]; simpl; [reflexivity |].
  rewrite to_N_byte_of_N by exact Hn. rewrite IH. reflexivity.
Qed.

Lemma encode_bytes c : Forall (fun n => n < 256) (Buffer.encode c).
Proof.
  unfold Buffer.encode.
  destruct (N.ltb_spec c 0x80); [repeat constructor; lia |].
  destruct (N.ltb_spec c 0x800); [repeat constructor; lia |].
  destruct (JSON.is_surrogate c || (0x110000 <=? c)) eqn:E; [repeat constructor; lia |].
  apply orb_false_iff in E. destruct E as [_ E]. apply N.leb_gt in E.
  destruct (N.ltb_spec c 0x10000); repeat constructor; lia.
Qed.

Lemma decode_encode_scalar c bytes :
  JSON.is_scalar c = true ->
  Buffer.decode Buffer.Idle (Buffer.encode c ++ bytes) = c :: Buffer.decode Buffer.Idle bytes.
Proof.
  unfold JSON.is_scalar, JSON.is_surrogate. intros Hc.
  apply andb_true_iff in Hc. destruct Hc as [Hmax Hsur].
  apply N.ltb_lt in Hmax. apply negb_true_iff, andb_false_iff in Hsur.
  assert (Hs : c < 0xD800 \/ 0xDFFF < c).
  { destruct Hsur as [H | H]; [left; apply N.leb_gt in H | right; apply N.leb_gt in H]; lia. }
  clear Hsur. unfold Buffer.encode, JSON.is_surrogate.
  destruct (N.ltb_spec c 0x80) as [H1 | H1].
  { simpl. unfold Buffer.start. decide_tests. reflexivity. }
  destruct (N.ltb_spec c 0x800) as [H2 | H2].
  { simpl. unfold Buffer.start. decide_tests. simpl. decide_tests. simpl.
    f_equal. lia. }
  replace ((0xD800 <=? c) && (c <=? 0xDFFF) || (0x110000 <=? c)) with false.
  2:{ symmetry. apply orb_false_iff. split.
      - apply andb_false_iff. destruct Hs; [left; apply N.leb_gt | right; apply N.leb_gt]; lia.
      - apply N.leb_gt. lia. }
  destruct (N.ltb_spec c 0x10000) as [H3 | H3].
  { simpl. unfold Buffer.start. decide_tests. simpl.
    destruct (N.eqb_spec (0xE0 + c / 4096) 0xE0) as [E0 | E0];
      destruct (N.eqb_spec (0xE0 + c / 4096) 0xED) as [ED | ED];
      decide_tests; simpl; decide_tests; simpl; f_equal; lia. }
  simpl. unfold Buffer.start. decide_tests. simpl.
  destruct (N.eqb_spec (0xF0 + c / 262144) 0xF0) as [E0 | E0];
    destruct (N.eqb_spec (0xF0 + c / 262144) 0xF4) as [E4 | E4];
    decide_tests; simpl; decide_tests; simpl; decide_tests; simpl; f_equal; lia.
Qed.

Lemma decode_encode s :
  forallb JSON.is_scalar s = true ->
  Buffer.decode Buffer.Idle (concat (map Buffer.encode s)) = s.
Proof.
  induction s as [| c s IH]; simpl; [reflexivity |].
  intros H. apply andb_true_iff in H. destruct H as [Hc Hs].
  rewrite decode_encode_scalar by exact Hc. rewrite IH by exact Hs. reflexivity.
Qed.

(** Writing a string of characters in UTF-8 and reading it back gives the
    string. *)
Lemma toString_from s :
  forallb JSON.is_scalar s = true -> Buffer.toString (Buffer.from s) = s.
Proof.
  intros Hs. unfold Buffer.toString, Buffer.from.
  rewrite map_to_N_byte_of_N.
  - apply decode_encode. exact Hs.
  - apply Forall_concat. apply Forall_map. apply Forall_forall. intros c _.
    apply encode_bytes.
Qed.

End TextFacts.

Section NumberFacts.

Local Open Scope N_scope.

(** *** Integers *)

Lemma digits_acc fuel : forall n acc,
  JSON.digits fuel n acc = JSON.digits fuel n [] ++ acc.
Proof.
  induction fuel as [| fuel IH]; intros n acc; simpl.
  - reflexivity.
  - destruct (n <? 10); [reflexivity |].
    rewrite (IH (n / 10) (48 + n mod 10 :: acc)).
    rewrite (IH (n / 10) [48 + n mod 10]).
    rewrite <- app_assoc. reflexivity.
Qed.

Lemma size_nat_bound n : n < 2 ^ N.of_nat (N.size_nat n).
Proof.
  destruct n as [| p]; simpl; [lia |].
  induction p as [p IH | p IH |]; simpl Pos.size_nat.
  - rewrite Nat2N.inj_succ, N.pow_succ_r'. lia.
  - rewrite Nat2N.inj_succ, N.pow_succ_r'. lia.
  - simpl. lia.
Qed.

Lemma is_digit_digit d : d < 10 -> JSON.is_digit (48 + d) = true.
Proof.
  intros Hd. unfold JSON.is_digit. apply andb_true_iff.
  split; apply N.leb_le; lia.
Qed.

Lemma read_digits_digits fuel : forall n rest,
  n < 2 ^ N.of_nat fuel ->
  JSON.read_digits (JSON.digits fuel n [] ++ rest) 0 = JSON.read_digits rest n.
Proof.
  induction fuel as [| fuel IH]; intros n rest Hn.
  - simpl in Hn. assert (n = 0) by lia. subst n. reflexivity.
  - rewrite Nat2N.inj_succ, N.pow_succ_r' in Hn. simpl.
    destruct (N.ltb_spec n 10) as [Hlt | Hge].
    + simpl. rewrite is_digit_digit by lia. f_equal. lia.
    + rewrite digits_acc, <- app_assoc. rewrite IH by lia.
      simpl. rewrite is_digit_digit by lia. f_equal. lia.
Qed.

Lemma digits_head fuel : forall n,
  0 < n -> n < 2 ^ N.of_nat fuel ->
  exists c t, JSON.digits fuel n [] = c :: t /\ 49 <= c /\ c <= 57.
Proof.
  induction fuel as [| fuel IH]; intros n Hpos Hn.
  - simpl in Hn. lia.
  - rewrite Nat2N.inj_succ, N.pow_succ_r' in Hn. simpl.
    destruct (N.ltb_spec n 10) as [Hlt | Hge].
    + exists (48 + n mod 10), []. split; [reflexivity | lia].
    + rewrite digits_acc.
      destruct (IH (n / 10)) as (c & t & E & Hc); [lia | lia |].
      rewrite E. exists c, (t ++ [48 + n mod 10]). split; [reflexivity | exact Hc].
Qed.

Lemma delimited_not_digit rest :
  JSON.is_delimited rest = true ->
  (forall a, JSON.read_digits rest a = (a, rest)) /\
  JSON.ends_number rest = true /\
  match rest with d :: _ => JSON.is_digit d = false | [] => True end.
Proof.
  destruct rest as [| c rest]; simpl; [auto |].
  intros H. apply orb_true_iff in H. rewrite orb_true_iff in H.
  assert (Hc : c = 44 \/ c = 93 \/ c = 125).
  { destruct H as [[H | H] | H]; apply N.eqb_eq in H; auto. }
  clear H. destruct Hc as [-> | [-> | ->]]; simpl; auto.
Qed.

Lemma read_natural_decimal n rest :
  JSON.is_delimited rest = true ->
  JSON.read_natural (JSON.decimal n ++ rest) = Some (n, rest).
Proof.
  intros Hrest. destruct (delimited_not_digit rest Hrest) as (Hread & Hend & Hhead).
  destruct (N.eq_dec n 0) as [-> | Hn].
  - simpl. destruct rest as [| d rest]; [reflexivity |].
    rewrite Hhead, Hend. reflexivity.
  - destruct (digits_head (N.size_nat n) n) as (c & t & E & Hc1 & Hc2);
      [lia | apply size_nat_bound |].
    pose proof (read_digits_digits (N.size_nat n) n rest (size_nat_bound n)) as Hd.
    unfold JSON.decimal. rewrite E in *. simpl app in *. unfold JSON.read_natural.
    replace (c =? 48) with false by (symmetry; apply N.eqb_neq; lia).
    replace (JSON.is_digit c) with true
      by (symmetry; unfold JSON.is_digit; apply andb_true_iff; split; apply N.leb_le; lia).
    rewrite Hd, Hread, Hend. reflexivity.
Qed.

Lemma decimal_head n :
  exists c t, JSON.decimal n = c :: t /\ 48 <= c /\ c <= 57.
Proof.
  destruct (N.eq_dec n 0) as [-> | Hn].
  - exists 48, []. split; [reflexivity | lia].
  - destruct (digits_head (N.size_nat n) n) as (c & t & E & Hc1 & Hc2);
      [lia | apply size_nat_bound |].
    exists c, t. split; [exact E | lia].
Qed.

Lemma read_number_text z rest :
  JSON.is_delimited rest = true ->
  JSON.read_number (JSON.number_text z ++ rest) = Some (z, rest).
Proof.
  intros Hrest. destruct z as [| p | p]; unfold JSON.number_text.
  - change (JSON.decimal (Z.to_N 0)) with [48].
    pose proof (read_natural_decimal 0 rest Hrest) as H.
    change (JSON.decimal 0) with [48] in H. simpl app in *.
    unfold JSON.read_number. simpl (48 =? 45). cbv iota. rewrite H. reflexivity.
  - pose proof (read_natural_decimal (Z.to_N (Z.pos p)) rest Hrest) as H.
    destruct (decimal_head (Z.to_N (Z.pos p))) as (c & t & E & Hc1 & Hc2).
    rewrite E in *. simpl app in *. unfold JSON.read_number.
    replace (c =? 45) with false by (symmetry; apply N.eqb_neq; lia).
    rewrite H. rewrite Z2N.id by lia. reflexivity.
  - simpl app. unfold JSON.read_number. simpl (45 =? 45). cbv iota.
    rewrite (read_natural_decimal (N.pos p) rest Hrest). reflexivity.
Qed.

End NumberFacts.

Section StringFacts.

Local Open Scope N_scope.

(** *** String literals *)

Lemma unhex_hex_digit d : d < 16 -> JSON.unhex (JSON.hex_digit d) = Some d.
Proof.
  intros Hd. unfold JSON.hex_digit, JSON.unhex.
  destruct (N.ltb_spec d 10).
  - decide_tests. simpl. f_equal. lia.
  - decide_tests. simpl. f_equal. lia.
Qed.

Lemma unhex4_hex4 c rest :
  c < 65536 ->
  exists h1 h2 h3 h4,
    JSON.hex4 c ++ rest = h1 :: h2 :: h3 :: h4 :: rest /\
    JSON.unhex4 h1 h2 h3 h4 = Some c.
Proof.
  intros Hc. unfold JSON.hex4. do 4 eexists. split; [reflexivity |].
  unfold JSON.unhex4. rewrite !unhex_hex_digit by lia. f_equal. lia.
Qed.

Lemma read_string_escape c t :
  JSON.read_string (JSON.escape c ++ t)
  = match JSON.read_string t with
    | Some (s, rest) => Some (c :: s, rest)
    | None => None
    end.
Proof.
  unfold JSON.escape.
  destruct (N.eqb_spec c 8) as [-> | H8]; [reflexivity |].
  destruct (N.eqb_spec c 9) as [-> | H9]; [reflexivity |].
  destruct (N.eqb_spec c 10) as [-> | H10]; [reflexivity |].
  destruct (N.eqb_spec c 12) as [-> | H12]; [reflexivity |].
  destruct (N.eqb_spec c 13) as [-> | H13]; [reflexivity |].
  destruct (N.eqb_spec c 34) as [-> | H34]; [reflexivity |].
  destruct (N.eqb_spec c 92) as [-> | H92]; [reflexivity |].
  destruct ((c <? 32) || JSON.is_surrogate c) eqn:E.
  - assert (Hc : c < 65536).
    { apply orb_true_iff in E. destruct E as [E | E].
      - apply N.ltb_lt in E. lia.
      - unfold JSON.is_surrogate in E. apply andb_true_iff in E.
        destruct E as [_ E]. apply N.leb_le in E. lia. }
    destruct (unhex4_hex4 c t Hc) as (h1 & h2 & h3 & h4 & Eh & Hu).
    change ((92 :: 117 :: JSON.hex4 c) ++ t) with (92 :: 117 :: (JSON.hex4 c ++ t)).
    rewrite Eh. simpl. rewrite Hu. reflexivity.
  - apply orb_false_iff in E. destruct E as [E _]. apply N.ltb_ge in E.
    simpl. decide_tests. reflexivity.
Qed.

Lemma read_string_quote s rest :
  JSON.read_string (concat (map JSON.escape s) ++ 34 :: rest) = Some (s, rest).
Proof.
  induction s as [| c s IH]; simpl; [reflexivity |].
  rewrite <- app_assoc, read_string_escape, IH. reflexivity.
Qed.

(** A text that starts with a string literal. *)
Lemma quote_app s rest :
  JSON.quote s ++ rest = 34 :: (concat (map JSON.escape s) ++ 34 :: rest).
Proof. unfold JSON.quote. simpl. rewrite <- app_assoc. reflexivity. Qed.

End StringFacts.

Section ValueFacts.

Local Open Scope N_scope.

(** *** Values *)

Lemma value_ind (P : JSON.value -> Prop) :
  P JSON.Null ->
  (forall b, P (JSON.Bool b)) ->
  (forall n, P (JSON.Number n)) ->
  (forall s, P (JSON.Str s)) ->
  (forall items, Forall P items -> P (JSON.Array items)) ->
  (forall fields, Forall (fun kv => P (snd kv)) fields -> P (JSON.Object fields)) ->
  forall v, P v.
Proof.
  intros HN HB HZ HS HA HO.
  fix IH 1. intros [| b | n | s | items | fields].
  - exact HN.
  - apply HB.
  - apply HZ.
  - apply HS.
  - apply HA. induction items as [| x items IHitems]; constructor; [apply IH | exact IHitems].
  - apply HO. induction fields as [| [k x] fields IHfields]; constructor;
      [apply IH | exact IHfields].
Qed.

Lemma number_text_head n :
  exists c t, JSON.number_text n = c :: t /\ (c = 45 \/ (48 <= c /\ c <= 57)).
Proof.
  destruct n as [| p | p]; unfold JSON.number_text.
  - destruct (decimal_head (Z.to_N 0)) as (c & t & E & Hc). eauto.
  - destruct (decimal_head (Z.to_N (Z.pos p))) as (c & t & E & Hc). eauto.
  - eauto.
Qed.

(** A written value starts with a character that is no white space, no
    closing bracket and no comma. *)
Lemma stringify_head v :
  exists c t, JSON.stringify v = c :: t /\
    JSON.is_space c = false /\ c <> 93 /\ c <> 125 /\ c <> 44.
Proof.
  destruct v as [| [|] | n | s | items | fields]; simpl;
    try (do 2 eexists; split; [reflexivity |]; repeat split; lia).
  destruct (number_text_head n) as (c & t & E & Hc). rewrite E.
  exists c, t. split; [reflexivity |].
  unfold JSON.is_space.
  destruct Hc as [-> | Hc]; [repeat split; lia |].
  decide_tests. repeat split; lia.
Qed.

Lemma skip_space_head c t : JSON.is_space c = false -> JSON.skip_space (c :: t) = c :: t.
Proof. intros H. simpl. rewrite H. reflexivity. Qed.

Lemma weight_pos v : (1 <= JSON.weight v)%nat.
Proof. destruct v; simpl; lia. Qed.

(** The members read from a text are the fields of the object when no key
    is repeated. *)
Lemma set_field_fresh k v fields :
  ~ In k (map fst fields) -> JSON.set_field k v fields = fields ++ [(k, v)].
Proof.
  induction fields as [| [k' v'] fields IH]; simpl; intros Hk; [reflexivity |].
  destruct (decide (k' = k)) as [-> | _]; [destruct Hk; auto |].
  rewrite IH by tauto. reflexivity.
Qed.

Lemma fold_set_field fields : forall acc,
  NoDup (map fst (acc ++ fields)) ->
  fold_left (fun acc kv => JSON.set_field (fst kv) (snd kv) acc) fields acc = acc ++ fields.
Proof.
  induction fields as [| [k v] fields IH]; intros acc Hnd; simpl.
  - rewrite app_nil_r. reflexivity.
  - rewrite set_field_fresh.
    + rewrite IH; rewrite <- app_assoc; [reflexivity | exact Hnd].
    + rewrite map_app in Hnd. simpl in Hnd. apply NoDup_app in Hnd.
      destruct Hnd as (_ & Hdisj & _). intros Hin.
      apply (Hdisj k); [apply list_elem_of_In; exact Hin | constructor].
Qed.

Lemma make_object_fields fields :
  NoDup (map fst fields) -> JSON.make_object fields = JSON.Object fields.
Proof.
  intros Hnd. unfold JSON.make_object. rewrite fold_set_field; [reflexivity | exact Hnd].
Qed.

End ValueFacts.

Section RoundTrip.

Local Open Scope N_scope.

#[local] Arguments JSON.quote : simpl never.

Lemma read_elements_join items :
  items <> [] ->
  Forall (fun v => forall fuel rest,
            (JSON.weight v <= fuel)%nat -> JSON.is_delimited rest = true ->
            JSON.read_value fuel (JSON.stringify v ++ rest) = Some (v, rest)) items ->
  forall fuel rest,
    (list_sum (map (fun x => S (JSON.weight x)) items) <= fuel)%nat ->
    JSON.read_elements fuel (JSON.join 44 (map JSON.stringify items) ++ 93 :: rest)
    = Some (items, rest).
Proof.
  induction items as [| x items IH]; [intros H; destruct H; reflexivity |].
  intros _ HF fuel rest Hfuel. inversion HF as [| ? ? Hx Hitems]; subst.
  simpl in Hfuel. destruct fuel as [| fuel]; [lia |].
  destruct items as [| y items].
  - simpl. rewrite Hx by (simpl in *; first [lia | reflexivity]). reflexivity.
  - change (JSON.join 44 (map JSON.stringify (x :: y :: items)))
      with (JSON.stringify x ++ 44 :: JSON.join 44 (map JSON.stringify (y :: items))).
    rewrite <- app_assoc. simpl JSON.read_elements.
    rewrite Hx by (simpl in *; first [lia | reflexivity]).
    simpl. rewrite IH; [reflexivity | discriminate | exact Hitems | simpl in *; lia].
Qed.

Lemma member_text k sx tail :
  (JSON.quote k ++ 58 :: sx) ++ tail
  = 34 :: (concat (map JSON.escape k) ++ 34 :: 58 :: (sx ++ tail)).
Proof. unfold JSON.quote. simpl. rewrite <- !app_assoc. reflexivity. Qed.

Lemma read_members_join fields :
  fields <> [] ->
  Forall (fun kv => forall fuel rest,
            (JSON.weight (snd kv) <= fuel)%nat -> JSON.is_delimited rest = true ->
            JSON.read_value fuel (JSON.stringify (snd kv) ++ rest) = Some (snd kv, rest))
         fields ->
  forall fuel rest,
    (list_sum (map (fun kv => S (JSON.weight (snd kv))) fields) <= fuel)%nat ->
    JSON.read_members fuel
      (JSON.join 44 (map (fun kv => JSON.quote (fst kv) ++ 58 :: JSON.stringify (snd kv))
                         fields) ++ 125 :: rest)
    = Some (fields, rest).
Proof.
  induction fields as [| [k x] fields IH]; [intros H; destruct H; reflexivity |].
  intros _ HF fuel rest Hfuel. inversion HF as [| ? ? Hx Hfields]; subst.
  simpl in Hx, Hfuel. destruct fuel as [| fuel]; [lia |].
  destruct fields as [| [k' y] fields].
  - change (JSON.read_members (S fuel)
              ((JSON.quote k ++ 58 :: JSON.stringify x) ++ 125 :: rest)
            = Some ([(k, x)], rest)).
    rewrite member_text. simpl JSON.read_members.
    rewrite read_string_quote. simpl.
    rewrite Hx by (simpl in *; first [lia | reflexivity]). reflexivity.
  - change (JSON.read_members (S fuel)
              (((JSON.quote k ++ 58 :: JSON.stringify x) ++
                44 :: JSON.join 44
                        (map (fun kv => JSON.quote (fst kv) ++ 58 :: JSON.stringify (snd kv))
                             ((k', y) :: fields))) ++ 125 :: rest)
            = Some ((k, x) :: (k', y) :: fields, rest)).
    rewrite <- (app_assoc (JSON.quote k ++ 58 :: JSON.stringify x)).
    rewrite member_text. simpl app. simpl JSON.read_members.
    rewrite read_string_quote. simpl.
    rewrite Hx by (simpl in *; first [lia | reflexivity]).
    simpl. rewrite IH; [reflexivity | discriminate | exact Hfields | simpl in *; lia].
Qed.

Lemma join_head sep p parts : exists tail, JSON.join sep (p :: parts) = p ++ tail.
Proof.
  destruct parts as [| q parts]; simpl.
  - exists []. rewrite app_nil_r. reflexivity.
  - eexists. reflexivity.
Qed.

Lemma read_value_array fuel T c t :
  T = c :: t -> JSON.is_space c = false -> c <> 93 ->
  JSON.read_value (S fuel) (91 :: T)
  = match JSON.read_elements fuel T with
    | Some (items, rest) => Some (JSON.Array items, rest)
    | None => None
    end.
Proof.
  intros -> Hsp Hne. cbn [JSON.read_value JSON.skip_space].
  change (JSON.is_space 91) with false. cbv iota.
  change (91 =? 34) with false. change (91 =? 91) with true. cbv iota.
  rewrite (skip_space_head c t Hsp).
  replace (c =? 93) with false by (symmetry; apply N.eqb_neq; lia).
  reflexivity.
Qed.

Lemma read_value_object fuel T c t :
  T = c :: t -> JSON.is_space c = false -> c <> 125 ->
  JSON.read_value (S fuel) (123 :: T)
  = match JSON.read_members fuel T with
    | Some (members, rest) => Some (JSON.make_object members, rest)
    | None => None
    end.
Proof.
  intros -> Hsp Hne. cbn [JSON.read_value JSON.skip_space].
  change (JSON.is_space 123) with false. cbv iota.
  change (123 =? 34) with false. change (123 =? 91) with false.
  change (123 =? 123) with true. cbv iota.
  rewrite (skip_space_head c t Hsp).
  replace (c =? 125) with false by (symmetry; apply N.eqb_neq; lia).
  reflexivity.
Qed.

(** Reading what was written gives the value back and stops where the
    written text ends. *)
Lemma read_value_stringify v :
  JSON.serializable v = true ->
  forall fuel rest,
    (JSON.weight v <= fuel)%nat -> JSON.is_delimited rest = true ->
    JSON.read_value fuel (JSON.stringify v ++ rest) = Some (v, rest).
Proof.
  induction v as [| b | n | s | items IH | fields IH] using value_ind;
    intros Hser fuel rest Hfuel Hrest;
    (destruct fuel as [| fuel]; [pose proof (weight_pos (JSON.Null)); simpl in *; lia |]).
  - reflexivity.
  - destruct b; reflexivity.
  - destruct (number_text_head n) as (c & t & E & Hc).
    pose proof (read_number_text n rest Hrest) as Hn.
    simpl JSON.stringify in *. rewrite E in *. simpl app in *.
    cbn [JSON.read_value JSON.skip_space].
    assert (Hsp : JSON.is_space c = false).
    { unfold JSON.is_space. destruct Hc as [-> | Hc]; [reflexivity |].
      decide_tests. reflexivity. }
    rewrite Hsp.
    replace (c =? 34) with false by (symmetry; apply N.eqb_neq; lia).
    replace (c =? 91) with false by (symmetry; apply N.eqb_neq; lia).
    replace (c =? 123) with false by (symmetry; apply N.eqb_neq; lia).
    replace (c =? 110) with false by (symmetry; apply N.eqb_neq; lia).
    replace (c =? 116) with false by (symmetry; apply N.eqb_neq; lia).
    replace (c =? 102) with false by (symmetry; apply N.eqb_neq; lia).
    rewrite Hn. reflexivity.
  - simpl JSON.stringify. rewrite quote_app. simpl. rewrite read_string_quote. reflexivity.
  - simpl in Hfuel. apply le_S_n in Hfuel.
    change (JSON.stringify (JSON.Array items) ++ rest)
      with (91 :: (JSON.join 44 (map JSON.stringify items) ++ [93]) ++ rest).
    rewrite <- app_assoc. simpl ([93] ++ rest).
    destruct items as [| x items]; [reflexivity |].
    assert (HF : Forall (fun v => forall fuel rest,
                   (JSON.weight v <= fuel)%nat -> JSON.is_delimited rest = true ->
                   JSON.read_value fuel (JSON.stringify v ++ rest) = Some (v, rest))
                        (x :: items)).
    { change (forallb JSON.serializable (x :: items) = true) in Hser.
      apply List.Forall_forall. intros y Hy.
      rewrite List.Forall_forall in IH. apply IH; [exact Hy |].
      rewrite forallb_forall in Hser. apply Hser. exact Hy. }
    pose proof (read_elements_join (x :: items) ltac:(discriminate) HF fuel rest Hfuel) as He.
    destruct (join_head 44 (JSON.stringify x) (map JSON.stringify items)) as (tail & Et).
    destruct (stringify_head x) as (c & t & E & Hsp & H93 & _).
    rewrite (read_value_array fuel _ c (t ++ tail ++ 93 :: rest)); [rewrite He; reflexivity | | exact Hsp | exact H93].
    change (map JSON.stringify (x :: items))
      with (JSON.stringify x :: map JSON.stringify items).
    rewrite Et, E, <- app_assoc. reflexivity.
  - simpl in Hfuel. apply le_S_n in Hfuel.
    change (forallb (fun kv => forallb JSON.is_scalar (fst kv) && JSON.serializable (snd kv))
                    fields
            && bool_decide (NoDup (map fst fields)) = true) in Hser.
    apply andb_true_iff in Hser. destruct Hser as [Hser Hnd].
    apply bool_decide_eq_true in Hnd.
    change (JSON.stringify (JSON.Object fields) ++ rest)
      with (123 :: (JSON.join 44
                      (map (fun kv => JSON.quote (fst kv) ++ 58 :: JSON.stringify (snd kv))
                           fields) ++ [125]) ++ rest).
    rewrite <- app_assoc. simpl ([125] ++ rest).
    destruct fields as [| [k x] fields]; [reflexivity |].
    assert (HF : Forall (fun kv => forall fuel rest,
                   (JSON.weight (snd kv) <= fuel)%nat -> JSON.is_delimited rest = true ->
                   JSON.read_value fuel (JSON.stringify (snd kv) ++ rest)
                   = Some (snd kv, rest)) ((k, x) :: fields)).
    { apply List.Forall_forall. intros kv Hkv.
      rewrite List.Forall_forall in IH. apply IH; [exact Hkv |].
      rewrite forallb_forall in Hser. specialize (Hser kv Hkv).
      apply andb_true_iff in Hser. apply Hser. }
    pose proof (read_members_join ((k, x) :: fields) ltac:(discriminate) HF fuel rest Hfuel)
      as Hm.
    destruct (join_head 44 (JSON.quote k ++ 58 :: JSON.stringify x)
                (map (fun kv => JSON.quote (fst kv) ++ 58 :: JSON.stringify (snd kv)) fields))
      as (tail & Et).
    rewrite (read_value_object fuel _ 34
               (concat (map JSON.escape k)
                ++ 34 :: 58 :: (JSON.stringify x ++ tail ++ 125 :: rest)));
      [rewrite Hm, make_object_fields by exact Hnd; reflexivity | | reflexivity | lia].
    change (map (fun kv => JSON.quote (fst kv) ++ 58 :: JSON.stringify (snd kv))
                ((k, x) :: fields))
      with ((JSON.quote k ++ 58 :: JSON.stringify x)
            :: map (fun kv => JSON.quote (fst kv) ++ 58 :: JSON.stringify (snd kv)) fields).
    refine (eq_trans (f_equal (fun l => l ++ 125 :: rest) Et) _).
    rewrite <- app_assoc, member_text. reflexivity.
Qed.

End RoundTrip.

Section WholeTexts.

Local Open Scope N_scope.

(** *** Whole texts *)

Lemma length_join sep parts :
  parts <> [] ->
  (length (JSON.join sep parts) + 1 = list_sum (map (fun p => S (length p)) parts))%nat.
Proof.
  induction parts as [| p parts IH]; [intros H; destruct H; reflexivity |].
  intros _. destruct parts as [| q parts].
  - simpl. lia.
  - pose proof (IH ltac:(discriminate)) as H.
    change (JSON.join sep (p :: q :: parts)) with (p ++ sep :: JSON.join sep (q :: parts)).
    rewrite length_app.
    change (length (sep :: JSON.join sep (q :: parts)))
      with (S (length (JSON.join sep (q :: parts)))).
    change (list_sum (map (fun p => S (length p)) (p :: q :: parts)))
      with (S (length p) + list_sum (map (fun p => S (length p)) (q :: parts)))%nat.
    rewrite <- H. lia.
Qed.

Lemma list_sum_le {A} (f g : A -> nat) l :
  Forall (fun x => f x <= g x)%nat l ->
  (list_sum (map f l) <= list_sum (map g l))%nat.
Proof. induction 1; simpl; lia. Qed.

Lemma length_bracket {A} (a b : A) l : length (a :: l ++ [b]) = S (S (length l)).
Proof. simpl. rewrite length_app. simpl. lia. Qed.

Lemma weight_stringify v : (JSON.weight v <= length (JSON.stringify v))%nat.
Proof.
  induction v as [| b | n | s | items IH | fields IH] using value_ind.
  - simpl. lia.
  - destruct b; simpl; lia.
  - destruct (number_text_head n) as (c & t & E & _). simpl. rewrite E. simpl. lia.
  - simpl. lia.
  - change (JSON.stringify (JSON.Array items))
      with (91 :: JSON.join 44 (map JSON.stringify items) ++ [93]).
    rewrite length_bracket. simpl JSON.weight.
    destruct items as [| x items]; [simpl; lia |].
    pose proof (length_join 44 (map JSON.stringify (x :: items)) ltac:(discriminate)) as Hl.
    rewrite map_map in Hl.
    pose proof (list_sum_le (fun x => S (JSON.weight x))
                  (fun x => S (length (JSON.stringify x))) (x :: items)) as Hs.
    assert (Forall (fun x => S (JSON.weight x) <= S (length (JSON.stringify x)))%nat
                   (x :: items)) as HF.
    { eapply Forall_impl; [exact IH |]. simpl. intros; lia. }
    specialize (Hs HF). lia.
  - change (JSON.stringify (JSON.Object fields))
      with (123 :: JSON.join 44
              (map (fun kv => JSON.quote (fst kv) ++ 58 :: JSON.stringify (snd kv)) fields)
              ++ [125]).
    rewrite length_bracket. simpl JSON.weight.
    destruct fields as [| kx fields]; [simpl; lia |].
    pose proof (length_join 44
                  (map (fun kv => JSON.quote (fst kv) ++ 58 :: JSON.stringify (snd kv))
                       (kx :: fields)) ltac:(discriminate)) as Hl.
    rewrite map_map in Hl.
    pose proof (list_sum_le (fun kv => S (JSON.weight (snd kv)))
                  (fun kv => S (length (JSON.quote (fst kv) ++ 58 :: JSON.stringify (snd kv))))
                  (kx :: fields)) as Hs.
    assert (Forall (fun kv => S (JSON.weight (snd kv))
                              <= S (length (JSON.quote (fst kv) ++ 58%N
                                            :: JSON.stringify (snd kv))))%nat
                   (kx :: fields)) as HF.
    { eapply Forall_impl; [exact IH |]. simpl. intros kv Hkv.
      rewrite length_app. simpl. lia. }
    specialize (Hs HF).
    lia.
Qed.

(** [JSON.parse(JSON.stringify(v))] is [v]. *)
Lemma parse_stringify v :
  JSON.serializable v = true -> JSON.parse (JSON.stringify v) = Some v.
Proof.
  intros Hser. unfold JSON.parse.
  pose proof (read_value_stringify v Hser (S (length (JSON.stringify v))) []) as H.
  rewrite app_nil_r in H. rewrite H; [reflexivity | | reflexivity].
  pose proof (weight_stringify v). lia.
Qed.

End WholeTexts.

Section Characters.

Local Open Scope N_scope.

(** *** The characters of a written value *)

Lemma ascii_scalar c : c < 128 -> JSON.is_scalar c = true.
Proof.
  intros Hc. unfold JSON.is_scalar, JSON.is_surrogate. decide_tests. reflexivity.
Qed.

Lemma ascii_all_scalar t :
  Forall (fun c => c < 128) t -> Forall (fun c => JSON.is_scalar c = true) t.
Proof. intros H. eapply Forall_impl; [exact H |]. intros c. apply ascii_scalar. Qed.

Lemma digits_ascii fuel : forall n acc,
  Forall (fun c => c < 128) acc -> Forall (fun c => c < 128) (JSON.digits fuel n acc).
Proof.
  induction fuel as [| fuel IH]; intros n acc Hacc; simpl.
  - constructor; [lia | exact Hacc].
  - destruct (n <? 10).
    + constructor; [lia | exact Hacc].
    + apply IH. constructor; [lia | exact Hacc].
Qed.

Lemma number_text_ascii n : Forall (fun c => c < 128) (JSON.number_text n).
Proof.
  destruct n as [| p | p]; unfold JSON.number_text, JSON.decimal.
  - apply digits_ascii. constructor.
  - apply digits_ascii. constructor.
  - constructor; [lia |]. apply digits_ascii. constructor.
Qed.

Lemma hex_digit_ascii d : d < 16 -> JSON.hex_digit d < 128.
Proof. intros Hd. unfold JSON.hex_digit. destruct (d <? 10); lia. Qed.

Lemma escape_scalar c :
  JSON.is_scalar c = true -> Forall (fun c => JSON.is_scalar c = true) (JSON.escape c).
Proof.
  intros Hc. unfold JSON.escape.
  repeat match goal with
         | |- context [if ?b then _ else _] =>
             destruct b;
             [apply ascii_all_scalar; repeat constructor; try lia;
              apply hex_digit_ascii; lia |]
         end.
  constructor; [exact Hc | constructor].
Qed.

Lemma quote_scalar s :
  forallb JSON.is_scalar s = true ->
  Forall (fun c => JSON.is_scalar c = true) (JSON.quote s).
Proof.
  intros Hs. unfold JSON.quote. constructor; [reflexivity |].
  apply Forall_app. split; [| repeat constructor].
  apply Forall_concat. apply Forall_map. apply List.Forall_forall. intros c Hin.
  apply escape_scalar. rewrite forallb_forall in Hs. apply Hs. exact Hin.
Qed.

Lemma join_scalar sep parts :
  JSON.is_scalar sep = true ->
  Forall (Forall (fun c => JSON.is_scalar c = true)) parts ->
  Forall (fun c => JSON.is_scalar c = true) (JSON.join sep parts).
Proof.
  intros Hsep. induction 1 as [| p parts Hp Hparts IH]; [constructor |].
  destruct parts as [| q parts]; [exact Hp |].
  change (JSON.join sep (p :: q :: parts)) with (p ++ sep :: JSON.join sep (q :: parts)).
  apply Forall_app. split; [exact Hp |]. constructor; [exact Hsep | exact IH].
Qed.

Lemma stringify_scalar v :
  JSON.serializable v = true ->
  Forall (fun c => JSON.is_scalar c = true) (JSON.stringify v).
Proof.
  induction v as [| b | n | s | items IH | fields IH] using value_ind; intros Hser.
  - repeat constructor.
  - destruct b; repeat constructor.
  - apply ascii_all_scalar. apply number_text_ascii.
  - apply quote_scalar. exact Hser.
  - change (JSON.stringify (JSON.Array items))
      with (91 :: JSON.join 44 (map JSON.stringify items) ++ [93]).
    change (forallb JSON.serializable items = true) in Hser.
    constructor; [reflexivity |]. apply Forall_app. split; [| repeat constructor].
    apply join_scalar; [reflexivity |]. apply Forall_map.
    apply List.Forall_forall. intros x Hx.
    rewrite List.Forall_forall in IH. apply IH; [exact Hx |].
    rewrite forallb_forall in Hser. apply Hser. exact Hx.
  - change (JSON.stringify (JSON.Object fields))
      with (123 :: JSON.join 44
              (map (fun kv => JSON.quote (fst kv) ++ 58 :: JSON.stringify (snd kv)) fields)
              ++ [125]).
    change (forallb (fun kv => forallb JSON.is_scalar (fst kv) && JSON.serializable (snd kv))
                    fields
            && bool_decide (NoDup (map fst fields)) = true) in Hser.
    apply andb_true_iff in Hser. destruct Hser as [Hser _].
    constructor; [reflexivity |]. apply Forall_app. split; [| repeat constructor].
    apply join_scalar; [reflexivity |]. apply Forall_map.
    apply List.Forall_forall. intros kv Hkv.
    rewrite forallb_forall in Hser. specialize (Hser kv Hkv).
    apply andb_true_iff in Hser. destruct Hser as [Hk Hv].
    apply Forall_app. split; [apply quote_scalar; exact Hk |].
    constructor; [reflexivity |].
    rewrite List.Forall_forall in IH. apply IH; [exact Hkv | exact Hv].
Qed.

(** The payload of a value reads back as the value. *)
Lemma parse_payload v :
  JSON.serializable v = true ->
  JSON.parse (Buffer.toString (Buffer.from (JSON.stringify v))) = Some v.
Proof.
  intros Hser. rewrite toString_from.
  - apply parse_stringify. exact Hser.
  - apply forallb_forall. apply List.Forall_forall. apply stringify_scalar. exact Hser.
Qed.

End Characters.

(** ** Publishing and consuming *)

(** The payload of [{"a":1}] is the seven bytes of that text. *)
Example payload_a_is_1 :
  Buffer.from (JSON.stringify a_is_1)
  = [Byte.x7b; Byte.x22; Byte.x61; Byte.x22; Byte.x3a; Byte.x31; Byte.x7d].
Proof. reflexivity. Qed.

(** * Further properties of the module *)

(** ** [asyncForEach] *)

Lemma log_all_nil c : log_all [] c = c.
Proof. destruct c. unfold log_all. simpl. rewrite app_nil_r. reflexivity. Qed.

Lemma log_all_cons e es c : log_all (e :: es) c = log_all es (log e c).
Proof. unfold log_all, log. simpl. rewrite <- app_assoc. reflexivity. Qed.

Lemma asyncForEach_from_lines {A} (array : list A) (line : A -> nat -> list A -> string)
    (rest : list A) : forall index c,
  exec (asyncForEach_from array (fun x i arr => debug (line x i arr)) index rest) c
  = (log_all (imap (fun j x => Did (Debug (line x (index + j) array))) rest) c,
     Returned VUndefined).
Proof.
  induction rest as [| x rest IH]; intros index c.
  - simpl. rewrite log_all_nil. reflexivity.
  - cbn [asyncForEach_from debug bind exec skip]. rewrite IH.
    cbn [imap]. rewrite log_all_cons, Nat.add_0_r. do 2 f_equal.
    apply imap_ext. intros j y _. simpl. do 3 f_equal. lia.
Qed.

(** X1. [asyncForEach] calls the callback once for every entry of the
    array, from the first to the last, with the entry, its index from 0 and
    the array itself, and then returns [undefined]: with a callback that
    logs a line made from its three arguments, the lines logged are those of
    the entries in order.  On the empty array nothing is called. *)
Theorem asyncForEach_visits_in_order {A : Type} (array : list A)
    (line : A -> nat -> list A -> string) (c : Config) :
  exec (asyncForEach array (fun x index arr => debug (line x index arr))) c
  = (log_all (imap (fun index x => Did (Debug (line x index array))) array) c,
     Returned VUndefined).
Proof. unfold asyncForEach. apply asyncForEach_from_lines. Qed.

Lemma asyncForEach_from_throw {A} (array : list A) (fails : A -> option Exn)
    (line : A -> nat -> list A -> string) (x : A) (e : Exn) (after : list A) :
  fails x = Some e ->
  forall before index c,
  Forall (fun y => fails y = None) before ->
  exec (asyncForEach_from array
          (fun y i arr => match fails y with
                          | Some e' => Throw e'
                          | None => debug (line y i arr)
                          end) index (before ++ x :: after)) c
  = (log_all (imap (fun j y => Did (Debug (line y (index + j) array))) before) c, Thrown e).
Proof.
  intros Hx. induction before as [| y before IH]; intros index c Hbefore.
  - simpl. rewrite Hx, log_all_nil. reflexivity.
  - inversion Hbefore as [| ? ? Hy Hrest]; subst.
    cbn [app asyncForEach_from]. rewrite Hy.
    cbn [debug bind exec skip]. rewrite (IH _ _ Hrest).
    cbn [imap]. rewrite log_all_cons, Nat.add_0_r. do 2 f_equal.
    apply imap_ext. intros j z _. simpl. do 3 f_equal. lia.
Qed.

(** X2. [asyncForEach] stops at the first entry for which the callback
    throws: the entries before it have been visited in order, the exception
    is the one of the callback, and no later entry is visited. *)
Theorem asyncForEach_stops_at_throw {A : Type} (before after : list A) (x : A)
    (fails : A -> option Exn) (e : Exn) (line : A -> nat -> list A -> string)
    (c : Config) :
  Forall (fun y => fails y = None) before ->
  fails x = Some e ->
  let array := before ++ x :: after in
  exec (asyncForEach array
          (fun y index arr => match fails y with
                              | Some e' => Throw e'
                              | None => debug (line y index arr)
                              end)) c
  = (log_all (imap (fun index y => Did (Debug (line y index array))) before) c, Thrown e).
Proof.
  intros Hbefore Hx array. unfold asyncForEach.
  apply (asyncForEach_from_throw array fails line x e after Hx before 0 c Hbefore).
Qed.

Lemma asyncForEach_stops_at_throw_witness :
  exec (asyncForEach [1; 2; 0; 3]
          (fun y index arr => match (if Nat.eqb y 0 then Some (Error "zero") else None) with
                              | Some e' => Throw e'
                              | None => debug (if Nat.eqb index 0 then "first" else "next")
                              end)) (boot new_ZeroRabbit)
  = (log_all [Did (Debug "first"); Did (Debug "next")] (boot new_ZeroRabbit),
     Thrown (Error "zero")).
Proof.
  apply (asyncForEach_stops_at_throw [1; 2] [3] 0
           (fun y => if Nat.eqb y 0 then Some (Error "zero") else None)
           (Error "zero") (fun _ index _ => if Nat.eqb index 0 then "first" else "next")
           (boot new_ZeroRabbit)).
  - repeat constructor.
  - reflexivity.
Defined.

(** ** Set-up with nothing to declare *)

(** X3. When the configuration has no exchange, no queue and no binding
    (each list missing or empty), [setupTopology] returns at once: it makes
    no request, logs nothing and leaves the object as it is, also on an
    object that holds no connection. *)
Theorem setupTopology_nothing_declared (opts : Opts.t) (c : Config) :
  declared opts = [] ->
  exec (setupTopology opts) c = (c, Returned VUndefined).
Proof.
  unfold declared, setupTopology. intros H.
  apply app_eq_nil in H as [H1 H]. apply app_eq_nil in H as [H2 H3].
  destruct (Opts.exchanges opts) as [[| ? ?] |]; try discriminate H1;
    destruct (Opts.queues opts) as [[| ? ?] |]; try discriminate H2;
    destruct (Opts.bindings opts) as [[| ? ?] |]; try discriminate H3;
    reflexivity.
Qed.

Lemma setupTopology_nothing_declared_witness :
  exec (setupTopology empty_config) (boot new_ZeroRabbit)
  = (boot new_ZeroRabbit, Returned VUndefined).
Proof.
  apply (setupTopology_nothing_declared empty_config (boot new_ZeroRabbit)).
  reflexivity.
Defined.

(** ** Before [connect] *)

Lemma getChannel_not_connected c channelName :
  rabbitConn (this c) = None ->
  Map_get (channels (this c)) channelName = VUndefined ->
  exec (getChannel channelName None) c = (c, Thrown not_connected).
Proof.
  intros Hconn Hget. unfold getChannel. cbn [exec]. rewrite Hget.
  destruct (decide (VUndefined = VUndefined)) as [_ | H]; [| destruct H; reflexivity].
  unfold createConfirmChannelPromise. cbn [try_catch bind exec]. rewrite Hconn.
  reflexivity.
Qed.

Lemma exec_bind_thrown m f c c' e :
  exec m c = (c', Thrown e) -> exec (bind m f) c = (c', Thrown e).
Proof.
  revert c. induction m as [v | e0 | k IH | s k IH | ev k IH | b cb IHcb k IH
                            | b cb IHcb k IH | v k IH | e0 k IH | m' IHm k IH];
    intros c H; simpl in *; try discriminate; eauto.
Qed.

(** X4. On an object that holds no connection yet, every operation that
    resolves its channel with [getChannel] and is given a name that is not
    registered throws the same error, made from the [TypeError] of reading
    [createConfirmChannel] on [undefined]; no request is made, nothing is
    logged and the object is unchanged. *)
Theorem operations_before_connect (c : Config) (channelName qName exName type key : string)
    (options : OptionsArg) (callback : option Callback) (consumer : Callback)
    (JsonMessage : JSON.value) (routingKey : option string) (prefetch : nat) :
  rabbitConn (this c) = None ->
  Map_get (channels (this c)) channelName = VUndefined ->
  exec (getChannel channelName None) c = (c, Thrown not_connected) /\
  exec (assertExchange channelName exName type options callback) c
  = (c, Thrown not_connected) /\
  exec (assertQueue channelName qName options callback) c = (c, Thrown not_connected) /\
  exec (bindQueue channelName qName exName key options callback) c
  = (c, Thrown not_connected) /\
  exec (deleteQueue channelName qName options callback) c = (c, Thrown not_connected) /\
  exec (setChannelPrefetch channelName prefetch) c = (c, Thrown not_connected) /\
  exec (publish channelName exName JsonMessage routingKey options) c
  = (c, Thrown not_connected) /\
  exec (consume channelName qName options consumer) c = (c, Thrown not_connected).
Proof.
  intros Hconn Hget.
  pose proof (getChannel_not_connected c channelName Hconn Hget) as H.
  repeat split; try exact H; apply exec_bind_thrown; exact H.
Qed.

Lemma operations_before_connect_witness :
  exec (getChannel "events" None) (boot new_ZeroRabbit)
  = (boot new_ZeroRabbit, Thrown not_connected) /\
  exec (publish "events" "logs" a_is_1 None NoOptions) (boot new_ZeroRabbit)
  = (boot new_ZeroRabbit, Thrown not_connected).
Proof.
  destruct (operations_before_connect (boot new_ZeroRabbit) "events" "q" "logs" "fanout"
              "key" NoOptions None "onMessage" a_is_1 None 1 eq_refl eq_refl)
    as (H1 & _ & _ & _ & _ & _ & H7 & _).
  split; [exact H1 | exact H7].
Defined.

(** ** [getChannel] with a callback *)

(** X5. [getChannel] with a callback, for a name that is not registered,
    when the broker refuses the channel: the callback is called twice, first
    with the error and then with [(undefined, undefined)], and the promise
    of [getChannel] is fulfilled with [undefined]. *)
Theorem getChannel_callback_called_twice (s : ZeroRabbit) (channelName : string)
    (conn : nat) (callback : Callback) (err : BrokerError) :
  rabbitConn s = Some conn ->
  Map_get (channels s) channelName = VUndefined ->
  trace (run [(0, Fails err)]
           (fst (exec (exports.getChannel (Some channelName) (Some callback)) (boot s))))
  = [Issued 0 (CreateConfirmChannel conn);
     Replied 0 (Failure err);
     Did (Invoke callback (AError (Raised err)) AUndefined);
     Did (Invoke callback AUndefined AUndefined);
     Settled (Fulfilled VUndefined)].
Proof.
  intros Hconn Hget.
  unfold exports.getChannel, spawn, getChannel. cbn [default from_option id exec boot this].
  rewrite Hget.
  destruct (decide (VUndefined = VUndefined)) as [_ | H]; [| destruct H; reflexivity].
  unfold createConfirmChannelPromise. cbn [try_catch bind exec boot this]. rewrite Hconn.
  reflexivity.
Qed.

Lemma getChannel_callback_called_twice_witness :
  trace (run [(0, Fails "refused")]
           (fst (exec (exports.getChannel (Some "events") (Some "onChannel"))
                      (boot connected))))
  = [Issued 0 (CreateConfirmChannel 7);
     Replied 0 (Failure "refused");
     Did (Invoke "onChannel" (AError (Raised "refused")) AUndefined);
     Did (Invoke "onChannel" AUndefined AUndefined);
     Settled (Fulfilled VUndefined)].
Proof.
  apply (getChannel_callback_called_twice connected "events" 7 "onChannel" "refused");
    reflexivity.
Defined.

(** X6. [getChannel] with a callback hands the channel to the callback and
    to nobody else: for a registered name the callback is called at once
    with the stored channel, for a new name it is called with the channel
    the broker opens, which is stored under the name; in both cases the
    promise of [getChannel] is fulfilled with [undefined]. *)
Theorem getChannel_callback_receives_channel (s : ZeroRabbit) (channelName : string)
    (callback : Callback) (info : string) :
  let c := fst (exec (exports.getChannel (Some channelName) (Some callback)) (boot s)) in
  (forall ch, Map_get (channels s) channelName = VChannel ch ->
     c = log_all [Did (Invoke callback AUndefined (AChannel ch));
                  Settled (Fulfilled VUndefined)] (boot s)) /\
  (forall conn, rabbitConn s = Some conn -> Map_get (channels s) channelName = VUndefined ->
     trace (run [(0, Succeeds info)] c)
     = [Issued 0 (CreateConfirmChannel conn);
        Replied 0 (Opened 0);
        Did (Invoke callback AUndefined (AChannel 0));
        Settled (Fulfilled VUndefined)] /\
     channels (this (run [(0, Succeeds info)] c)) = <[channelName := VChannel 0]> (channels s)).
Proof.
  cbn zeta. unfold exports.getChannel, spawn, getChannel. cbn [default from_option id exec boot this].
  split.
  - intros ch Hget. rewrite Hget.
    destruct (decide (VChannel ch = VUndefined)) as [H | _]; [discriminate H |].
    reflexivity.
  - intros conn Hconn Hget. rewrite Hget.
    destruct (decide (VUndefined = VUndefined)) as [_ | H]; [| destruct H; reflexivity].
    unfold createConfirmChannelPromise. cbn [try_catch bind exec boot this]. rewrite Hconn.
    split; reflexivity.
Qed.

(** ** Closing a channel *)

(** X7. [closeChannel] on a registered name closes the stored channel and
    removes the name from the map; it makes no request that waits for an
    answer and keeps the consumer tag stored under the name.  After it, the
    name is unknown again: a second [closeChannel] and the acknowledgement
    methods throw the channel-not-found error and call nothing. *)
Theorem closeChannel_forgets_channel (c : Config) (channelName : string) (ch : nat) :
  Map_get (channels (this c)) channelName = VChannel ch ->
  let c' := fst (exec (closeChannel channelName) c) in
  exec (closeChannel channelName) c = (c', Returned VUndefined) /\
  trace c' = trace c ++ [Did (Call (Close ch))] /\
  inflight c' = inflight c /\
  channels (this c') = delete channelName (channels (this c)) /\
  consumerTags (this c') = consumerTags (this c) /\
  rabbitConn (this c') = rabbitConn (this c) /\
  exec (closeChannel channelName) c' = (c', Thrown channel_not_found) /\
  exec (ackAll channelName) c' = (c', Thrown channel_not_found) /\
  exec (nackAll channelName None) c' = (c', Thrown channel_not_found) /\
  exec (cancelChannel channelName) c' = (c', Thrown channel_not_found).
Proof.
  intros Hget c'.
  assert (Hc' : exec (closeChannel channelName) c
                = ({| this := {| rabbitConn := rabbitConn (this c);
                                 channels := delete channelName (channels (this c));
                                 consumerTags := consumerTags (this c) |};
                      inflight := inflight c; next_id := next_id c;
                      trace := trace c ++ [Did (Call (Close ch))];
                      promise := promise c |}, Returned VUndefined)).
  { unfold closeChannel, checkChannelExists. cbn [exec]. rewrite Hget.
    destruct (decide (VChannel ch = VUndefined)) as [H | _]; [discriminate H |].
    reflexivity. }
  unfold c'. rewrite Hc'. cbn [fst].
  repeat split; unfold closeChannel, ackAll, nackAll, cancelChannel, checkChannelExists;
    cbn [exec this channels]; unfold Map_get; rewrite lookup_delete_eq; cbn [default from_option];
    (destruct (decide (VUndefined = VUndefined)) as [_ | H]; [| destruct H; reflexivity]);
    reflexivity.
Qed.

Lemma closeChannel_forgets_channel_witness :
  exec (closeChannel "events") (boot registered)
  = (fst (exec (closeChannel "events") (boot registered)), Returned VUndefined) /\
  exec (closeChannel "events") (fst (exec (closeChannel "events") (boot registered)))
  = (fst (exec (closeChannel "events") (boot registered)), Thrown channel_not_found).
Proof.
  destruct (closeChannel_forgets_channel (boot registered) "events" 0 eq_refl)
    as (H1 & _ & _ & _ & _ & _ & H2 & _).
  split; [exact H1 | exact H2].
Defined.

(** ** Consuming and cancelling *)

Lemma consume_registered (s : ZeroRabbit) (channelName qName : string)
    (options : OptionsArg) (callback : Callback) (ch : nat) :
  Map_get (channels s) channelName = VChannel ch ->
  exists cb,
    fst (exec (exports.consume (Some channelName) (Some qName) options callback) (boot s))
    = {| this := s;
         inflight := [(0, Consume ch qName (consume_onMessage callback) (or_object options), OnReply cb)];
         next_id := 1;
         trace := [Did (Debug "Retrieved confirm channel from this.channels");
                   Did (Debug ("Listenting on channel " +:+ channelName +:+ " to: " +:+ qName
                               +:+ " with options: "
                               +:+ inspect_options (or_object options)));
                   Issued 0 (Consume ch qName (consume_onMessage callback) (or_object options));
                   Settled (Fulfilled VUndefined)];
         promise := None |} /\
    (forall err, cb (Failure err) = Throw (Error err)) /\
    (forall tag, cb (Ok tag)
                 = Read (fun s' =>
                     Write {| rabbitConn := rabbitConn s';
                              channels := channels s';
                              consumerTags := <[channelName := Some tag]> (consumerTags s') |}
                           skip)).
Proof.
  intros Hget. eexists. split; [| split].
  - unfold exports.consume, spawn, consume, getChannel.
    cbn [default from_option id bind exec boot this]. rewrite Hget.
    destruct (decide (VChannel ch = VUndefined)) as [H | _]; [discriminate H |].
    cbn. reflexivity.
  - reflexivity.
  - reflexivity.
Qed.

(** X8. [consume] on a registered name asks the broker for a consumer on
    the stored channel and its promise is fulfilled before the broker
    answers.  When the broker confirms, the consumer tag is stored under the
    channel name, and [cancelChannel] for that name then cancels that tag on
    that channel. *)
Theorem consume_then_cancel (s : ZeroRabbit) (channelName qName : string)
    (options : OptionsArg) (callback : Callback) (ch : nat) (tag : string) :
  Map_get (channels s) channelName = VChannel ch ->
  let c1 := fst (exec (exports.consume (Some channelName) (Some qName) options callback)
                      (boot s)) in
  let c2 := run [(0, Succeeds tag)] c1 in
  outstanding c1 = [Consume ch qName (consume_onMessage callback) (or_object options)] /\
  last (trace c1) = Some (Settled (Fulfilled VUndefined)) /\
  this c2 = {| rabbitConn := rabbitConn s; channels := channels s;
               consumerTags := <[channelName := Some tag]> (consumerTags s) |} /\
  exec (cancelChannel channelName) c2
  = (log (Did (Call (Cancel ch (Some tag)))) c2, Returned VUndefined).
Proof.
  intros Hget c1 c2.
  destruct (consume_registered s channelName qName options callback ch Hget)
    as (cb & Hc1 & _ & Hok).
  assert (Hc2 : this c2 = {| rabbitConn := rabbitConn s; channels := channels s;
                             consumerTags := <[channelName := Some tag]> (consumerTags s) |}).
  { unfold c2, c1. rewrite Hc1. cbn. rewrite Hok. reflexivity. }
  split; [unfold c1; rewrite Hc1; reflexivity |].
  split; [unfold c1; rewrite Hc1; reflexivity |].
  split; [exact Hc2 |].
  clearbody c2. unfold cancelChannel, checkChannelExists. cbn [exec]. rewrite Hc2.
  cbn [channels consumerTags]. rewrite Hget, lookup_insert_eq.
  destruct (decide (VChannel ch = VUndefined)) as [H | _]; [discriminate H |].
  reflexivity.
Qed.

Lemma consume_then_cancel_witness :
  exec (cancelChannel "events")
       (run [(0, Succeeds "ctag-1")]
            (fst (exec (exports.consume (Some "events") (Some "jobs") NoOptions "onMessage")
                       (boot registered))))
  = (log (Did (Call (Cancel 0 (Some "ctag-1"))))
         (run [(0, Succeeds "ctag-1")]
              (fst (exec (exports.consume (Some "events") (Some "jobs") NoOptions "onMessage")
                         (boot registered)))),
     Returned VUndefined).
Proof.
  exact (proj2 (proj2 (proj2 (consume_then_cancel registered "events" "jobs" NoOptions
                                "onMessage" 0 "ctag-1" eq_refl)))).
Defined.



(** ** Acknowledgements *)

(** X10. On a registered name the four acknowledgement functions make one
    call each on the stored channel and nothing else: [ack] and [nack] name
    the delivery the message was made from, [ack] is for that delivery alone
    unless told otherwise, [nack] and [nackAll] ask for a requeue unless
    told otherwise. *)
Theorem acknowledgements_on_registered_channel (c : Config) (channelName : string)
    (ch : nat) (message : ZeroRabbitMsg.t) :
  Map_get (channels (this c)) channelName = VChannel ch ->
  exec (exports.ack (Some channelName) (Some message) None) c
  = (log (Did (Call (Ack ch (ZeroRabbitMsg.getMsg message) false))) c, Returned VUndefined) /\
  exec (exports.nack (Some channelName) (Some message) None None) c
  = (log (Did (Call (Nack ch (ZeroRabbitMsg.getMsg message) false true))) c,
     Returned VUndefined) /\
  exec (exports.ackAll (Some channelName)) c
  = (log (Did (Call (AckAll ch))) c, Returned VUndefined) /\
  exec (exports.nackAll (Some channelName) None) c
  = (log (Did (Call (NackAll ch true))) c, Returned VUndefined).
Proof.
  intros Hget.
  repeat split;
    unfold exports.ack, exports.nack, exports.ackAll, exports.nackAll,
           ack, nack, ackAll, nackAll, checkChannelExists;
    cbn [default from_option id exec]; rewrite Hget;
    (destruct (decide (VChannel ch = VUndefined)) as [H | _]; [discriminate H |]);
    reflexivity.
Qed.

Lemma acknowledgements_on_registered_channel_witness :
  exec (exports.ackAll (Some "events")) (boot registered)
  = (log (Did (Call (AckAll 0))) (boot registered), Returned VUndefined).
Proof.
  exact (proj1 (proj2 (proj2 (acknowledgements_on_registered_channel (boot registered)
                                "events" 0
                                {| ZeroRabbitMsg.content := a_is_1;
                                   ZeroRabbitMsg.msg := {| Delivery.content := [];
                                                           Delivery.deliveryTag := 1 |} |}
                                eq_refl)))).
Defined.

(** X11. The exported [ack] and [nack] called without a message raise a
    [TypeError] whatever the channel name, registered or not: the default of
    the parameter is a message wrapper made from no delivery.  Nothing is
    called and nothing changes. *)
Theorem ack_without_message_raises (c : Config) (channelName : option string)
    (allUpTo requeue : option bool) :
  exec (exports.ack channelName None allUpTo) c
  = (c, Thrown (TypeError "Cannot read properties of undefined (reading 'content')")) /\
  exec (exports.nack channelName None allUpTo requeue) c
  = (c, Thrown (TypeError "Cannot read properties of undefined (reading 'content')")).
Proof. split; reflexivity. Qed.

(** ** Publishing on a name that is not registered *)

Lemma or_empty_default (routingKey : option string) :
  or_empty (Some (default EmptyString routingKey)) = or_empty routingKey.
Proof. destruct routingKey as [[| a k] |]; reflexivity. Qed.

Lemma publish_missing (s : ZeroRabbit) (channelName exName : string) (v : JSON.value)
    (routingKey : option string) (options : OptionsArg) (conn : nat) :
  rabbitConn s = Some conn ->
  Map_get (channels s) channelName = VUndefined ->
  exists k,
    fst (exec (exports.publish (Some channelName) (Some exName) (Some v) routingKey options)
              (boot s))
    = issue (CreateConfirmChannel conn)
            (OnSettle (createConfirmChannel_callback channelName) k) (boot s) /\
    (forall ch, k (Fulfilled (VChannel ch))
                = Emit (Debug ("Created confirm channel: " +:+ channelName))
                    (Emit (Call (Publish ch exName (or_empty routingKey)
                                   (Buffer.from (JSON.stringify v)) (or_object options)))
                          skip)) /\
    (forall err, k (Rejected (Raised err))
                 = Throw (Error ("Error creating channel: " +:+ err))).
Proof.
  intros Hconn Hget. eexists. split; [| split].
  - unfold exports.publish, spawn, publish, getChannel.
    cbn [default from_option id bind exec boot this]. rewrite Hget.
    destruct (decide (VUndefined = VUndefined)) as [_ | H]; [| destruct H; reflexivity].
    unfold createConfirmChannelPromise. cbn [try_catch bind exec boot this]. rewrite Hconn.
    reflexivity.
  - intros ch. cbn. rewrite or_empty_default.
    destruct options; reflexivity.
  - intros err. reflexivity.
Qed.

(** X12. The exported [publish] on a connected object, for a channel name
    that is not registered: it first asks the broker for a channel and
    publishes nothing yet; when the broker opens the channel, the channel is
    stored under the name and the message is published on it, once, as the
    UTF-8 JSON text of the body, with the routing key or the empty string. *)
Theorem publish_creates_channel (s : ZeroRabbit) (channelName exName : string)
    (v : JSON.value) (routingKey : option string) (options : OptionsArg) (conn : nat)
    (info : string) :
  rabbitConn s = Some conn ->
  Map_get (channels s) channelName = VUndefined ->
  let c1 := fst (exec (exports.publish (Some channelName) (Some exName) (Some v)
                                       routingKey options) (boot s)) in
  let c2 := run [(0, Succeeds info)] c1 in
  trace c1 = [Issued 0 (CreateConfirmChannel conn)] /\
  trace c2 = [Issued 0 (CreateConfirmChannel conn);
              Replied 0 (Opened 0);
              Did (Debug ("Created confirm channel: " +:+ channelName));
              Did (Call (Publish 0 exName
                           (match routingKey with Some key => key | None => EmptyString end)
                           (Buffer.from (JSON.stringify v))
                           (match options with
                            | OptionsObject fields => OptionsObject fields
                            | NoOptions => OptionsObject []
                            end)));
              Settled (Fulfilled VUndefined)] /\
  channels (this c2) = <[channelName := VChannel 0]> (channels s) /\
  inflight c2 = [].
Proof.
  intros Hconn Hget c1 c2.
  destruct (publish_missing s channelName exName v routingKey options conn Hconn Hget)
    as (k & Hc1 & Hk & _).
  unfold c2, c1. rewrite Hc1. cbn. rewrite Hk. cbn.
  destruct routingKey as [[| a key] |]; destruct options; auto.
Qed.

Lemma publish_creates_channel_witness :
  channels (this (run [(0, Succeeds "")]
                    (fst (exec (exports.publish (Some "events") (Some "logs") (Some a_is_1)
                                                None NoOptions) (boot connected)))))
  = <["events" := VChannel 0]> (channels connected).
Proof.
  exact (proj1 (proj2 (proj2 (publish_creates_channel connected "events" "logs" a_is_1 None
                                NoOptions 7 "" eq_refl eq_refl)))).
Defined.

(** X13. When the broker refuses the channel, the exported [publish]
    publishes nothing: its promise, which nobody holds, is rejected with
    the error text after [Error creating channel: ], and the name is left in
    the map with the value [undefined]. *)
Theorem publish_refused (s : ZeroRabbit) (channelName exName : string)
    (v : JSON.value) (routingKey : option string) (options : OptionsArg) (conn : nat)
    (err : BrokerError) :
  rabbitConn s = Some conn ->
  Map_get (channels s) channelName = VUndefined ->
  let c := run [(0, Fails err)]
             (fst (exec (exports.publish (Some channelName) (Some exName) (Some v)
                                         routingKey options) (boot s))) in
  trace c = [Issued 0 (CreateConfirmChannel conn);
             Replied 0 (Failure err);
             Settled (Rejected (Error ("Error creating channel: " +:+ err)))] /\
  channels (this c) = <[channelName := VUndefined]> (channels s) /\
  inflight c = [].
Proof.
  intros Hconn Hget c.
  destruct (publish_missing s channelName exName v routingKey options conn Hconn Hget)
    as (k & Hc1 & _ & Hk).
  unfold c. rewrite Hc1. cbn. rewrite Hk. cbn. auto.
Qed.

Lemma publish_refused_witness :
  inflight (run [(0, Fails "refused")]
              (fst (exec (exports.publish (Some "events") (Some "logs") (Some a_is_1)
                                          None NoOptions) (boot connected))))
  = [].
Proof.
  exact (proj2 (proj2 (publish_refused connected "events" "logs" a_is_1 None NoOptions 7
                         "refused" eq_refl eq_refl))).
Defined.

(** ** A name whose channel could not be made *)

(** X14. A refused channel does not block its name: the name is left in
    the map with the value [undefined], so the next [getChannel] for it asks
    the broker again, and when the broker opens the channel this time, that
    channel is stored under the name and returned. *)
Theorem getChannel_asks_again_after_refusal (s : ZeroRabbit) (channelName : string)
    (conn : nat) (err : BrokerError) (info : string) :
  rabbitConn s = Some conn ->
  Map_get (channels s) channelName = VUndefined ->
  let c1 := run [(0, Fails err)]
              (fst (exec (exports.getChannel (Some channelName) None) (boot s))) in
  let c2 := fst (exec (exports.getChannel (Some channelName) None) c1) in
  let c3 := run [(1, Succeeds info)] c2 in
  channels (this c1) !! channelName = Some VUndefined /\
  outstanding c1 = [] /\
  outstanding c2 = [CreateConfirmChannel conn] /\
  channels (this c3) !! channelName = Some (VChannel 1) /\
  last (trace c3) = Some (Settled (Fulfilled (VChannel 1))).
Proof.
  intros Hconn Hget c1 c2 c3.
  assert (Hc1 : c1 = {| this := {| rabbitConn := rabbitConn s;
                                   channels := <[channelName := VUndefined]> (channels s);
                                   consumerTags := consumerTags s |};
                        inflight := []; next_id := 1;
                        trace := [Issued 0 (CreateConfirmChannel conn);
                                  Replied 0 (Failure err);
                                  Settled (Rejected (Error ("Error creating channel: "
                                                            +:+ err)))];
                        promise := None |}).
  { unfold c1, exports.getChannel. cbn [default from_option id].
    rewrite exec_spawn. cbn [fst].
    destruct (getChannel_missing (boot s) channelName conn Hget Hconn) as (k & Hex & _ & Hk).
    rewrite Hex. cbn. rewrite Hk. reflexivity. }
  assert (Hget1 : Map_get (channels (this c1)) channelName = VUndefined).
  { rewrite Hc1. cbn. unfold Map_get. rewrite lookup_insert_eq. reflexivity. }
  assert (Hconn1 : rabbitConn (this c1) = Some conn) by (rewrite Hc1; exact Hconn).
  destruct (getChannel_missing c1 channelName conn Hget1 Hconn1) as (k & Hex & Hk & _).
  assert (Hc2 : c2 = issue (CreateConfirmChannel conn)
                           (OnSettle (createConfirmChannel_callback channelName) k) c1).
  { unfold c2, exports.getChannel. cbn [default from_option id].
    rewrite exec_spawn, Hex. reflexivity. }
  split; [rewrite Hc1; cbn; apply lookup_insert_eq |].
  split; [rewrite Hc1; reflexivity |].
  split; [rewrite Hc2, Hc1; reflexivity |].
  unfold c3. rewrite Hc2, Hc1. cbn. rewrite Hk. cbn.
  split; [apply lookup_insert_eq | reflexivity].
Qed.

Lemma getChannel_asks_again_after_refusal_witness :
  outstanding (fst (exec (exports.getChannel (Some "events") None)
                         (run [(0, Fails "refused")]
                              (fst (exec (exports.getChannel (Some "events") None)
                                         (boot connected))))))
  = [CreateConfirmChannel 7].
Proof.
  exact (proj1 (proj2 (proj2 (getChannel_asks_again_after_refusal connected "events" 7
                                "refused" "" eq_refl eq_refl)))).
Defined.

(** ** Operations given a callback *)

(** X15. [deleteQueue] with a callback, on a registered name: the promise
    of the call is fulfilled as soon as the request is handed to the
    library, before the broker answers; whatever the broker answers, the
    callback is called once with the library's [(err, ok)] and nothing is
    thrown. *)
Theorem deleteQueue_with_callback (s : ZeroRabbit) (channelName qName : string)
    (options : OptionsArg) (callback : Callback) (ch : nat) (o : BrokerOutcome) :
  Map_get (channels s) channelName = VChannel ch ->
  let b := DeleteQueue ch qName (or_object options) in
  let r := reply_of b 0 o in
  trace (run [(0, o)]
           (fst (exec (exports.deleteQueue (Some channelName) (Some qName) options
                                           (Some callback)) (boot s))))
  = [Did (Debug "Retrieved confirm channel from this.channels");
     Issued 0 b;
     Settled (Fulfilled VUndefined);
     Replied 0 r;
     Did (Invoke callback (err_arg r) (result_arg r))].
Proof.
  intros Hget b r. unfold exports.deleteQueue, spawn, deleteQueue, getChannel.
  cbn [default from_option id bind exec boot this]. rewrite Hget.
  destruct (decide (VChannel ch = VUndefined)) as [H | _]; [discriminate H |].
  destruct o; reflexivity.
Qed.

Lemma deleteQueue_with_callback_witness :
  trace (run [(0, Fails "NOT_FOUND")]
           (fst (exec (exports.deleteQueue (Some "events") (Some "jobs") NoOptions
                                           (Some "onDeleted")) (boot registered))))
  = [Did (Debug "Retrieved confirm channel from this.channels");
     Issued 0 (DeleteQueue 0 "jobs" (OptionsObject []));
     Settled (Fulfilled VUndefined);
     Replied 0 (Failure "NOT_FOUND");
     Did (Invoke "onDeleted" (AError (Raised "NOT_FOUND")) AUndefined)].
Proof.
  exact (deleteQueue_with_callback registered "events" "jobs" NoOptions "onDeleted" 0
           (Fails "NOT_FOUND") eq_refl).
Defined.

(** X16. [deleteQueue] without a callback, on a registered name: when the
    broker refuses, [Error deleting queue: ] followed by the error is thrown
    inside the library's callback and leaves it uncaught, after the promise
    of the call has been fulfilled; when the broker agrees, two lines are
    logged.  The object is unchanged either way. *)
Theorem deleteQueue_without_callback (s : ZeroRabbit) (channelName qName : string)
    (options : OptionsArg) (ch : nat) :
  Map_get (channels s) channelName = VChannel ch ->
  let c := fst (exec (exports.deleteQueue (Some channelName) (Some qName) options None)
                     (boot s)) in
  let b := DeleteQueue ch qName (or_object options) in
  (forall err,
     run [(0, Fails err)] c
     = {| this := s; inflight := []; next_id := 1;
          trace := [Did (Debug "Retrieved confirm channel from this.channels");
                    Issued 0 b;
                    Settled (Fulfilled VUndefined);
                    Replied 0 (Failure err);
                    Uncaught (Error ("Error deleting queue: " +:+ err))];
          promise := None |}) /\
  (forall info,
     run [(0, Succeeds info)] c
     = {| this := s; inflight := []; next_id := 1;
          trace := [Did (Debug "Retrieved confirm channel from this.channels");
                    Issued 0 b;
                    Settled (Fulfilled VUndefined);
                    Replied 0 (Ok info);
                    Did (Debug ("Deleted queue " +:+ qName +:+ " on channel "
                                +:+ channelName));
                    Did (Debug ("Deleted queue with options "
                                +:+ options_text (or_object options)))];
          promise := None |}).
Proof.
  intros Hget. cbn zeta. unfold exports.deleteQueue, spawn, deleteQueue, getChannel.
  cbn [default from_option id bind exec boot this]. rewrite Hget.
  destruct (decide (VChannel ch = VUndefined)) as [H | _]; [discriminate H |].
  split; intros; reflexivity.
Qed.

Lemma deleteQueue_without_callback_witness :
  run [(0, Fails "NOT_FOUND")]
      (fst (exec (exports.deleteQueue (Some "events") (Some "jobs") NoOptions None)
                 (boot registered)))
  = {| this := registered; inflight := []; next_id := 1;
       trace := [Did (Debug "Retrieved confirm channel from this.channels");
                 Issued 0 (DeleteQueue 0 "jobs" (OptionsObject []));
                 Settled (Fulfilled VUndefined);
                 Replied 0 (Failure "NOT_FOUND");
                 Uncaught (Error ("Error deleting queue: " +:+ "NOT_FOUND"))];
       promise := None |}.
Proof.
  exact (proj1 (deleteQueue_without_callback registered "events" "jobs" NoOptions 0 eq_refl)
           "NOT_FOUND").
Defined.

(** X17. The exported [assertExchange], [assertQueue] and [bindQueue] given
    a callback, on a registered name: whatever the broker answers, the
    callback is called once with the library's [(err, result)] and nothing
    is thrown or logged in its place; the promise of the call has been
    fulfilled before. *)
Theorem assertions_with_callback (s : ZeroRabbit) (channelName qName exName type key : string)
    (options : OptionsArg) (callback : Callback) (ch : nat) (o : BrokerOutcome) :
  Map_get (channels s) channelName = VChannel ch ->
  let found := Did (Debug "Retrieved confirm channel from this.channels") in
  let outcome b := [Replied 0 (reply_of b 0 o);
                    Did (Invoke callback (err_arg (reply_of b 0 o))
                                         (result_arg (reply_of b 0 o)))] in
  trace (run [(0, o)]
           (fst (exec (exports.assertExchange (Some channelName) (Some exName) (Some type)
                                              options (Some callback)) (boot s))))
  = [found; Issued 0 (AssertExchange ch exName type (or_object options));
     Settled (Fulfilled VUndefined)]
    ++ outcome (AssertExchange ch exName type (or_object options)) /\
  trace (run [(0, o)]
           (fst (exec (exports.assertQueue (Some channelName) (Some qName) options
                                           (Some callback)) (boot s))))
  = [found; Issued 0 (AssertQueue ch qName (or_object options));
     Settled (Fulfilled VUndefined)]
    ++ outcome (AssertQueue ch qName (or_object options)) /\
  trace (run [(0, o)]
           (fst (exec (exports.bindQueue (Some channelName) (Some qName) (Some exName)
                                         (Some key) options (Some callback)) (boot s))))
  = [found; Issued 0 (BindQueue ch qName exName key (or_object options));
     Settled (Fulfilled VUndefined)]
    ++ outcome (BindQueue ch qName exName key (or_object options)).
Proof.
  intros Hget. cbn zeta.
  unfold exports.assertExchange, exports.assertQueue, exports.bindQueue, spawn,
         assertExchange, assertQueue, bindQueue, getChannel.
  cbn [default from_option id bind exec boot this]. rewrite Hget.
  destruct (decide (VChannel ch = VUndefined)) as [H | _]; [discriminate H |].
  destruct o; repeat split; reflexivity.
Qed.

Lemma assertions_with_callback_witness :
  trace (run [(0, Succeeds "jobs")]
           (fst (exec (exports.assertQueue (Some "events") (Some "jobs") NoOptions
                                           (Some "onQueue")) (boot registered))))
  = [Did (Debug "Retrieved confirm channel from this.channels");
     Issued 0 (AssertQueue 0 "jobs" (OptionsObject []));
     Settled (Fulfilled VUndefined);
     Replied 0 (Ok "jobs");
     Did (Invoke "onQueue" ANull (AInfo "jobs"))].
Proof.
  exact (proj1 (proj2 (assertions_with_callback registered "events" "jobs" "logs" "fanout"
                         "key" NoOptions "onQueue" 0 (Succeeds "jobs") eq_refl))).
Defined.

(** ** Set-up inside [connect] *)

Lemma lift_last_snoc f l x : lift_last f (l ++ [x]) = l ++ [lift_entry f x].
Proof.
  induction l as [| y l IH]; [reflexivity |].
  destruct l as [| z l']; [reflexivity |].
  cbn [app] in *.
  change (lift_last f (y :: z :: l' ++ [x])) with (y :: lift_last f (z :: l' ++ [x])).
  rewrite IH. reflexivity.
Qed.

(** Sequencing, run: the second part starts when the first returns, and
    waits with it when it is suspended. *)
Lemma exec_bind m f : forall c,
  exec (bind m f) c
  = match exec m c with
    | (c', Returned v) => exec (f v) c'
    | (c', Thrown e) => (c', Thrown e)
    | (c', Suspended) => (lift f c', Suspended)
    end.
Proof.
  induction m as [v | e | k IH | s k IH | ev k IH | b cb IHcb k IH | b cb IHcb k IH
                  | v k IH | e k IH | m' IHm k IH]; intros c; cbn [bind exec].
  - reflexivity.
  - reflexivity.
  - apply IH.
  - apply IH.
  - apply IH.
  - apply IH.
  - unfold lift, issue, set_inflight. cbn. rewrite lift_last_snoc. reflexivity.
  - apply IH.
  - apply IH.
  - apply IH.
Qed.

Lemma callbacks_app t1 t2 : callbacks (t1 ++ t2) = callbacks t1 ++ callbacks t2.
Proof. unfold callbacks. apply omap_app. Qed.

Lemma exec_chain_keeps rem m :
  chain anything rem m ->
  forall c, this (exec m c).1 = this c /\
            callbacks (trace (exec m c).1) = callbacks (trace c).
Proof.
  induction 1 as [v Hv | rem reason | rem k Hk IH | rem line k Hk IH
                  | rem b d cb k Hb Hcb Hk IH | rem conn channelName k Hrej Hk IH];
    intros c; cbn [exec fst]; auto.
  - destruct (IH (log (Did (Debug line)) c)) as [H1 H2]. split; [exact H1 |].
    rewrite H2. cbn. rewrite callbacks_app. apply app_nil_r.
  - destruct (IH (issue b (OnReply cb) c)) as [H1 H2]. split; [exact H1 |].
    rewrite H2. cbn. rewrite callbacks_app. apply app_nil_r.
  - split; [reflexivity |]. cbn. rewrite callbacks_app. apply app_nil_r.
Qed.

Lemma escape_quiet_callbacks m c :
  quiet m -> callbacks (trace (escape (exec m c))) = callbacks (trace c).
Proof.
  intros Hq. revert c. induction Hq as [v | e | line k Hk IH]; intros c; cbn.
  - reflexivity.
  - rewrite callbacks_app. apply app_nil_r.
  - rewrite IH. cbn. rewrite callbacks_app. apply app_nil_r.
Qed.

Lemma suspended_nonempty rem l : suspended rem l -> l <> [].
Proof. destruct 1; discriminate. Qed.

Lemma lift_last_cons f x l : l <> [] -> lift_last f (x :: l) = x :: lift_last f l.
Proof. destruct l; [congruence | reflexivity]. Qed.

(** The outstanding requests of a suspended set-up that [f] follows. *)
Lemma take_lift_last f rem l :
  suspended rem l ->
  forall id,
  match take id l with
  | None => take id (lift_last f l) = None
  | Some (b, h, rest) =>
      (idle (id, b, h) /\ suspended rem rest /\
       take id (lift_last f l) = Some (b, h, lift_last f rest))
      \/ (Forall idle rest /\
          exists cb k, h = OnSettle cb k /\ waiting rem (id, b, h) /\
            take id (lift_last f l) = Some (b, OnSettle cb (fun s => bind (k s) f), rest))
  end.
Proof.
  induction 1 as [[[i b0] h0] Hx | [[i b0] h0] l Hx Hl IH]; intros id.
  - cbn [take lift_last].
    assert (Hh : exists cb k, h0 = OnSettle cb k).
    { simpl in Hx. destruct b0; try (destruct Hx; fail). destruct h0; [destruct Hx |]. eauto. }
    destruct Hh as (cb & k & ->). cbn [lift_entry take].
    destruct (Nat.eqb i id) eqn:E; [| reflexivity].
    apply Nat.eqb_eq in E. subst i.
    right. split; [constructor |]. exists cb, k. auto.
  - rewrite (lift_last_cons f _ l (suspended_nonempty _ _ Hl)).
    cbn [take]. destruct (Nat.eqb i id) eqn:E.
    + apply Nat.eqb_eq in E. subst i. left. auto.
    + specialize (IH id).
      destruct (take id l) as [[[b h] rest] |].
      * destruct IH as [(H1 & H2 & H3) | (H1 & cb & k & -> & H2 & H3)].
        -- rewrite H3. left. split; [exact H1 |]. split; [apply suspended_cons; auto |].
           rewrite (lift_last_cons f _ rest (suspended_nonempty _ _ H2)). reflexivity.
        -- rewrite H3. right. split; [constructor; auto |]. exists cb, k. auto.
      * rewrite IH. reflexivity.
Qed.

Section ConnectSetup.

Variable f : Value -> Async.
Variable cb : Callback.
Variables e r : Arg.

(** What follows set-up logs a line and calls the callback. *)
Hypothesis f_calls_back : forall v c, exists line,
  exec (f v) c = (log (Did (Invoke cb e r)) (log (Did (Debug line)) c), Returned VUndefined).

Lemma conclude_then decls rem m c conn :
  chain anything rem m ->
  Forall idle (inflight c) ->
  asserted (trace c) ++ rem = decls ->
  callbacks (trace c) = [] ->
  rabbitConn (this c) = Some conn ->
  connect_invariant f decls (cb, e, r) conn (conclude (exec (bind m f) c)).
Proof.
  intros Hm Hidle Hdecls Hcalls Hconn.
  rewrite exec_bind.
  destruct (exec_chain rem m Hm c Hidle) as (p & Hp & _ & Ho).
  destruct (exec_chain_keeps rem m Hm c) as [Hthis Hcb].
  destruct (exec m c) as [c1 o]. cbn [fst snd] in *.
  destruct o as [v | err |].
  - destruct Ho as [-> Ho]. destruct (f_calls_back v c1) as [line Hex]. rewrite Hex.
    split; [cbn; rewrite Hthis; exact Hconn |].
    right. cbn [conclude log trace inflight this]. rewrite !asserted_app, !callbacks_app, Hp, Hcb, Hcalls. cbn.
    rewrite !app_nil_r, Hdecls. auto.
  - destruct Ho as (_ & Hpre & Ho).
    split; [cbn; rewrite Hthis; exact Hconn |].
    right. cbn [conclude log trace inflight this]. rewrite asserted_app, callbacks_app, Hp, Hcb, Hcalls. cbn.
    rewrite app_nil_r. repeat split; auto.
    rewrite <- Hdecls. apply prefix_app. exact Hpre.
  - destruct Ho as (rem' & <- & Ho).
    split; [cbn; rewrite Hthis; exact Hconn |].
    left. exists rem', (inflight c1). cbn [conclude lift set_inflight inflight trace]. repeat split; auto.
    + rewrite Hp, <- app_assoc. exact Hdecls.
    + rewrite Hcb. exact Hcalls.
Qed.

Lemma connect_invariant_deliver decls conn c id o c' :
  connect_invariant f decls (cb, e, r) conn c ->
  deliver id o c = Some c' ->
  connect_invariant f decls (cb, e, r) conn c'.
Proof.
  intros [Hconn Hinv] Hd.
  destruct Hinv as [(rem & l & Hsus & Hin & Hdecls & Hcalls) | (Hidle & Hpre & Hcalls)].
  - pose proof (take_lift_last f rem l Hsus id) as Ht.
    destruct (take id l) as [[[b h] rest] |];
      [| unfold deliver in Hd; rewrite Hin, Ht in Hd; discriminate].
    destruct Ht as [(Hi & Hrest & Ht) | (Hrest & k0 & k & -> & Hw & Ht)].
    + rewrite <- Hin in Ht.
      destruct (deliver_idle c id o b h _ Ht Hi) as (c2 & Hd2 & Hthis & Hin2 & Hbc & _).
      rewrite Hd in Hd2. inversion Hd2; subst c2.
      split; [rewrite Hthis; exact Hconn |].
      left. exists rem, rest. repeat split; auto.
      * unfold asserted. rewrite Hbc. exact Hdecls.
      * unfold deliver in Hd. rewrite Ht in Hd.
        destruct h as [cb0 | ? ?]; [| destruct Hi].
        inversion Hd; subst c'. destruct Hi as [_ [Hq _]].
        rewrite (escape_quiet_callbacks _ _ (Hq _)). cbn.
        rewrite callbacks_app, Hcalls. reflexivity.
    + rewrite <- Hin in Ht. unfold deliver in Hd. rewrite Ht in Hd.
      destruct b; try (destruct Hw; fail).
      destruct Hw as ([channelName ->] & Hrej & Hk).
      destruct o as [err | info].
      * cbn in Hd. rewrite Hrej in Hd. cbn in Hd. inversion Hd; subst c'.
        unfold connect_invariant.
        cbn [log set_promise settle set_this set_inflight trace inflight this rabbitConn].
        split; [exact Hconn |].
        right. repeat split; auto.
        -- rewrite <- app_assoc, asserted_app. cbn. rewrite app_nil_r, <- Hdecls.
           apply prefix_app_r. reflexivity.
        -- left. rewrite <- app_assoc, callbacks_app, Hcalls. reflexivity.
      * cbn in Hd. inversion Hd; subst c'.
        apply (conclude_then decls rem (k (Fulfilled (VChannel id))) _ conn (Hk id)).
        -- exact Hrest.
        -- cbn [log set_promise settle set_this set_inflight trace inflight this].
           rewrite asserted_app. cbn. rewrite app_nil_r. exact Hdecls.
        -- cbn [log set_promise settle set_this set_inflight trace inflight this].
           rewrite callbacks_app, Hcalls. reflexivity.
        -- exact Hconn.
  - destruct (take id (inflight c)) as [[[b h] rest] |] eqn:Ht;
      [| unfold deliver in Hd; rewrite Ht in Hd; discriminate].
    destruct (take_idle _ Hidle _ _ _ _ Ht) as [Hi Hrest].
    destruct (deliver_idle c id o b h rest Ht Hi) as (c2 & Hd2 & Hthis & Hin2 & Hbc & _).
    rewrite Hd in Hd2. inversion Hd2; subst c2.
    split; [rewrite Hthis; exact Hconn |].
    right. unfold asserted in *. rewrite Hbc.
    assert (Hsame : callbacks (trace c') = callbacks (trace c)).
    { unfold deliver in Hd. rewrite Ht in Hd.
      destruct h as [cb0 | ? ?]; [| destruct Hi].
      inversion Hd; subst c'. destruct Hi as [_ [Hq _]].
      rewrite (escape_quiet_callbacks _ _ (Hq _)). cbn.
      rewrite callbacks_app. apply app_nil_r. }
    rewrite Hsame, Hin2. auto.
Qed.

Lemma connect_invariant_run decls conn schedule :
  forall c, connect_invariant f decls (cb, e, r) conn c ->
            connect_invariant f decls (cb, e, r) conn (run schedule c).
Proof.
  induction schedule as [| [id o] schedule IH]; intros c Hinv; simpl.
  - exact Hinv.
  - apply IH. destruct (deliver id o c) as [c' |] eqn:Hd.
    + eapply connect_invariant_deliver; eauto.
    + exact Hinv.
Qed.

End ConnectSetup.

Lemma connected_then_calls_back cb r v c :
  exists line,
    exec (connected_then (Some cb) r v) c
    = (log (Did (Invoke cb (err_arg r) (result_arg r))) (log (Did (Debug line)) c),
       Returned VUndefined).
Proof. eexists. reflexivity. Qed.

Lemma run_nothing_outstanding schedule c : inflight c = [] -> run schedule c = c.
Proof.
  intros H. induction schedule as [| [id o] schedule IH]; simpl; [reflexivity |].
  unfold deliver. rewrite H. exact IH.
Qed.

(** [connect] with a configuration that passes the check: one request to
    the library, whose callback raises on an error and otherwise stores the
    connection and starts set-up. *)
Lemma connect_start (s : ZeroRabbit) (opts : Opts.t) (callback : option Callback) :
  supplies_connection opts <> supplies_url opts ->
  exists target K line,
    exec (connect opts callback) (boot s)
    = (issue (Connect target) (OnReply K) (boot s), Returned VUndefined) /\
    (forall err, K (Failure err) = Throw (ReferenceError "cb is not defined")) /\
    (forall conn,
       K (Connected conn)
       = Emit (Debug line)
           (Read (fun s0 =>
              Write {| rabbitConn := Some conn; channels := channels s0;
                       consumerTags := consumerTags s0 |}
                (spawn (bind (setupTopology opts)
                             (connected_then callback (Connected conn))))))).
Proof.
  intros Hne. unfold connect, supplies_connection, supplies_url in *.
  destruct (Opts.connection opts) as [d |]; cbn in *.
  - destruct (truthy_string (Opts.url opts)); [destruct Hne; reflexivity |].
    cbn. eexists _, _, _. split; [reflexivity |]. split; intros; reflexivity.
  - destruct (Opts.url opts) as [u |]; cbn in *; [| destruct Hne; reflexivity].
    destruct (bool_decide (u = EmptyString)); cbn in *; [destruct Hne; reflexivity |].
    eexists _, _, _. split; [reflexivity |]. split; intros; reflexivity.
Qed.

Lemma connect_invalid (s : ZeroRabbit) (opts : Opts.t) (callback : option Callback) :
  supplies_connection opts = supplies_url opts ->
  fst (exec (connect opts callback) (boot s)) = boot s.
Proof.
  intros Heq. unfold connect. rewrite <- Heq.
  destruct (supplies_connection opts) eqn:Hc; [reflexivity |].
  unfold supplies_connection in Hc.
  destruct (Opts.connection opts) as [d |]; [cbn in Hc; discriminate Hc | reflexivity].
Qed.

(** Until the library answers the connection request, nothing else can
    be answered. *)
Lemma run_first_answer schedule b h c :
  inflight c = [(0, b, h)] ->
  run schedule c = c \/
  exists o schedule' c', deliver 0 o c = Some c' /\ run schedule c = run schedule' c'.
Proof.
  intros Hin. induction schedule as [| [id o] schedule IH]; simpl; [left; reflexivity |].
  destruct id as [| id].
  - destruct (deliver 0 o c) as [c' |] eqn:Hd; [| exact IH].
    right. exists o, schedule, c'. split; [exact Hd | reflexivity].
  - assert (deliver (S id) o c = None) as -> by (unfold deliver; rewrite Hin; reflexivity).
    exact IH.
Qed.

(** X18. [connect] with a callback, on any object and whatever the broker
    answers and in whatever order: the assertions that have reached the
    broker are an initial part of the entries of the configuration; the
    callback has been called at most once, and if it has, then with a null
    error and the connection, the connection is stored in the object, and
    every entry of the configuration has been asserted before. *)
Theorem connect_calls_back_after_setup (s : ZeroRabbit) (opts : Opts.t)
    (callback : Callback) (schedule : list (nat * BrokerOutcome)) :
  let c := run schedule (fst (exec (exports.connect opts (Some callback)) (boot s))) in
  asserted (trace c) `prefix_of` declared opts /\
  (callbacks (trace c) = []
   \/ callbacks (trace c) = [(callback, ANull, AConnection 0)] /\
      asserted (trace c) = declared opts /\
      rabbitConn (this c) = Some 0).
Proof.
  cbn zeta. unfold exports.connect.
  destruct (decide (supplies_connection opts = supplies_url opts)) as [Heq | Hne].
  - rewrite (connect_invalid s opts _ Heq), run_nothing_outstanding by reflexivity.
    split; [apply prefix_nil | left; reflexivity].
  - destruct (connect_start s opts (Some callback) Hne) as (target & K & line & Hex & Herr & Hok).
    rewrite Hex. cbn [fst].
    destruct (run_first_answer schedule (Connect target) (OnReply K)
                (issue (Connect target) (OnReply K) (boot s)) eq_refl)
      as [-> | (o & schedule' & c' & Hd & ->)].
    { split; [apply prefix_nil | left; reflexivity]. }
    unfold deliver in Hd. cbn [issue boot inflight next_id app take Nat.eqb] in Hd.
    destruct o as [err | info]; cbn [reply_of] in Hd.
    + rewrite Herr in Hd. inversion Hd; subst c'.
      rewrite run_nothing_outstanding by reflexivity.
      split; [apply prefix_nil | left; reflexivity].
    + rewrite Hok in Hd. cbn [exec] in Hd. rewrite exec_spawn in Hd.
      cbn [escape] in Hd. inversion Hd; subst c'. clear Hd.
      match goal with |- context [run schedule' ?c0] =>
        assert (Hinv : connect_invariant (connected_then (Some callback) (Connected 0))
                         (declared opts) (callback, ANull, AConnection 0) 0
                         (run schedule' c0))
      end.
      { apply (connect_invariant_run _ callback ANull (AConnection 0)
                 (connected_then_calls_back callback (Connected 0))).
        apply (conclude_then _ callback ANull (AConnection 0)
                 (connected_then_calls_back callback (Connected 0))
                 (declared opts) (declared opts) (setupTopology opts) _ 0
                 (chain_setupTopology opts)).
        - constructor.
        - reflexivity.
        - reflexivity.
        - reflexivity. }
      destruct Hinv as [Hconn [(rem & l & _ & _ & Hdecls & Hcalls) | (_ & Hpre & Hcalls)]].
      * split; [rewrite <- Hdecls; apply prefix_app_r; reflexivity | left; exact Hcalls].
      * split; [exact Hpre |].
        destruct Hcalls as [Hcalls | [Hcalls Hall]]; [left; exact Hcalls | right; auto].
Qed.

(** ** [connect] calls back *)

Lemma exec_steady_callbacks (Q : Value -> Prop) n m :
  steady Q n m ->
  forall c, is_Some (rabbitConn (this c)) ->
  callbacks (trace (exec m c).1) = callbacks (trace c).
Proof.
  induction 1 as [n v Hv | n k Hk IH | n line k Hk IH | n b cb k Hb Hcb Hk IH
                  | n conn channelName k Hk IH];
    intros c Hconn; cbn [exec fst].
  - reflexivity.
  - apply IH; exact Hconn.
  - rewrite (IH (log (Did (Debug line)) c) Hconn). cbn [log trace].
    rewrite callbacks_app. apply app_nil_r.
  - rewrite (IH (issue b (OnReply cb) c) Hconn). cbn [issue trace].
    rewrite callbacks_app. apply app_nil_r.
  - cbn [issue trace]. rewrite callbacks_app. apply app_nil_r.
Qed.

Lemma parked_nonempty n i l : parked n i l -> l <> [].
Proof. destruct 1; discriminate. Qed.

Lemma lift_last_bound f (bound : nat) l :
  Forall (fun y => fst (fst y) < bound) l ->
  Forall (fun y => fst (fst y) < bound) (lift_last f l).
Proof.
  induction 1 as [| x l Hx Hl IH]; [constructor |].
  destruct l as [| y l'].
  - constructor; [| constructor]. destruct x as [[j b] [cb | cb k]]; exact Hx.
  - rewrite lift_last_cons by discriminate. constructor; auto.
Qed.

Lemma take_parked_lift f n i l :
  parked n i l ->
  exists conn channelName k rest,
    take i (lift_last f l)
    = Some (CreateConfirmChannel conn,
            OnSettle (createConfirmChannel_callback channelName) (fun s => bind (k s) f),
            rest) /\
    (forall ch, steady anything n (k (Fulfilled (VChannel ch)))) /\
    Forall idle rest /\
    (forall bound, Forall (fun y => fst (fst y) < bound) l ->
                   Forall (fun y => fst (fst y) < bound) rest).
Proof.
  induction 1 as [[[j b] h] Hx | [[j b] h] l Hx Hlt Hl IH].
  - simpl in Hx. destruct b; try (destruct Hx; fail). destruct h as [cb | cb k]; [destruct Hx |].
    destruct Hx as (-> & [channelName ->] & Hk).
    exists conn, channelName, k, []. cbn [lift_last lift_entry take].
    rewrite Nat.eqb_refl. repeat split; auto.
  - destruct IH as (conn & channelName & k & rest & Ht & Hk & Hrest & Hbound).
    exists conn, channelName, k, ((j, b, h) :: rest).
    rewrite lift_last_cons by (eapply parked_nonempty; eassumption).
    cbn [take]. simpl in Hlt.
    replace (Nat.eqb j i) with false by (symmetry; apply Nat.eqb_neq; lia).
    rewrite Ht. repeat split; auto.
    intros bound HF. inversion HF; subst. constructor; auto.
Qed.

Lemma next_creation_lift f n i l c :
  parked n i l -> inflight c = lift_last f l -> next_creation c = Some i.
Proof.
  intros Hl Hin. unfold next_creation. rewrite Hin. clear Hin.
  induction Hl as [[[j b] h] Hx | x l Hx Hlt Hl IH].
  - simpl in Hx. destruct b; try (destruct Hx; fail). destruct h; [destruct Hx |].
    destruct Hx as [-> _]. reflexivity.
  - rewrite lift_last_cons by (eapply parked_nonempty; eassumption).
    rewrite filter_cons. apply idle_not_creation in Hx.
    destruct (decide (is_creation x.1.2 = true)) as [E | _]; [congruence |]. exact IH.
Qed.

Lemma open_channels_idle n c : Forall idle (inflight c) -> open_channels n c = c.
Proof.
  intros Hidle. destruct n as [| n]; [reflexivity |]. cbn [open_channels].
  assert (next_creation c = None) as ->; [| reflexivity].
  unfold next_creation.
  induction Hidle as [| x l Hx Hl IH]; [reflexivity |].
  rewrite filter_cons. apply idle_not_creation in Hx.
  destruct (decide (is_creation x.1.2 = true)) as [E | _]; [congruence |]. exact IH.
Qed.

Section ConnectCallsBack.

Variable f : Value -> Async.
Variable cb : Callback.
Variables e r : Arg.

Hypothesis f_calls_back : forall v c, exists line,
  exec (f v) c = (log (Did (Invoke cb e r)) (log (Did (Debug line)) c), Returned VUndefined).

(** Set-up followed by [f], from a configuration where it may run: when
    the broker opens every channel, [f] calls the callback. *)
Lemma conclude_steady_then n m c :
  steady anything n m ->
  Forall idle (inflight c) -> numbered c -> is_Some (rabbitConn (this c)) ->
  callbacks (trace c) = [] ->
  let c' := conclude (exec (bind m f) c) in
  (Forall idle (inflight c') /\ callbacks (trace c') = [(cb, e, r)])
  \/ (exists n' i l, n = S n' /\ parked n' i l /\ inflight c' = lift_last f l /\
        numbered c' /\ is_Some (rabbitConn (this c')) /\ callbacks (trace c') = []).
Proof.
  intros Hm Hidle Hnum Hconn Hcalls. cbn zeta. rewrite exec_bind.
  destruct (exec_steady n m Hm c Hidle Hnum Hconn) as (Hthis & Hnum' & Ho).
  pose proof (exec_steady_callbacks anything n m Hm c Hconn) as Hcb.
  destruct (exec m c) as [c1 o]. cbn [fst snd] in *.
  destruct o as [v | err |].
  - left. destruct (f_calls_back v c1) as [line ->].
    cbn [conclude log inflight trace]. split; [exact Ho |].
    rewrite !callbacks_app, Hcb, Hcalls. reflexivity.
  - destruct Ho.
  - right. destruct Ho as (n' & i & -> & Hpark).
    exists n', i, (inflight c1). cbn [conclude lift set_inflight inflight trace this].
    repeat split; auto.
    + unfold numbered in *. cbn [lift set_inflight inflight next_id].
      apply lift_last_bound. exact Hnum'.
    + rewrite Hthis. exact Hconn.
    + rewrite Hcb. exact Hcalls.
Qed.

Lemma open_channels_calls_back n : forall c l i,
  parked n i l -> inflight c = lift_last f l -> numbered c ->
  is_Some (rabbitConn (this c)) -> callbacks (trace c) = [] ->
  callbacks (trace (open_channels (S n) c)) = [(cb, e, r)].
Proof.
  induction n as [n IH] using lt_wf_ind. intros c l i Hpark Hin Hnum Hconn Hcalls.
  cbn [open_channels]. rewrite (next_creation_lift f n i l c Hpark Hin).
  destruct (take_parked_lift f n i l Hpark)
    as (conn & channelName & k & rest & Ht & Hk & Hrest & Hbound).
  cbn [run]. unfold deliver. rewrite Hin, Ht. cbn.
  match goal with |- context [exec _ ?c0] => set (c1 := c0) end.
  assert (H1 : Forall idle (inflight c1)) by exact Hrest.
  assert (H2 : numbered c1).
  { unfold numbered in *. apply (Hbound (next_id c)).
    rewrite Hin in Hnum. clear -Hnum Hpark.
    induction Hpark as [x Hx | x l' Hx Hlt Hl IHl].
    - inversion Hnum; subst. constructor; [| constructor].
      destruct x as [[j b] [? | ? ?]]; assumption.
    - rewrite lift_last_cons in Hnum by (eapply parked_nonempty; eassumption).
      inversion Hnum; subst. constructor; auto. }
  assert (H3 : is_Some (rabbitConn (this c1))) by exact Hconn.
  assert (H4 : callbacks (trace c1) = []).
  { unfold c1. cbn [set_promise settle set_this log set_inflight trace].
    rewrite callbacks_app, Hcalls. reflexivity. }
  destruct (conclude_steady_then n _ c1 (Hk i) H1 H2 H3 H4)
    as [[Hidle Hdone] | (n' & i' & l' & -> & Hpark' & Hin' & Hnum' & Hconn' & Hcalls')].
  - rewrite open_channels_idle by exact Hidle. exact Hdone.
  - apply (IH n' ltac:(lia) _ l' i'); assumption.
Qed.

End ConnectCallsBack.

(** X19. [connect] with a callback and a configuration that passes the
    check: there is a run of the broker, the one in which it accepts the
    connection and opens every channel asked for, at the end of which the
    callback has been called, once, with a null error and the connection. *)
Theorem connect_calls_back (s : ZeroRabbit) (opts : Opts.t) (callback : Callback) :
  supplies_connection opts <> supplies_url opts ->
  exists schedule,
    callbacks (trace (run schedule
                        (fst (exec (exports.connect opts (Some callback)) (boot s)))))
    = [(callback, ANull, AConnection 0)].
Proof.
  intros Hne. unfold exports.connect.
  destruct (connect_start s opts (Some callback) Hne) as (target & K & line & Hex & _ & Hok).
  rewrite Hex. cbn [fst].
  assert (Hd : exists c0,
             deliver 0 (Succeeds EmptyString) (issue (Connect target) (OnReply K) (boot s))
             = Some (conclude (exec (bind (setupTopology opts)
                                          (connected_then (Some callback) (Connected 0))) c0))
             /\ inflight c0 = [] /\ next_id c0 = 1 /\ rabbitConn (this c0) = Some 0
             /\ callbacks (trace c0) = []).
  { unfold deliver. cbn [issue boot inflight next_id app take Nat.eqb reply_of].
    rewrite Hok. cbn [exec]. rewrite exec_spawn. cbn [escape].
    eexists. split; [reflexivity |]. repeat split. }
  destruct Hd as (c0 & Hd & Hin0 & Hid0 & Hconn0 & Hcalls0).
  destruct (conclude_steady_then _ callback ANull (AConnection 0)
              (connected_then_calls_back callback (Connected 0))
              _ _ c0 (steady_setupTopology opts))
    as [[Hidle Hdone] | (n' & i' & l' & _ & Hpark' & Hin' & Hnum' & Hconn' & Hcalls')].
  - rewrite Hin0. constructor.
  - unfold numbered. rewrite Hin0. constructor.
  - rewrite Hconn0. eauto.
  - exact Hcalls0.
  - exists [(0, Succeeds EmptyString)]. cbn [run]. rewrite Hd. exact Hdone.
  - pose proof (open_channels_calls_back _ callback ANull (AConnection 0)
                  (connected_then_calls_back callback (Connected 0))
                  n' _ l' i' Hpark' Hin' Hnum' Hconn' Hcalls') as Hlive.
    match type of Hlive with context [open_channels ?n ?c] =>
      destruct (open_channels_schedule n c) as [schedule Hs]
    end.
    rewrite Hs in Hlive.
    exists ((0, Succeeds EmptyString) :: schedule). cbn [run]. rewrite Hd. exact Hlive.
Qed.

Lemma connect_calls_back_witness :
  exists schedule,
    callbacks (trace (run schedule
                        (fst (exec (exports.connect small_topology (Some "onConnected"))
                                   (boot new_ZeroRabbit)))))
    = [("onConnected", ANull, AConnection 0)].
Proof.
  apply (connect_calls_back new_ZeroRabbit small_topology "onConnected").
  vm_compute. discriminate.
Defined.

(** ** Set-up with a broker that opens every channel *)

Lemma take_snoc_fresh id b h l :
  Forall (fun y => fst (fst y) < id) l -> take id (l ++ [(id, b, h)]) = Some (b, h, l).
Proof.
  induction 1 as [| [[j b0] h0] l Hx Hl IH]; cbn [app take].
  - rewrite Nat.eqb_refl. reflexivity.
  - simpl in Hx. replace (Nat.eqb j id) with false by (symmetry; apply Nat.eqb_neq; lia).
    rewrite IH. reflexivity.
Qed.

(** [exec_opening] is the run in which the broker opens every channel. *)
Lemma open_channels_exec_opening n m :
  steady anything n m ->
  forall c, Forall idle (inflight c) -> numbered c -> is_Some (rabbitConn (this c)) ->
  open_channels n (conclude (exec m c)) = conclude (exec_opening m c).
Proof.
  induction 1 as [n v Hv | n k Hk IH | n line k Hk IH | n b cb k Hb Hcb Hk IH
                  | n conn channelName k Hk IH];
    intros c Hidle Hnum Hconn; cbn [exec exec_opening].
  - apply open_channels_idle. exact Hidle.
  - apply IH; auto.
  - apply (IH (log (Did (Debug line)) c)); auto.
  - apply (IH (issue b (OnReply cb) c)).
    + cbn [issue inflight]. apply Forall_app. split; [exact Hidle |].
      constructor; [| constructor]. simpl. auto.
    + unfold numbered in *. cbn [issue inflight next_id]. apply Forall_app. split.
      * eapply Forall_impl; [exact Hnum |]. simpl. intros; lia.
      * constructor; [simpl; lia | constructor].
    + exact Hconn.
  - cbn [conclude open_channels].
    assert (Hnext : next_creation
                      (issue (CreateConfirmChannel conn)
                             (OnSettle (createConfirmChannel_callback channelName) k) c)
                    = Some (next_id c)).
    { apply (next_creation_parked n). cbn [issue inflight].
      apply parked_snoc; [exact Hidle | exact Hnum |]. simpl. eauto. }
    rewrite Hnext. cbn [run]. unfold deliver. cbn [issue inflight].
    rewrite (take_snoc_fresh _ _ _ _ Hnum). cbn.
    apply IH.
    + exact Hidle.
    + unfold numbered in *. cbn. eapply Forall_impl; [exact Hnum |]. simpl. intros; lia.
    + exact Hconn.
Qed.

Lemma exec_opening_bind m f : forall c,
  exec_opening (bind m f) c
  = match exec_opening m c with
    | (c', Returned v) => exec_opening (f v) c'
    | (c', Thrown e) => (c', Thrown e)
    | (c', Suspended) => (c', Suspended)
    end.
Proof.
  induction m as [v | e | k IH | s k IH | ev k IH | b cb IHcb k IH | b cb IHcb k IH
                  | v k IH | e k IH | m' IHm k IH]; intros c; cbn [bind exec_opening];
    try reflexivity; try apply IH.
  destruct (promise _); [apply IH | reflexivity].
Qed.

(** *** The names that hold a channel *)

Lemma elem_of_registered_names (m : gmap string Value) (name : string) :
  name ∈ registered_names m <-> Map_get m name <> VUndefined.
Proof.
  unfold registered_names, Map_get. rewrite elem_of_dom. split.
  - intros [v Hv]. apply map_lookup_filter_Some in Hv as [Hv Hne]. rewrite Hv. exact Hne.
  - intros Hne. destruct (m !! name) as [v |] eqn:E; [| destruct Hne; reflexivity].
    exists v. apply map_lookup_filter_Some. split; [exact E | exact Hne].
Qed.

Lemma registered_names_insert (m : gmap string Value) (name : string) (ch : nat) :
  registered_names (<[name := VChannel ch]> m) = {[name]} ∪ registered_names m.
Proof.
  apply set_eq. intros x.
  rewrite elem_of_union, elem_of_singleton, !elem_of_registered_names. unfold Map_get.
  destruct (decide (x = name)) as [-> | Hne].
  - rewrite lookup_insert_eq. cbn. split; [auto | discriminate].
  - rewrite lookup_insert_ne by congruence. split; [auto | intros [H | H]; [contradiction | exact H]].
Qed.

Lemma size_difference_union (S1 S2 R : gset string) :
  size ((S1 ∪ S2) ∖ R) = size (S1 ∖ R) + size (S2 ∖ (S1 ∪ R)).
Proof.
  rewrite <- size_union by (intros x; set_unfold; tauto). f_equal.
  apply set_eq. intros x. set_unfold. destruct (decide (x ∈ S1)); tauto.
Qed.

Lemma size_one_name (name : string) (R : gset string) :
  size ((list_to_set [name] : gset string) ∖ R) = if decide (name ∈ R) then 0 else 1.
Proof.
  destruct (decide (name ∈ R)) as [Hin | Hout].
  - replace ((list_to_set [name] : gset string) ∖ R) with (∅ : gset string)
      by (apply set_eq; intros x; set_unfold; intuition (subst; auto)).
    apply size_empty.
  - replace ((list_to_set [name] : gset string) ∖ R) with ({[name]} : gset string)
      by (apply set_eq; intros x; set_unfold; intuition (subst; auto)).
    apply size_singleton.
Qed.

(** *** One entry, and entries one after the other *)

Lemma opened_nothing conn c :
  rabbitConn (this c) = Some conn -> opened conn [] (fun _ => []) c c.
Proof.
  intros Hconn. split; [exact Hconn |]. split; [| split; [auto | split]].
  - exists []. rewrite app_nil_r. repeat split.
    replace ((list_to_set [] : gset string) ∖ registered_names (channels (this c)))
      with (∅ : gset string)
      by (apply set_eq; intros x; set_unfold; intuition (subst; auto)).
    reflexivity.
  - apply set_eq. intros x. set_unfold. tauto.
  - intros name H. inversion H.
Qed.

Lemma opened_trans conn names1 names2 asserts1 asserts2 c c1 c2 :
  (forall m m', (forall name, name ∈ names1 -> Map_get m name = Map_get m' name) ->
                asserts1 m = asserts1 m') ->
  opened conn names1 asserts1 c c1 ->
  opened conn names2 asserts2 c1 c2 ->
  opened conn (names1 ++ names2) (fun m => asserts1 m ++ asserts2 m) c c2.
Proof.
  intros Hstable (_ & (calls1 & Hc1 & Ha1 & Hn1) & Hkeep1 & Hreg1 & Hall1)
         (Hconn & (calls2 & Hc2 & Ha2 & Hn2) & Hkeep2 & Hreg2 & Hall2).
  split; [exact Hconn |]. split; [| split; [| split]].
  - exists (calls1 ++ calls2). split; [| split].
    + rewrite Hc2, Hc1, <- app_assoc. reflexivity.
    + rewrite filter_app, Ha1, Ha2. f_equal. apply Hstable.
      intros name Hin. destruct (Hall1 name Hin) as [ch Hch].
      rewrite Hch. symmetry. apply Hkeep2. exact Hch.
    + rewrite filter_app, Hn1, Hn2, Hreg1, list_to_set_app_L, size_difference_union.
      rewrite <- replicate_add. reflexivity.
  - intros name ch H. apply Hkeep2, Hkeep1. exact H.
  - rewrite Hreg2, Hreg1, list_to_set_app_L. apply set_eq. intros x. set_unfold. tauto.
  - intros name Hin. apply elem_of_app in Hin as [Hin | Hin].
    + destruct (Hall1 name Hin) as [ch Hch]. exists ch. apply Hkeep2. exact Hch.
    + apply Hall2. exact Hin.
Qed.

Lemma filter_entry_calls conn (b : BrokerCall) (created : bool) :
  is_assertion b = true ->
  filter (fun b0 => is_assertion b0 = true)
         ((if created then [CreateConfirmChannel conn] else []) ++ [b]) = [b] /\
  filter (fun b0 => is_creation b0 = true)
         ((if created then [CreateConfirmChannel conn] else []) ++ [b])
  = if created then [CreateConfirmChannel conn] else [].
Proof.
  intros Hb.
  assert (Hnot : is_creation b = false).
  { unfold is_assertion in Hb. apply bool_decide_eq_true in Hb as [d Hd].
    destruct b; try reflexivity. discriminate Hd. }
  destruct created; cbn [app]; rewrite !filter_cons, !filter_nil;
    change (is_assertion (CreateConfirmChannel conn)) with false;
    change (is_creation (CreateConfirmChannel conn)) with true;
    repeat case_decide; try congruence; auto.
Qed.

(** One entry: the channel is found, or it is opened first. *)
Lemma exec_opening_entry conn channelName method (b : nat -> BrokerCall) cb c :
  (forall ch, is_assertion (b ch) = true) ->
  rabbitConn (this c) = Some conn ->
  exists c',
    exec_opening (entry channelName method b cb) c = (c', Returned VUndefined) /\
    opened conn [channelName]
           (fun m => [b (channel_number (Map_get m channelName))]) c c'.
Proof.
  intros Hb Hconn.
  unfold entry, getChannel. cbn [bind exec_opening].
  destruct (Map_get (channels (this c)) channelName) as [| ch] eqn:Hget.
  - destruct (decide (VUndefined = VUndefined)) as [_ | H]; [| destruct H; reflexivity].
    unfold createConfirmChannelPromise. cbn [try_catch bind exec_opening]. rewrite Hconn.
    cbn. eexists. split; [reflexivity |].
    unfold opened.
    cbn [this channels trace issue log set_promise settle set_this answered next_id
         inflight rabbitConn consumerTags].
    split; [exact Hconn |]. split; [| split; [| split]].
    + exists ((if true then [CreateConfirmChannel conn] else []) ++ [b (next_id c)]).
      split; [| split].
      * rewrite !broker_calls_app. cbn. rewrite !app_nil_r, <- app_assoc. reflexivity.
      * rewrite (proj1 (filter_entry_calls conn _ true (Hb (next_id c)))).
        unfold Map_get. rewrite lookup_insert_eq. reflexivity.
      * rewrite (proj2 (filter_entry_calls conn _ true (Hb (next_id c)))).
        rewrite size_one_name.
        destruct (decide (channelName ∈ registered_names (channels (this c)))) as [Hin | _];
          [| reflexivity].
        apply elem_of_registered_names in Hin. contradiction.
    + intros name ch H. unfold Map_get in *.
      rewrite lookup_insert_ne; [exact H |]. intros <-.
      rewrite Hget in H. discriminate H.
    + rewrite registered_names_insert. apply set_eq. intros x. set_unfold. tauto.
    + intros name Hin. apply list_elem_of_singleton in Hin as ->.
      exists (next_id c). unfold Map_get. rewrite lookup_insert_eq. reflexivity.
  - destruct (decide (VChannel ch = VUndefined)) as [H | _]; [discriminate H |].
    cbn. eexists. split; [reflexivity |].
    unfold opened.
    cbn [this channels trace issue log set_promise settle set_this answered next_id
         inflight rabbitConn consumerTags].
    split; [exact Hconn |]. split; [| split; [| split]].
    + exists ((if false then [CreateConfirmChannel conn] else []) ++ [b ch]). split; [| split].
      * rewrite !broker_calls_app. cbn. rewrite !app_nil_r. reflexivity.
      * rewrite (proj1 (filter_entry_calls conn _ false (Hb ch))).
        rewrite Hget. reflexivity.
      * rewrite (proj2 (filter_entry_calls conn _ false (Hb ch))).
        rewrite size_one_name.
        destruct (decide (channelName ∈ registered_names (channels (this c)))) as [_ | Hout];
          [reflexivity |].
        destruct Hout. apply elem_of_registered_names. rewrite Hget. discriminate.
    + auto.
    + assert (channelName ∈ registered_names (channels (this c))).
      { apply elem_of_registered_names. rewrite Hget. discriminate. }
      apply set_eq. intros x. set_unfold. intuition (subst; auto).
    + intros name Hin. apply list_elem_of_singleton in Hin as ->. eauto.
Qed.

Lemma exec_opening_entries {A} conn (array : list A) callback (nm : A -> string) method
    (B : A -> nat -> BrokerCall) (cbk : A -> Reply -> Async) (rest : list A) :
  (forall x index, callback x index array = entry (nm x) method (B x) (cbk x)) ->
  (forall x ch, is_assertion (B x ch) = true) ->
  forall index c, rabbitConn (this c) = Some conn ->
  exists c',
    exec_opening (asyncForEach_from array callback index rest) c = (c', Returned VUndefined) /\
    opened conn (map nm rest)
           (fun m => map (fun x => B x (channel_number (Map_get m (nm x)))) rest) c c'.
Proof.
  intros Hcb HB. induction rest as [| x rest IH]; intros index c Hconn.
  - exists c. split; [reflexivity | apply opened_nothing; exact Hconn].
  - cbn [asyncForEach_from]. rewrite exec_opening_bind, Hcb.
    destruct (exec_opening_entry conn (nm x) method (B x) (cbk x) c (HB x) Hconn)
      as (c1 & -> & Ho1).
    destruct (IH (S index) c1 (proj1 Ho1)) as (c2 & -> & Ho2).
    exists c2. split; [reflexivity |].
    refine (opened_trans conn [nm x] (map nm rest)
              (fun m => [B x (channel_number (Map_get m (nm x)))])
              (fun m => map (fun y => B y (channel_number (Map_get m (nm y)))) rest)
              c c1 c2 _ Ho1 Ho2).
    intros m m' H. rewrite (H (nm x)) by (apply list_elem_of_singleton; reflexivity).
    reflexivity.
Qed.

Lemma exec_opening_phase {A} conn (entries : option (list A)) callback (nm : A -> string)
    method (B : A -> nat -> BrokerCall) (cbk : A -> Reply -> Async) c :
  (forall array x index, callback x index array = entry (nm x) method (B x) (cbk x)) ->
  (forall x ch, is_assertion (B x ch) = true) ->
  rabbitConn (this c) = Some conn ->
  exists c',
    exec_opening (match entries with
                  | Some l => asyncForEach l callback
                  | None => skip
                  end) c = (c', Returned VUndefined) /\
    opened conn (map nm (default [] entries))
           (fun m => map (fun x => B x (channel_number (Map_get m (nm x))))
                         (default [] entries)) c c'.
Proof.
  intros Hcb HB Hconn. destruct entries as [l |].
  - apply (exec_opening_entries conn l callback nm method B cbk l (Hcb l) HB 0 c Hconn).
  - exists c. split; [reflexivity | apply opened_nothing; exact Hconn].
Qed.

Lemma assertions_stable {A} (nm : A -> string) (B : A -> nat -> BrokerCall) (l : list A)
    (m m' : gmap string Value) :
  (forall name, name ∈ map nm l -> Map_get m name = Map_get m' name) ->
  map (fun x => B x (channel_number (Map_get m (nm x)))) l
  = map (fun x => B x (channel_number (Map_get m' (nm x)))) l.
Proof.
  induction l as [| x l IH]; intros H; [reflexivity |]. cbn [map].
  rewrite (H (nm x)) by (cbn [map]; apply list_elem_of_here).
  rewrite IH; [reflexivity |]. intros name Hin. apply H. cbn [map].
  apply list_elem_of_further. exact Hin.
Qed.

(** Set-up as a whole, on a connected object. *)
Lemma exec_opening_setupTopology conn opts c :
  rabbitConn (this c) = Some conn ->
  exists c',
    exec_opening (setupTopology opts) c = (c', Returned VUndefined) /\
    opened conn (channel_names opts) (fun m => assertions_on m opts) c c'.
Proof.
  intros Hconn. unfold setupTopology.
  destruct (exec_opening_phase conn (Opts.exchanges opts)
              (fun exchange _ _ =>
                 assertExchange (Exchange.channel exchange) (Exchange.name exchange)
                   (Exchange.type exchange) (Exchange.options exchange) None)
              Exchange.channel "assertExchange"
              (fun x c0 => AssertExchange c0 (Exchange.name x) (Exchange.type x)
                                          (Exchange.options x))
              (fun x => assertExchange_callback (Exchange.channel x) None) c)
    as (c1 & H1 & Ho1); [reflexivity | reflexivity | exact Hconn |].
  destruct (exec_opening_phase conn (Opts.queues opts)
              (fun queue _ _ =>
                 assertQueue (Queue.channel queue) (Queue.name queue)
                             (Queue.options queue) None)
              Queue.channel "assertQueue"
              (fun x c0 => AssertQueue c0 (Queue.name x) (Queue.options x))
              (fun x => assertQueue_callback (Queue.channel x) None) c1)
    as (c2 & H2 & Ho2); [reflexivity | reflexivity | exact (proj1 Ho1) |].
  destruct (exec_opening_phase conn (Opts.bindings opts)
              (fun binding _ _ =>
                 bindQueue (Binding.channel binding) (Binding.queue binding)
                           (Binding.exchange binding) (Binding.key binding)
                           (Binding.options binding) None)
              Binding.channel "bindQueue"
              (fun x c0 => BindQueue c0 (Binding.queue x) (Binding.exchange x)
                                     (Binding.key x) (Binding.options x))
              (fun x => bindQueue_callback (Binding.channel x) (Binding.queue x)
                          (Binding.exchange x) (Binding.key x) (Binding.options x) None) c2)
    as (c3 & H3 & Ho3); [reflexivity | reflexivity | exact (proj1 Ho2) |].
  exists c3. split.
  - rewrite exec_opening_bind, H1, exec_opening_bind, H2. exact H3.
  - unfold channel_names, assertions_on.
    refine (opened_trans conn _ _ _ _ c c1 c3
              (assertions_stable Exchange.channel
                 (fun x c0 => AssertExchange c0 (Exchange.name x) (Exchange.type x)
                                             (Exchange.options x)) _) Ho1 _).
    refine (opened_trans conn _ _ _ _ c1 c2 c3
              (assertions_stable Queue.channel
                 (fun x c0 => AssertQueue c0 (Queue.name x) (Queue.options x)) _) Ho2 Ho3).
Qed.

Lemma setupTopology_opened (s : ZeroRabbit) (opts : Opts.t) (conn : nat) :
  rabbitConn s = Some conn ->
  exists c',
    open_channels (length (declared opts)) (start_topology s opts)
    = log (Settled (Fulfilled VUndefined)) c' /\
    opened conn (channel_names opts) (fun m => assertions_on m opts) (boot s) c'.
Proof.
  intros Hconn. unfold start_topology. rewrite exec_spawn. cbn [fst].
  rewrite (open_channels_exec_opening _ _ (steady_setupTopology opts) (boot s));
    [| constructor | constructor | cbn; rewrite Hconn; eauto].
  destruct (exec_opening_setupTopology conn opts (boot s) Hconn) as (c' & -> & Ho).
  exists c'. split; [reflexivity | exact Ho].
Qed.

Lemma broker_calls_settled t s : broker_calls (t ++ [Settled s]) = broker_calls t.
Proof. rewrite broker_calls_app. apply app_nil_r. Qed.

(** X20. Set-up on a connected object, in the run where the broker opens
    every channel asked for: the channels asked for are as many as there are
    different channel names among the entries that held no channel at the
    start, all on the stored connection.  Entries that share a channel name
    share one creation, and a name that holds a channel already causes
    none. *)
Theorem setupTopology_opens_one_channel_per_name (s : ZeroRabbit) (opts : Opts.t)
    (conn : nat) :
  rabbitConn s = Some conn ->
  let c := open_channels (length (declared opts)) (start_topology s opts) in
  creations (trace c)
  = replicate (size ((list_to_set (channel_names opts) : gset string)
                     ∖ registered_names (channels s)))
              (CreateConfirmChannel conn).
Proof.
  intros Hconn c.
  destruct (setupTopology_opened s opts conn Hconn)
    as (c' & Hc & _ & (calls & Hcalls & _ & Hn) & _).
  unfold c, creations. rewrite Hc. cbn [log trace].
  rewrite broker_calls_settled, Hcalls. exact Hn.
Qed.

Lemma setupTopology_opens_one_channel_per_name_witness :
  creations (trace (open_channels (length (declared three_queues))
                                  (start_topology connected three_queues)))
  = [CreateConfirmChannel 7].
Proof.
  rewrite (setupTopology_opens_one_channel_per_name connected three_queues 7 eq_refl).
  vm_compute. reflexivity.
Defined.

(** X21. Set-up on a connected object, in the run where the broker opens
    every channel asked for: every entry has been asserted, in the order of
    the configuration, on the channel that the map holds at the end under
    the channel name of the entry; every channel name of the configuration
    holds a channel at the end; and the channels held at the start are
    still held under their names. *)
Theorem setupTopology_asserts_on_named_channels (s : ZeroRabbit) (opts : Opts.t)
    (conn : nat) :
  rabbitConn s = Some conn ->
  let c := open_channels (length (declared opts)) (start_topology s opts) in
  assertions (trace c) = assertions_on (channels (this c)) opts /\
  (forall name, name ∈ channel_names opts ->
                exists ch, Map_get (channels (this c)) name = VChannel ch) /\
  (forall name ch, Map_get (channels s) name = VChannel ch ->
                   Map_get (channels (this c)) name = VChannel ch).
Proof.
  intros Hconn c.
  destruct (setupTopology_opened s opts conn Hconn)
    as (c' & Hc & _ & (calls & Hcalls & Ha & _) & Hkeep & _ & Hall).
  unfold c, assertions. rewrite Hc. cbn [log trace this].
  rewrite broker_calls_settled, Hcalls. auto.
Qed.

Lemma setupTopology_asserts_on_named_channels_witness :
  assertions (trace (open_channels (length (declared three_queues))
                                   (start_topology connected three_queues)))
  = assertions_on
      (channels (this (open_channels (length (declared three_queues))
                                     (start_topology connected three_queues))))
      three_queues.
Proof.
  exact (proj1 (setupTopology_asserts_on_named_channels connected three_queues 7 eq_refl)).
Defined.

(** ** Prefetch and defaults *)

(** X22. [setChannelPrefetch] resolves its channel like the other
    operations: on a registered name it sets the prefetch count on the
    stored channel at once; for a new name on a connected object it asks for
    a channel first and sets the count on it when the broker has opened it.
    The exported function uses the count 1 when none is given. *)
Theorem setChannelPrefetch_resolves_channel (s : ZeroRabbit) (channelName : string)
    (prefetch : option nat) (info : string) :
  let c := fst (exec (exports.setChannelPrefetch (Some channelName) prefetch) (boot s)) in
  (forall ch, Map_get (channels s) channelName = VChannel ch ->
     c = log_all [Did (Debug "Retrieved confirm channel from this.channels");
                  Did (Call (Prefetch ch (default 1 prefetch)));
                  Settled (Fulfilled VUndefined)] (boot s)) /\
  (forall conn, rabbitConn s = Some conn -> Map_get (channels s) channelName = VUndefined ->
     trace c = [Issued 0 (CreateConfirmChannel conn)] /\
     trace (run [(0, Succeeds info)] c)
     = [Issued 0 (CreateConfirmChannel conn);
        Replied 0 (Opened 0);
        Did (Debug ("Created confirm channel: " +:+ channelName));
        Did (Call (Prefetch 0 (default 1 prefetch)));
        Settled (Fulfilled VUndefined)]).
Proof.
  cbn zeta. unfold exports.setChannelPrefetch, spawn, setChannelPrefetch, getChannel.
  cbn [default from_option id bind exec boot this].
  split.
  - intros ch Hget. rewrite Hget.
    destruct (decide (VChannel ch = VUndefined)) as [H | _]; [discriminate H |].
    reflexivity.
  - intros conn Hconn Hget. rewrite Hget.
    destruct (decide (VUndefined = VUndefined)) as [_ | H]; [| destruct H; reflexivity].
    unfold createConfirmChannelPromise. cbn [try_catch bind exec boot this]. rewrite Hconn.
    split; reflexivity.
Qed.

(** X23. The exported [publish] called with a channel name only, on an
    object that holds a channel under that name: it publishes the empty
    object, the two bytes of [{}], to the exchange [default.ex] with the
    empty routing key and empty options; without a channel name it acts on
    the name [default]. *)
Theorem publish_defaults (c : Config) (channelName : option string) (ch : nat) :
  Map_get (channels (this c)) (default "default" channelName) = VChannel ch ->
  fst (exec (exports.publish channelName None None None NoOptions) c)
  = log_all [Did (Debug "Retrieved confirm channel from this.channels");
             Did (Call (Publish ch "default.ex" EmptyString [Byte.x7b; Byte.x7d]
                                (OptionsObject [])));
             Settled (Fulfilled VUndefined)] c.
Proof.
  intros Hget. unfold exports.publish, spawn, publish, getChannel.
  cbn [bind exec fst]. rewrite Hget.
  destruct (decide (VChannel ch = VUndefined)) as [H | _]; [discriminate H |].
  cbn. unfold log_all, log. cbn. rewrite <- !app_assoc. reflexivity.
Qed.

Lemma publish_defaults_witness :
  fst (exec (exports.publish (Some "events") None None None NoOptions) (boot registered))
  = log_all [Did (Debug "Retrieved confirm channel from this.channels");
             Did (Call (Publish 0 "default.ex" EmptyString [Byte.x7b; Byte.x7d]
                                (OptionsObject [])));
             Settled (Fulfilled VUndefined)] (boot registered).
Proof. exact (publish_defaults (boot registered) (Some "events") 0 eq_refl). Defined.

(** ** Two consumers on one channel name *)

(** X24. Two [consume] calls on the same registered channel name: both
    consumers are asked for on the stored channel, but only one consumer tag
    is kept under the name, the one whose confirmation arrived last, in
    whichever order the broker confirms; [cancelChannel] can then cancel
    only that consumer. *)
Theorem consume_twice_keeps_last_tag (s : ZeroRabbit) (channelName q1 q2 : string)
    (options1 options2 : OptionsArg) (callback1 callback2 : Callback) (ch : nat)
    (tag1 tag2 : string) :
  Map_get (channels s) channelName = VChannel ch ->
  let c := fst (exec (exports.consume (Some channelName) (Some q1) options1 callback1 >>
                      exports.consume (Some channelName) (Some q2) options2 callback2)
                     (boot s)) in
  let first_then_second := run [(0, Succeeds tag1); (1, Succeeds tag2)] c in
  let second_then_first := run [(1, Succeeds tag2); (0, Succeeds tag1)] c in
  outstanding c = [Consume ch q1 (consume_onMessage callback1) (or_object options1);
                   Consume ch q2 (consume_onMessage callback2) (or_object options2)] /\
  consumerTags (this first_then_second) !! channelName = Some (Some tag2) /\
  consumerTags (this second_then_first) !! channelName = Some (Some tag1) /\
  exec (cancelChannel channelName) first_then_second
  = (log (Did (Call (Cancel ch (Some tag2)))) first_then_second, Returned VUndefined) /\
  exec (cancelChannel channelName) second_then_first
  = (log (Did (Call (Cancel ch (Some tag1)))) second_then_first, Returned VUndefined).
Proof.
  intros Hget. cbn zeta.
  unfold exports.consume, spawn, consume, getChannel.
  cbn [default from_option id bind exec boot this]. rewrite Hget.
  destruct (decide (VChannel ch = VUndefined)) as [H | _]; [discriminate H |].
  cbn. rewrite Hget.
  destruct (decide (VChannel ch = VUndefined)) as [H | _]; [discriminate H |].
  cbn. rewrite !lookup_insert_eq.
  unfold cancelChannel, checkChannelExists. cbn. rewrite Hget.
  destruct (decide (VChannel ch = VUndefined)) as [H | _]; [discriminate H |].
  repeat split; reflexivity.
Qed.

Lemma consume_twice_keeps_last_tag_witness :
  consumerTags
    (this (run [(1, Succeeds "ctag-2"); (0, Succeeds "ctag-1")]
             (fst (exec (exports.consume (Some "events") (Some "jobs") NoOptions "onJob" >>
                         exports.consume (Some "events") (Some "mail") NoOptions "onMail")
                        (boot registered)))))
  !! "events" = Some (Some "ctag-1").
Proof.
  exact (proj1 (proj2 (proj2 (consume_twice_keeps_last_tag registered "events" "jobs" "mail"
                                NoOptions NoOptions "onJob" "onMail" 0 "ctag-1" "ctag-2"
                                eq_refl)))).
Defined.

(** ** From [publish] to the consumer's callback *)

(** X25. For a value made of [null], booleans, integers between
    -(2^53 - 1) and 2^53 - 1, strings of Unicode characters, arrays and
    objects without a repeated key: the exported [publish] on a registered
    channel name hands the library, once, the UTF-8 bytes of the JSON text
    of the value, with the routing key given or else the empty string and
    the options given or else an empty object.  When the library delivers a
    message with that payload to a consumer that [consume] has made and the
    broker has confirmed, the consumer's callback is called, once, with a
    message wrapper that holds the published value and the raw delivery. *)
Theorem published_value_reaches_consumer (s : ZeroRabbit)
    (publishChannel consumeChannel exName qName : string) (pch cch : nat)
    (v : JSON.value) (routingKey : option string) (options consumeOptions : OptionsArg)
    (deliveryTag : nat) (consumerTag : string) (callback : Callback) :
  JSON.serializable v = true ->
  Map_get (channels s) publishChannel = VChannel pch ->
  Map_get (channels s) consumeChannel = VChannel cch ->
  let payload := Buffer.from (JSON.stringify v) in
  let key := match routingKey with Some k => k | None => EmptyString end in
  let passed := match options with
                | OptionsObject fields => OptionsObject fields
                | NoOptions => OptionsObject []
                end in
  let delivery := {| Delivery.content := payload; Delivery.deliveryTag := deliveryTag |} in
  let message := {| ZeroRabbitMsg.content := v; ZeroRabbitMsg.msg := delivery |} in
  let consuming :=
    run [(0, Succeeds consumerTag)]
        (fst (exec (exports.consume (Some consumeChannel) (Some qName) consumeOptions callback)
                   (boot s))) in
  trace (fst (exec (exports.publish (Some publishChannel) (Some exName) (Some v)
                                    routingKey options) (boot s)))
  = [Did (Debug "Retrieved confirm channel from this.channels");
     Did (Call (Publish pch exName key payload passed));
     Settled (Fulfilled VUndefined)] /\
  hand_over 0 delivery consuming = Some (log (Did (Hand callback message)) consuming) /\
  ZeroRabbitMsg.getJsonMsg message = v /\
  ZeroRabbitMsg.getMsg message = delivery.
Proof.
  intros Hser Hpub Hcon payload key passed delivery message consuming.
  split; [| split; [| split; reflexivity]].
  - unfold exports.publish, spawn, publish, getChannel.
    cbn [default from_option id bind exec fst boot this]. rewrite Hpub.
    destruct (decide (VChannel pch = VUndefined)) as [H | _]; [discriminate H |].
    cbn. rewrite or_empty_default.
    destruct routingKey as [[| a k] |]; destruct options; reflexivity.
  - destruct (consume_registered s consumeChannel qName consumeOptions callback cch Hcon)
      as (cb & Hc1 & _ & Hok).
    assert (Hnew : ZeroRabbitMsg.new (Some delivery) = inr message).
    { unfold ZeroRabbitMsg.new, delivery, payload. cbn [Delivery.content].
      rewrite parse_payload by exact Hser. reflexivity. }
    assert (Htrace : trace consuming
                     = [Did (Debug "Retrieved confirm channel from this.channels");
                        Did (Debug ("Listenting on channel " +:+ consumeChannel +:+ " to: "
                                    +:+ qName +:+ " with options: "
                                    +:+ inspect_options (or_object consumeOptions)));
                        Issued 0 (Consume cch qName (consume_onMessage callback)
                                          (or_object consumeOptions));
                        Settled (Fulfilled VUndefined);
                        Replied 0 (Ok consumerTag)]).
    { unfold consuming. rewrite Hc1. cbn. rewrite Hok. reflexivity. }
    unfold hand_over. rewrite Htrace. cbn [issued confirmed existsb Nat.eqb orb].
    unfold consume_onMessage. rewrite Hnew. reflexivity.
Qed.

Lemma published_value_reaches_consumer_witness :
  hand_over 0
    {| Delivery.content := [Byte.x7b; Byte.x22; Byte.x61; Byte.x22; Byte.x3a; Byte.x31;
                            Byte.x7d];
       Delivery.deliveryTag := 1 |}
    (run [(0, Succeeds "ctag-1")]
         (fst (exec (exports.consume (Some "events") (Some "jobs") NoOptions "onMessage")
                    (boot registered))))
  = Some (log (Did (Hand "onMessage"
                      {| ZeroRabbitMsg.content := a_is_1;
                         ZeroRabbitMsg.msg :=
                           {| Delivery.content := [Byte.x7b; Byte.x22; Byte.x61; Byte.x22;
                                                   Byte.x3a; Byte.x31; Byte.x7d];
                              Delivery.deliveryTag := 1 |} |}))
              (run [(0, Succeeds "ctag-1")]
                   (fst (exec (exports.consume (Some "events") (Some "jobs") NoOptions
                                               "onMessage") (boot registered))))).
Proof.
  exact (proj1 (proj2 (published_value_reaches_consumer registered "events" "events"
                         "metrics" "jobs" 0 0 a_is_1 None NoOptions NoOptions 1 "ctag-1"
                         "onMessage" eq_refl eq_refl eq_refl))).
Defined.
